(** * Session relay of the LAN communication server and its client

    A shallow embedding of [server_core.py] (class [ScalableCommServer]), of
    the networking half of [client_core.py] (class [ScalableCommClient]:
    [ClientCore] for the handshake and the datagrams, [ClientControl] for
    the control channel, the switches and the receiving loop) and of the
    video grid of [gui_main.py] ([GuiMain]), followed by the properties of
    the session registry, of the framed reliable channel, of the datagram
    fan-out, and of the paths that lead from one client through the server
    to another.

    Conventions of the embedding.
    - Python [bytes] are lists of [byte].
    - A Python [str] is represented by the [string] that holds its UTF-8
      encoding: [str.encode()] is then the identity on the representation
      and [bytes.decode()] is the strict UTF-8 validity check.
    - [struct.pack]/[struct.unpack] with the formats ['I'] and ['H'] use the
      byte order of the host; every definition that touches them takes the
      host's [byteorder] as a parameter.
    - The registry [self.clients] is an insertion-ordered [dict]; it is
      iterated by every broadcast, so it is an association list with the
      update-in-place semantics of Python.  [self.username_to_id] is never
      iterated and is a [gmap]; the room ['main'] is a [gset].
    - Clock readings ([time.time()]) are rationals, in seconds.
    - Every handler is one atomic step that returns the new server state
      and the list of output effects it issued, in order; which sends fail
      is an input of the step ([Env]).  The coroutine [handle_tcp_client]
      is cut at its reads into [handle_tcp_client_handshake] (up to the
      entry of the message loop), [handle_tcp_client_iteration] (one turn
      of the loop) and [handle_tcp_client_finally] (the [finally] block);
      [handle_udp_streams_iteration] and [receive_udp_loop_iteration] are
      the bodies of the two datagram loops, [cleanup_inactive_clients] is
      one round of the sweep.  Interleavings inside a step (the datagram
      loop runs in a thread of its own) are not modelled. *)

From Stdlib Require Import Strings.Byte Strings.Ascii Strings.String.
From Stdlib Require Import NArith ZArith QArith Qround Lia.
From Stdlib Require Import DecimalString.
From Stdlib Require DecimalZ DecimalPos.
From stdpp Require Import base option list strings gmap.

Local Open Scope N_scope.

(** ** Bytes and [struct] *)

Module Struct.

Inductive byteorder := LittleEndian | BigEndian.


Definition byte_of_N (n : N) : byte :=
  match Byte.of_N (n mod 256) with
  | Some b => b
  | None => x00
  end.

(** Little-endian value of a byte string. *)
Fixpoint le_to_N (bs : list byte) : N :=
  match bs with
  | [] => 0
  | b :: r => Byte.to_N b + 256 * le_to_N r
  end.

(** The [k] low bytes of [n], least significant first. *)
Fixpoint N_to_le (k : nat) (n : N) : list byte :=
  match k with
  | O => []
  | S k' => byte_of_N n :: N_to_le k' (n / 256)
  end.

Definition native (bo : byteorder) (bs : list byte) : list byte :=
  match bo with
  | LittleEndian => bs
  | BigEndian => rev bs
  end.

(** [struct.pack(fmt, n)] for an unsigned format of [size] bytes; [None]
    stands for [struct.error] (argument out of range). *)
Definition pack (bo : byteorder) (size : nat) (n : N) : option (list byte) :=
  if n <? 256 ^ N.of_nat size
  then Some (native bo (N_to_le size n))
  else None.

(** [struct.unpack(fmt, bs)[0]]; [None] stands for [struct.error] (the
    buffer does not have exactly [size] bytes). *)
Definition unpack (bo : byteorder) (size : nat) (bs : list byte) : option N :=
  if decide (length bs = size)
  then Some (le_to_N (native bo bs))
  else None.

Definition pack_I bo := pack bo 4.
Definition unpack_I bo := unpack bo 4.
Definition pack_H bo := pack bo 2.
Definition unpack_H bo := unpack bo 2.

(** Python's slice [data[i:j]] for [0 <= i <= j]. *)
Definition slice (i j : nat) (data : list byte) : list byte :=
  take (j - i) (drop i data).

End Struct.
Export Struct.

(** ** Text *)

Module Text.


(** [s.encode()] *)
Definition encode (s : string) : list byte := list_byte_of_string s.

Definition cont (b : N) : bool := (0x80 <=? b) && (b <=? 0xBF).
Definition within (lo hi b : N) : bool := (lo <=? b) && (b <=? hi).

(** Strict UTF-8 decoding to code points (well-formed sequences of the
    Unicode standard: no overlong forms, no surrogates, nothing above
    U+10FFFF), on byte values. *)
Fixpoint utf8_codepoints (l : list N) : option (list N) :=
  match l with
  | [] => Some []
  | b0 :: r0 =>
    if b0 <? 0x80 then cons b0 <$> utf8_codepoints r0
    else match r0 with
    | [] => None
    | b1 :: r1 =>
      if within 0xC2 0xDF b0 then
        if cont b1
        then cons ((b0 - 0xC0) * 64 + (b1 - 0x80)) <$> utf8_codepoints r1
        else None
      else match r1 with
      | [] => None
      | b2 :: r2 =>
        if within 0xE0 0xEF b0 then
          if (if b0 =? 0xE0 then within 0xA0 0xBF b1
              else if b0 =? 0xED then within 0x80 0x9F b1
              else cont b1) && cont b2
          then cons ((b0 - 0xE0) * 4096 + (b1 - 0x80) * 64 + (b2 - 0x80))
                 <$> utf8_codepoints r2
          else None
        else match r2 with
        | [] => None
        | b3 :: r3 =>
          if within 0xF0 0xF4 b0 then
            if (if b0 =? 0xF0 then within 0x90 0xBF b1
                else if b0 =? 0xF4 then within 0x80 0x8F b1
                else cont b1) && cont b2 && cont b3
            then cons ((b0 - 0xF0) * 262144 + (b1 - 0x80) * 4096
                       + (b2 - 0x80) * 64 + (b3 - 0x80))
                   <$> utf8_codepoints r3
            else None
          else None
        end
      end
    end
  end.

(** [data.decode()] (codec utf-8, errors strict); [None] stands for
    [UnicodeDecodeError]. *)
Definition decode (data : list byte) : option string :=
  match utf8_codepoints (Byte.to_N <$> data) with
  | Some _ => Some (string_of_list_byte data)
  | None => None
  end.

(** Code points of a [str]. *)
Definition codepoints (s : string) : list N :=
  default [] (utf8_codepoints (Byte.to_N <$> encode s)).

(** UTF-8 encoding of one code point. *)
Definition utf8_of_codepoint (c : N) : list byte :=
  if c <? 0x80 then [byte_of_N c]
  else if c <? 0x800 then [byte_of_N (0xC0 + c / 64); byte_of_N (0x80 + c mod 64)]
  else if c <? 0x10000 then
    [byte_of_N (0xE0 + c / 4096); byte_of_N (0x80 + (c / 64) mod 64);
     byte_of_N (0x80 + c mod 64)]
  else
    [byte_of_N (0xF0 + c / 262144); byte_of_N (0x80 + (c / 4096) mod 64);
     byte_of_N (0x80 + (c / 64) mod 64); byte_of_N (0x80 + c mod 64)].

Definition str_of_codepoints (cs : list N) : string :=
  string_of_list_byte (mjoin (utf8_of_codepoint <$> cs)).

(** [str.isspace] on one character (the white space table of CPython). *)
Definition is_whitespace (c : N) : bool :=
  within 0x09 0x0D c || within 0x1C 0x20 c || (c =? 0x85) || (c =? 0xA0)
  || (c =? 0x1680) || within 0x2000 0x200A c || (c =? 0x2028)
  || (c =? 0x2029) || (c =? 0x202F) || (c =? 0x205F) || (c =? 0x3000).

Fixpoint lstrip_cps (cs : list N) : list N :=
  match cs with
  | c :: r => if is_whitespace c then lstrip_cps r else cs
  | [] => []
  end.

(** [s.strip()] *)
Definition strip (s : string) : string :=
  str_of_codepoints (rev (lstrip_cps (rev (lstrip_cps (codepoints s))))).

(** [s.startswith(p)] *)
Definition startswith (p s : string) : bool := String.prefix p s.

(** [s[n:]] for a [str] whose first [n] characters are ASCII. *)
Fixpoint str_drop (n : nat) (s : string) : string :=
  match n, s with
  | O, _ => s
  | S n', String _ s' => str_drop n' s'
  | S _, EmptyString => EmptyString
  end.

(** [int(x)] on a float: truncation towards zero. *)
Definition int_of_float (x : Q) : Z := Z.quot (Qnum x) (Zpos (Qden x)).

(** [str(n)] on an [int]. *)
Definition str_of_int (n : Z) : string := NilZero.string_of_int (Z.to_int n).

End Text.
Export Text.

(** ** [json.dumps] on the two shapes the server serialises *)

Module Json.

(** The double quote character. *)
Definition dq : string := String (Ascii.ascii_of_nat 34) EmptyString.

Definition hex_digit (n : N) : string :=
  String.substring (N.to_nat (n mod 16)) 1 "0123456789abcdef".

(** ['\\u{0:04x}'.format(n)] *)
Definition u_escape (n : N) : string :=
  "\u" +:+ hex_digit (n / 4096) +:+ hex_digit (n / 256)
       +:+ hex_digit (n / 16) +:+ hex_digit n.

(** One character under [ensure_ascii=True]: the short escapes, then
    [\uXXXX] for everything outside the printable ASCII range, with a
    surrogate pair above the basic plane. *)
Definition escape_char (c : N) : string :=
  if c =? 0x22 then "\" +:+ dq
  else if c =? 0x5C then "\\"
  else if c =? 0x0A then "\n"
  else if c =? 0x0D then "\r"
  else if c =? 0x09 then "\t"
  else if c =? 0x0C then "\f"
  else if c =? 0x08 then "\b"
  else if within 0x20 0x7E c then str_of_codepoints [c]
  else if c <? 0x10000 then u_escape c
  else u_escape (0xD800 + ((c - 0x10000) / 1024) mod 1024)
       +:+ u_escape (0xDC00 + (c - 0x10000) mod 1024).

Definition dumps_str (s : string) : string :=
  dq +:+ String.concat "" (escape_char <$> codepoints s) +:+ dq.

Definition dumps_bool (b : bool) : string := if b then "true" else "false".

Definition key (k : string) : string := dq +:+ k +:+ dq +:+ ": ".

(** [json.dumps({'username': u, 'video': v, 'audio': a, 'screen': s})] *)
Definition dumps_status (u : string) (v a s : bool) : string :=
  "{" +:+ key "username" +:+ dumps_str u
  +:+ ", " +:+ key "video" +:+ dumps_bool v
  +:+ ", " +:+ key "audio" +:+ dumps_bool a
  +:+ ", " +:+ key "screen" +:+ dumps_bool s +:+ "}".

(** [json.dumps] of a list whose items are given already serialised. *)
Definition dumps_list (items : list string) : string :=
  "[" +:+ String.concat ", " items +:+ "]".

End Json.

(** ** The server: [ScalableCommServer] *)

Module ServerCore.

(** A socket address [(host, port)]. *)
Definition address := (string * Z)%type.

(** The stream pair [(reader, writer)] that asyncio hands to
    [handle_tcp_client] is identified by the number of the connection. *)
Definition handle := N.

Record Client := mkClient {
  client_id : string;
  username : string;
  tcp_writer : handle;
  tcp_reader : handle;
  udp_addr : address;
  video_active : bool;
  audio_active : bool;
  screen_sharing : bool;
  last_seen : Q
}.

Definition set_udp_addr (a : address) (c : Client) : Client :=
  mkClient (client_id c) (username c) (tcp_writer c) (tcp_reader c) a
           (video_active c) (audio_active c) (screen_sharing c) (last_seen c).
Definition set_video_active (b : bool) (c : Client) : Client :=
  mkClient (client_id c) (username c) (tcp_writer c) (tcp_reader c) (udp_addr c)
           b (audio_active c) (screen_sharing c) (last_seen c).
Definition set_audio_active (b : bool) (c : Client) : Client :=
  mkClient (client_id c) (username c) (tcp_writer c) (tcp_reader c) (udp_addr c)
           (video_active c) b (screen_sharing c) (last_seen c).
Definition set_screen_sharing (b : bool) (c : Client) : Client :=
  mkClient (client_id c) (username c) (tcp_writer c) (tcp_reader c) (udp_addr c)
           (video_active c) (audio_active c) b (last_seen c).
Definition set_last_seen (t : Q) (c : Client) : Client :=
  mkClient (client_id c) (username c) (tcp_writer c) (tcp_reader c) (udp_addr c)
           (video_active c) (audio_active c) (screen_sharing c) t.

(** *** An insertion-ordered [dict] with [str] keys *)

Abbreviation dict V := (list (string * V)).

(** [d.get(k)] *)
Fixpoint dict_get {V} (k : string) (d : dict V) : option V :=
  match d with
  | [] => None
  | (k', v) :: r => if decide (k' = k) then Some v else dict_get k r
  end.

(** [d[k] = v]: an existing key keeps its position, a new one goes last. *)
Fixpoint dict_set {V} (k : string) (v : V) (d : dict V) : dict V :=
  match d with
  | [] => [(k, v)]
  | (k', v') :: r =>
    if decide (k' = k) then (k, v) :: r else (k', v') :: dict_set k v r
  end.

(** [del d[k]] for a key that is present (no change otherwise). *)
Definition dict_del {V} (k : string) (d : dict V) : dict V :=
  filter (λ kv, kv.1 ≠ k) d.

(** [k in d] *)
Definition dict_mem {V} (k : string) (d : dict V) : bool :=
  bool_decide (is_Some (dict_get k d)).

Record ScalableCommServer := mkServer {
  host : string;
  tcp_port : Z;
  udp_port : Z;
  clients : dict Client;
  username_to_id : gmap string string;
  rooms_main : gset string;        (* self.rooms['main'] *)
  total_messages : Z;
  total_bytes : Z
}.

(** [ScalableCommServer(host, tcp_port, udp_port)] *)
Definition init (host : string) (tcp_port udp_port : Z) : ScalableCommServer :=
  mkServer host tcp_port udp_port [] ∅ ∅ 0 0.

Definition with_clients (cs : dict Client) (st : ScalableCommServer) :=
  mkServer (host st) (tcp_port st) (udp_port st) cs (username_to_id st)
           (rooms_main st) (total_messages st) (total_bytes st).
Definition with_username_to_id (m : gmap string string) (st : ScalableCommServer) :=
  mkServer (host st) (tcp_port st) (udp_port st) (clients st) m
           (rooms_main st) (total_messages st) (total_bytes st).
Definition with_rooms_main (r : gset string) (st : ScalableCommServer) :=
  mkServer (host st) (tcp_port st) (udp_port st) (clients st) (username_to_id st)
           r (total_messages st) (total_bytes st).
Definition with_total_messages (n : Z) (st : ScalableCommServer) :=
  mkServer (host st) (tcp_port st) (udp_port st) (clients st) (username_to_id st)
           (rooms_main st) n (total_bytes st).
Definition with_total_bytes (n : Z) (st : ScalableCommServer) :=
  mkServer (host st) (tcp_port st) (udp_port st) (clients st) (username_to_id st)
           (rooms_main st) (total_messages st) n.

(** What the network does with the sends of one step: which stream
    writes and which datagram sends raise. *)
Record Env := mkEnv {
  write_fails : handle → bool;
  sendto_fails : address → bool
}.

(** Output effects, in the order they are issued. *)
Inductive effect :=
| Written (w : handle) (data : list byte)  (* writer.write(data) and drain() went through *)
| SendError (w : handle)                   (* exception swallowed by send_tcp_message *)
| Closed (w : handle)                      (* writer.close() *)
| SentTo (packet : list byte) (addr : address)   (* udp_socket.sendto(packet, addr) *)
| SendToFailed (addr : address).           (* exception swallowed by broadcast_udp *)

(** The stream a control-channel effect is addressed to. *)
Definition effect_writer (e : effect) : option handle :=
  match e with
  | Written w _ | SendError w | Closed w => Some w
  | SentTo _ _ | SendToFailed _ => None
  end.

(** [asyncio.StreamReader.readexactly(n)] on the bytes that arrive before
    the timeout or the end of the stream; [None] stands for
    [IncompleteReadError] or [TimeoutError]. *)
Definition readexactly (n : N) (stream : list byte) : option (list byte * list byte) :=
  if decide (n ≤ N.of_nat (length stream))
  then Some (take (N.to_nat n) stream, drop (N.to_nat n) stream)
  else None.

Section Relay.

Variable bo : byteorder.
Variable env : Env.

(** The frame [length + msg_bytes] of the reliable channel. *)
Definition frame (msg_bytes : list byte) : option (list byte) :=
  length ← pack_I bo (N.of_nat (length msg_bytes));
  Some (length ++ msg_bytes).

Definition send_tcp_message (writer : handle) (message : string) : list effect :=
  let msg_bytes := encode message in
  match frame msg_bytes with
  | None => [SendError writer]
  | Some data =>
    if write_fails env writer then [SendError writer]
    else [Written writer data]
  end.

(** The two reads of a loop iteration of [handle_tcp_client]: the
    payload of the next frame and the rest of the stream. *)
Definition read_frame (stream : list byte) : option (list byte * list byte) :=
  '(length_data, rest) ← readexactly 4 stream;
  msg_length ← unpack_I bo length_data;
  readexactly msg_length rest.

Definition user_entry (client : Client) : string :=
  Json.dumps_status (username client) (video_active client)
                    (audio_active client) (screen_sharing client).

Definition broadcast_user_list (st : ScalableCommServer) : list effect :=
  let users := user_entry <$> (clients st).*2 in
  let message := "USERS:" +:+ Json.dumps_list users in
  client ← (clients st).*2;
  send_tcp_message (tcp_writer client) message.

(** The fan-out loop shared by the three broadcasts to "every client
    but the sender". *)
Definition send_to_others (st : ScalableCommServer) (sender_id : string)
    (msg : string) : list effect :=
  kv ← clients st;
  if decide (kv.1 ≠ sender_id)
  then send_tcp_message (tcp_writer kv.2) msg
  else [].

Definition broadcast_chat (st : ScalableCommServer) (sender_id message : string)
    : list effect :=
  match dict_get sender_id (clients st) with
  | None => []
  | Some sender =>
    let formatted_msg := "CHAT:" +:+ username sender +:+ ":" +:+ message in
    send_to_others st sender_id formatted_msg
  end.

Definition broadcast_file_meta (st : ScalableCommServer) (sender_id meta_json : string)
    : list effect :=
  match dict_get sender_id (clients st) with
  | None => []
  | Some sender =>
    let formatted_msg := "FILE_META:" +:+ username sender +:+ ":" +:+ meta_json in
    send_to_others st sender_id formatted_msg
  end.

Definition broadcast_user_status (st : ScalableCommServer) (client_id : string)
    : list effect :=
  match dict_get client_id (clients st) with
  | None => []
  | Some client =>
    let msg := "STATUS:" +:+ user_entry client in
    send_to_others st client_id msg
  end.

(** The chain of assignments of [handle_control]. *)
Definition apply_control (control : string) (client : Client) : Client :=
  if decide (control = "VIDEO_ON") then set_video_active true client
  else if decide (control = "VIDEO_OFF") then set_video_active false client
  else if decide (control = "AUDIO_ON") then set_audio_active true client
  else if decide (control = "AUDIO_OFF") then set_audio_active false client
  else if decide (control = "SCREEN_ON") then set_screen_sharing true client
  else if decide (control = "SCREEN_OFF") then set_screen_sharing false client
  else client.

Definition handle_control (st : ScalableCommServer) (client_id control : string)
    : ScalableCommServer * list effect :=
  match dict_get client_id (clients st) with
  | None => (st, [])
  | Some client =>
    let st' := with_clients (dict_set client_id (apply_control control client)
                                      (clients st)) st in
    (st', broadcast_user_status st' client_id)
  end.

Definition process_tcp_message (st : ScalableCommServer) (client_id : string)
    (data : list byte) : ScalableCommServer * list effect :=
  match decode data with
  | None => (st, [])
  | Some message =>
    if startswith "CHAT:" message then
      (with_total_messages (total_messages st + 1) st,
       broadcast_chat st client_id (str_drop 5 message))
    else if startswith "FILE_META:" message then
      (st, broadcast_file_meta st client_id (str_drop 10 message))
    else if startswith "CONTROL:" message then
      handle_control st client_id (str_drop 8 message)
    else if decide (message = "PING") then
      match dict_get client_id (clients st) with
      | Some client => (st, send_tcp_message (tcp_writer client) "PONG")
      | None => (st, [])
      end
    else (st, [])
  end.

(** The id computed by the handshake:
    [f"{username}_{int(time.time() * 1000)}"]. *)
Definition make_client_id (username : string) (now : Q) : string :=
  username +:+ "_" +:+ str_of_int (int_of_float (now * 1000)).

(** The three stores of the registration step. *)
Definition register (st : ScalableCommServer) (client_id username : string)
    (writer reader : handle) (peer : address) (now : Q) : ScalableCommServer :=
  let client := mkClient client_id username writer reader
                         (peer.1, udp_port st) false false false now in
  let st1 := with_clients (dict_set client_id client (clients st)) st in
  let st2 := with_username_to_id (<[username := client_id]> (username_to_id st1)) st1 in
  with_rooms_main ({[client_id]} ∪ rooms_main st2) st2.

(** The [finally] block of [handle_tcp_client]; [client_id] is [None] when
    the handshake did not get as far as computing an id. *)
Definition handle_tcp_client_finally (st : ScalableCommServer) (client_id : option string)
    (writer : handle) : ScalableCommServer * list effect :=
  let '(st', effects) :=
    match client_id with
    | Some cid =>
      if decide (cid ≠ "") then
        match dict_get cid (clients st) with
        | Some client =>
          let username := username client in
          let st1 := with_clients (dict_del cid (clients st)) st in
          let st2 :=
            if decide (is_Some (username_to_id st1 !! username))
            then with_username_to_id (delete username (username_to_id st1)) st1
            else st1 in
          let st3 := with_rooms_main (rooms_main st2 ∖ {[cid]}) st2 in
          (st3, broadcast_user_list st3)
        | None => (st, [])
        end
      else (st, [])
    | None => (st, [])
    end in
  (st', effects ++ [Closed writer]).

(** [handle_tcp_client] from its first line to the entry of the message
    loop.  [incoming] holds the bytes the peer has sent when the read
    returns, [peer] is the [peername] of the connection, [t_id] and
    [t_seen] are the two readings of [time.time()].  The third component is
    the id of the session that enters the loop, if one does. *)
Definition handle_tcp_client_handshake (st : ScalableCommServer) (writer : handle)
    (peer : address)
    (incoming : list byte) (t_id t_seen : Q)
    : ScalableCommServer * list effect * option string :=
  let data := take 1024 incoming in
  match decode data with
  | None => (handle_tcp_client_finally st None writer, None)
  | Some text =>
    let username := strip text in
    if decide (username = "") then
      let '(st', effects) := handle_tcp_client_finally st None writer in
      (st', Closed writer :: effects, None)
    else
      let client_id := make_client_id username t_id in
      let st1 := register st client_id username writer writer peer t_seen in
      let welcome :=
        send_tcp_message writer ("CONNECTED:" +:+ client_id +:+ ":" +:+ username) in
      (st1, welcome ++ broadcast_user_list st1, Some client_id)
  end.

(** The handshake read that times out or fails. *)
Definition handshake_failed (st : ScalableCommServer) (writer : handle)
    : ScalableCommServer * list effect :=
  handle_tcp_client_finally st None writer.

(** One iteration of the message loop of the session [client_id]: [stream]
    holds the bytes that arrive before the read gives up, [now] is the
    reading of [time.time()].  The third component is the unread rest of
    the stream when the loop goes on, [None] when the loop was left and
    the [finally] block has run. *)
Definition handle_tcp_client_iteration (st : ScalableCommServer) (client_id : string)
    (writer : handle)
    (stream : list byte) (now : Q)
    : ScalableCommServer * list effect * option (list byte) :=
  match read_frame stream with
  | None => (handle_tcp_client_finally st (Some client_id) writer, None)
  | Some (data, rest) =>
    match dict_get client_id (clients st) with
    | None => (handle_tcp_client_finally st (Some client_id) writer, None)
    | Some client =>
      let st1 := with_clients (dict_set client_id (set_last_seen now client)
                                        (clients st)) st in
      let '(st2, effects) := process_tcp_message st1 client_id data in
      (st2, effects, Some rest)
    end
  end.

(** [None] stands for the [struct.error] of a sender name that does not
    fit the two length bytes. *)
Definition broadcast_udp (st : ScalableCommServer) (data : list byte)
    (sender_id : string) (packet_type : byte) : option (list effect) :=
  let sender_name :=
    match dict_get sender_id (clients st) with
    | Some client => username client
    | None => "Unknown"
    end in
  let sender_bytes := encode sender_name in
  length ← pack_H bo (N.of_nat (length sender_bytes));
  let packet := [packet_type] ++ length ++ sender_bytes ++ data in
  Some (kv ← clients st;
        if decide (kv.1 ≠ sender_id)
        then (if sendto_fails env (udp_addr kv.2)
              then [SendToFailed (udp_addr kv.2)]
              else [SentTo packet (udp_addr kv.2)])
        else []).

(** One iteration of the loop of [handle_udp_streams]: [data] and [addr]
    are what [recvfrom] returned. *)
Definition handle_udp_streams_iteration (st : ScalableCommServer) (data : list byte)
    (addr : address) : ScalableCommServer * list effect :=
  if decide (length data < 3)%nat then (st, [])
  else
    match data, unpack_H bo (slice 1 3 data) with
    | packet_type :: _, Some n =>
      let client_id_len := N.to_nat n in
      if decide (length data < 3 + client_id_len)%nat then (st, [])
      else
        match decode (slice 3 (3 + client_id_len) data) with
        | None => (st, [])
        | Some client_id =>
          let payload := drop (3 + client_id_len) data in
          let st1 :=
            match dict_get client_id (clients st) with
            | Some client =>
              with_clients (dict_set client_id (set_udp_addr addr client)
                                     (clients st)) st
            | None => st
            end in
          match broadcast_udp st1 payload client_id packet_type with
          | None => (st1, [])
          | Some effects =>
            (with_total_bytes (total_bytes st1 + Z.of_nat (length data)) st1, effects)
          end
        end
    | _, _ => (st, [])
    end.

(** [current_time - client.last_seen > 300] *)
Definition inactive_for_300s (current_time : Q) (client : Client) : bool :=
  negb (Qle_bool (current_time - last_seen client) 300).

(** One round of [cleanup_inactive_clients] after its sleep. *)
Definition cleanup_inactive_clients (st : ScalableCommServer) (current_time : Q)
    : ScalableCommServer * list effect :=
  let inactive := (filter (λ kv, inactive_for_300s current_time kv.2) (clients st)).*1 in
  let st1 :=
    foldl (λ s client_id,
             if dict_mem client_id (clients s)
             then with_clients (dict_del client_id (clients s)) s
             else s)
          st inactive in
  match inactive with
  | [] => (st1, [])
  | _ => (st1, broadcast_user_list st1)
  end.

End Relay.

(** *** Runs of the server *)

(** The events the server reacts to.  Each carries the behaviour of the
    network during the step. *)
Inductive event :=
| Connect (peer : address) (incoming : list byte) (t_id t_seen : Q)
| ConnectFailed
| Frame (client_id : string) (writer : handle) (stream : list byte) (now : Q)
| Datagram (data : list byte) (addr : address)
| Sweep (now : Q).

(** The server together with the number of connections accepted so far;
    the next connection gets that number as the handle of its streams. *)
Record World := mkWorld {
  server : ScalableCommServer;
  accepted : N
}.

Definition step (bo : byteorder) (w : World) (ev : Env * event) : World * list effect :=
  let st := server w in
  match ev.2 with
  | Connect peer incoming t_id t_seen =>
    let '(st', effects, _) :=
      handle_tcp_client_handshake bo ev.1 st (accepted w) peer incoming t_id t_seen in
    (mkWorld st' (accepted w + 1), effects)
  | ConnectFailed =>
    let '(st', effects) := handshake_failed bo ev.1 st (accepted w) in
    (mkWorld st' (accepted w + 1), effects)
  | Frame client_id writer stream now =>
    let '(st', effects, _) :=
      handle_tcp_client_iteration bo ev.1 st client_id writer stream now in
    (mkWorld st' (accepted w), effects)
  | Datagram data addr =>
    let '(st', effects) := handle_udp_streams_iteration bo ev.1 st data addr in
    (mkWorld st' (accepted w), effects)
  | Sweep now =>
    let '(st', effects) := cleanup_inactive_clients bo ev.1 st now in
    (mkWorld st' (accepted w), effects)
  end.

Definition run (bo : byteorder) (w : World) (evs : list (Env * event)) : World :=
  foldl (λ w ev, (step bo w ev).1) w evs.

Definition start (host : string) (tcp_port udp_port : Z) : World :=
  mkWorld (init host tcp_port udp_port) 0.

Definition reachable (bo : byteorder) (st : ScalableCommServer) : Prop :=
  ∃ host tcp_port udp_port evs,
    server (run bo (start host tcp_port udp_port) evs) = st.

End ServerCore.

(** ** The client: [ScalableCommClient] *)

Module ClientCore.

Import ServerCore.

Record ScalableCommClient := mkClientCore {
  server_ip : string;
  tcp_port : Z;
  udp_port : Z;
  tcp_reader : option handle;
  tcp_writer : option handle;
  connected : bool;
  client_id : option string;
  username : option string;
  (* whether the callback is set *)
  on_video_frame : bool;
  on_audio_chunk : bool;
  on_screen_frame : bool;
  video_streaming : bool;
  audio_streaming : bool;
  screen_streaming : bool;
  (* whether the receiving thread was started *)
  tcp_thread : bool;
  udp_thread : bool
}.

(** [ScalableCommClient(server_ip, tcp_port, udp_port)] *)
Definition init (server_ip : string) (tcp_port udp_port : Z) : ScalableCommClient :=
  mkClientCore server_ip tcp_port udp_port None None false None None
               false false false false false false false false.

(** What the network does during [connect]: [open_connection] raises or
    times out, or it yields the stream pair [h]; then [drain_fails] tells
    whether sending the name raises and [reply] holds the bytes that arrive
    before the reads give up. *)
Inductive connection :=
| Refused
| Established (h : handle) (drain_fails : bool) (reply : list byte).

(** [s.split(":")] *)
Fixpoint split_colon (s : string) : list string :=
  match s with
  | EmptyString => [EmptyString]
  | String c r =>
    if decide (c = ":"%char) then EmptyString :: split_colon r
    else match split_colon r with
         | h :: t => String c h :: t
         | [] => [String c EmptyString]
         end
  end.

(** [connect(username)]: the new client object, the effects on the stream
    it opened, and the value returned. *)
Definition connect (bo : byteorder) (cl : ScalableCommClient) (name : string)
    (net : connection) : ScalableCommClient * list effect * bool :=
  let cl1 :=
    mkClientCore (server_ip cl) (tcp_port cl) (udp_port cl) (tcp_reader cl)
                 (tcp_writer cl) (connected cl) (client_id cl) (Some name)
                 (on_video_frame cl) (on_audio_chunk cl) (on_screen_frame cl)
                 (video_streaming cl) (audio_streaming cl) (screen_streaming cl)
                 (tcp_thread cl) (udp_thread cl) in
  match net with
  | Refused => (cl1, [], false)
  | Established h drain_fails reply =>
    let cl2 :=
      mkClientCore (server_ip cl1) (tcp_port cl1) (udp_port cl1) (Some h)
                   (Some h) (connected cl1) (client_id cl1) (username cl1)
                   (on_video_frame cl1) (on_audio_chunk cl1) (on_screen_frame cl1)
                   (video_streaming cl1) (audio_streaming cl1) (screen_streaming cl1)
                   (tcp_thread cl1) (udp_thread cl1) in
    if drain_fails then (cl2, [SendError h], false)
    else
      let sent := [Written h (encode name)] in
      match read_frame bo reply with
      | None => (cl2, sent, false)
      | Some (data, _) =>
        match decode data with
        | None => (cl2, sent, false)
        | Some response =>
          if startswith "CONNECTED:" response then
            match split_colon response !! 1%nat with
            | None => (cl2, sent, false)
            | Some id =>
              (mkClientCore (server_ip cl2) (tcp_port cl2) (udp_port cl2)
                            (tcp_reader cl2) (tcp_writer cl2) true (Some id)
                            (username cl2)
                            (on_video_frame cl2) (on_audio_chunk cl2)
                            (on_screen_frame cl2)
                            (video_streaming cl2) (audio_streaming cl2)
                            (screen_streaming cl2) true true,
               sent, true)
            end
          else (cl2, sent, false)
        end
      end
  end.

(** [_send_tcp_data(data)]: the bytes handed to the stream. *)
Definition _send_tcp_data (bo : byteorder) (data : list byte) : option (list byte) :=
  frame bo data.

(** [create_udp_packet(packet_type, payload)]; the outer [None] stands for
    the [struct.error] of an id too long for the two length bytes, the
    inner one for the value [None] returned without a session id. *)
Definition create_udp_packet (bo : byteorder) (cl : ScalableCommClient)
    (packet_type : byte) (payload : list byte) : option (option (list byte)) :=
  match client_id cl with
  | None => Some None
  | Some id =>
    if decide (id = "") then Some None
    else
      let client_id_bytes := encode id in
      length ← pack_H bo (N.of_nat (length client_id_bytes));
      Some (Some ([packet_type] ++ length ++ client_id_bytes ++ payload))
  end.

(** Calls of the media callbacks. *)
Inductive callback (frame : Type) :=
| VideoFrame (sender : string) (image : frame)
| AudioChunk (sender : string) (payload : list byte)
| ScreenFrame (sender : string) (image : frame).
Arguments VideoFrame {frame}.
Arguments AudioChunk {frame}.
Arguments ScreenFrame {frame}.

Section Receive.

(** Decoded images and [cv2.imdecode(np.frombuffer(payload, ...))]; [None]
    covers both the value [None] and an exception, neither of which
    reaches a callback. *)
Variable frame : Type.
Variable imdecode : list byte → option frame.

(** One iteration of the loop of [receive_udp_loop] on the datagram
    [data]: the callbacks it calls.  The iteration assigns no attribute of
    the client. *)
Definition receive_udp_loop_iteration (bo : byteorder) (cl : ScalableCommClient)
    (data : list byte) : list (callback frame) :=
  if decide (length data < 3)%nat then []
  else
    match data, unpack_H bo (slice 1 3 data) with
    | packet_type :: _, Some n =>
      let sender_len := N.to_nat n in
      if decide (length data < 3 + sender_len)%nat then []
      else
        match decode (slice 3 (3 + sender_len) data) with
        | None => []
        | Some sender =>
          let payload := drop (3 + sender_len) data in
          if (Byte.to_N packet_type =? 1) && on_video_frame cl then
            match imdecode payload with
            | Some image => [VideoFrame sender image]
            | None => []
            end
          else if (Byte.to_N packet_type =? 2) && on_audio_chunk cl then
            [AudioChunk sender payload]
          else if (Byte.to_N packet_type =? 3) && on_screen_frame cl then
            match imdecode payload with
            | Some image => [ScreenFrame sender image]
            | None => []
            end
          else []
        end
    | _, _ => []
    end.

End Receive.

End ClientCore.

(** ** The client's control channel and switches *)

Module ClientControl.

Import ServerCore ClientCore.

Definition set_connected (b : bool) (cl : ScalableCommClient) : ScalableCommClient :=
  mkClientCore (server_ip cl) (tcp_port cl) (udp_port cl) (tcp_reader cl)
               (tcp_writer cl) b (client_id cl) (username cl)
               (on_video_frame cl) (on_audio_chunk cl) (on_screen_frame cl)
               (video_streaming cl) (audio_streaming cl) (screen_streaming cl)
               (tcp_thread cl) (udp_thread cl).
Definition set_video_streaming (b : bool) (cl : ScalableCommClient) : ScalableCommClient :=
  mkClientCore (server_ip cl) (tcp_port cl) (udp_port cl) (tcp_reader cl)
               (tcp_writer cl) (connected cl) (client_id cl) (username cl)
               (on_video_frame cl) (on_audio_chunk cl) (on_screen_frame cl)
               b (audio_streaming cl) (screen_streaming cl)
               (tcp_thread cl) (udp_thread cl).
Definition set_audio_streaming (b : bool) (cl : ScalableCommClient) : ScalableCommClient :=
  mkClientCore (server_ip cl) (tcp_port cl) (udp_port cl) (tcp_reader cl)
               (tcp_writer cl) (connected cl) (client_id cl) (username cl)
               (on_video_frame cl) (on_audio_chunk cl) (on_screen_frame cl)
               (video_streaming cl) b (screen_streaming cl)
               (tcp_thread cl) (udp_thread cl).
Definition set_screen_streaming (b : bool) (cl : ScalableCommClient) : ScalableCommClient :=
  mkClientCore (server_ip cl) (tcp_port cl) (udp_port cl) (tcp_reader cl)
               (tcp_writer cl) (connected cl) (client_id cl) (username cl)
               (on_video_frame cl) (on_audio_chunk cl) (on_screen_frame cl)
               (video_streaming cl) (audio_streaming cl) b
               (tcp_thread cl) (udp_thread cl).

(** [asyncio.run(self._send_tcp_data(data))]: what happens on the stream.
    [_send_tcp_data] swallows every exception, so the caller never sees
    one: the [struct.error] of a payload that the four length bytes cannot
    describe and a failing write leave [SendError]; without a writer
    nothing happens at all. *)
Definition run_send_tcp_data (bo : byteorder) (env : Env) (cl : ScalableCommClient)
    (data : list byte) : list effect :=
  match tcp_writer cl with
  | None => []
  | Some h =>
    match _send_tcp_data bo data with
    | None => [SendError h]
    | Some framed =>
      if write_fails env h then [SendError h] else [Written h framed]
    end
  end.

(** [send_chat_message(message)]: the effects and the value returned.
    [asyncio.run] is taken to go through (the window calls from a thread
    without a running event loop), so that a connected client always
    returns [True], also when the write failed inside [_send_tcp_data]. *)
Definition send_chat_message (bo : byteorder) (env : Env) (cl : ScalableCommClient)
    (message : string) : list effect * bool :=
  if negb (connected cl) then ([], false)
  else
    let msg := "CHAT:" +:+ message in
    (run_send_tcp_data bo env cl (encode msg), true).

(** [send_control(control)] *)
Definition send_control (bo : byteorder) (env : Env) (cl : ScalableCommClient)
    (control : string) : list effect :=
  if negb (connected cl) then []
  else
    let msg := "CONTROL:" +:+ control in
    run_send_tcp_data bo env cl (encode msg).

(** The capture threads that the switches start, by their target. *)
Inductive thread :=
| VideoStreamLoop
| AudioStreamLoop
| ScreenShareLoop.

(** [start_video(camera_index)]: the client when the call returns, the
    effects on the control channel, the threads started and the value
    returned.  ([camera_index] is handed to the thread, which does not
    look at it.) *)
Definition start_video (bo : byteorder) (env : Env) (cl : ScalableCommClient)
    : ScalableCommClient * list effect * list thread * bool :=
  if negb (connected cl) then (cl, [], [], false)
  else if video_streaming cl then (cl, [], [], false)
  else
    let cl1 := set_video_streaming true cl in
    (cl1, send_control bo env cl1 "VIDEO_ON", [VideoStreamLoop], true).

Definition stop_video (bo : byteorder) (env : Env) (cl : ScalableCommClient)
    : ScalableCommClient * list effect :=
  let cl1 := set_video_streaming false cl in
  (cl1, send_control bo env cl1 "VIDEO_OFF").

Definition start_audio (bo : byteorder) (env : Env) (cl : ScalableCommClient)
    : ScalableCommClient * list effect * list thread * bool :=
  if negb (connected cl) then (cl, [], [], false)
  else if audio_streaming cl then (cl, [], [], false)
  else
    let cl1 := set_audio_streaming true cl in
    (cl1, send_control bo env cl1 "AUDIO_ON", [AudioStreamLoop], true).

Definition stop_audio (bo : byteorder) (env : Env) (cl : ScalableCommClient)
    : ScalableCommClient * list effect :=
  let cl1 := set_audio_streaming false cl in
  (cl1, send_control bo env cl1 "AUDIO_OFF").

Definition start_screen_share (bo : byteorder) (env : Env) (cl : ScalableCommClient)
    : ScalableCommClient * list effect * list thread * bool :=
  if negb (connected cl) then (cl, [], [], false)
  else if screen_streaming cl then (cl, [], [], false)
  else
    let cl1 := set_screen_streaming true cl in
    (cl1, send_control bo env cl1 "SCREEN_ON", [ScreenShareLoop], true).

Definition stop_screen_share (bo : byteorder) (env : Env) (cl : ScalableCommClient)
    : ScalableCommClient * list effect :=
  let cl1 := set_screen_streaming false cl in
  (cl1, send_control bo env cl1 "SCREEN_OFF").

(** What a capture thread has assigned to the client when it ends; none of
    the three writes on the control channel.  [_video_stream_loop] clears
    its flag in its [finally], however it ends: no camera, a failure, or
    a loop left because the flag or [connected] was cleared.
    [_audio_stream_loop] and [_screen_share_loop] clear theirs in their
    [except] branch only, that is, when [raised]. *)
Definition _video_stream_loop_end (cl : ScalableCommClient) : ScalableCommClient :=
  set_video_streaming false cl.

Definition _audio_stream_loop_end (raised : bool) (cl : ScalableCommClient)
    : ScalableCommClient :=
  if raised then set_audio_streaming false cl else cl.

Definition _screen_share_loop_end (raised : bool) (cl : ScalableCommClient)
    : ScalableCommClient :=
  if raised then set_screen_streaming false cl else cl.

(** [disconnect()]: the four assignments, then the close of the writer if
    there is one.  (The close of the datagram socket has no counterpart in
    the effects.) *)
Definition disconnect (cl : ScalableCommClient) : ScalableCommClient * list effect :=
  let cl1 := set_screen_streaming false
               (set_audio_streaming false
                  (set_video_streaming false (set_connected false cl))) in
  (cl1, match tcp_writer cl1 with
        | Some h => [Closed h]
        | None => []
        end).

(** The callbacks of the control channel: whether each one is set.  They
    are attributes of the client object like the media callbacks; the
    receiving loop only tests them. *)
Record Callbacks := mkCallbacks {
  on_chat_message : bool;
  on_user_list : bool;
  on_user_status : bool;
  on_file_meta : bool
}.

(** Calls of the callbacks of the control channel; [J] is the type of
    parsed JSON values. *)
Inductive tcp_callback (J : Type) :=
| ChatMessage (sender message : string)
| UserList (users : J)
| UserStatus (status : J)
| FileMeta (sender meta : string).
Arguments ChatMessage {J}.
Arguments UserList {J}.
Arguments UserStatus {J}.
Arguments FileMeta {J}.

(** [s.split(":", 1)] *)
Fixpoint split_colon_1 (s : string) : list string :=
  match s with
  | EmptyString => [EmptyString]
  | String c r =>
    if decide (c = ":"%char) then [EmptyString; r]
    else match split_colon_1 r with
         | h :: t => String c h :: t
         | [] => [String c EmptyString]
         end
  end.

(** [sock.settimeout(value)] on the socket that [receive_tcp_loop] takes
    from the transport of [tcp_reader]: the [TransportSocket] of asyncio,
    which allows the value 0 only and raises [ValueError] on any other;
    [None] stands for the exception. *)
Definition settimeout (value : Q) : option unit :=
  if Qeq_bool value 0 then Some () else None.

(** What one call of [sock.recv] meets: the time-out of one second, some
    other exception, or data.  With data, the call hands over at most
    [S more] of the bytes that are still to come, and never more than it
    asked for; when no byte is to come it returns the empty string of the
    end of the stream. *)
Inductive recv_outcome :=
| TimedOut
| Raises
| Ready (more : nat).

(** How one of the two accumulating loops of [receive_tcp_loop] ends. *)
Inductive received :=
| Complete (data : list byte) (stream : list byte) (schedule : list recv_outcome)
| Lost        (* [self.connected = False] and [break] *)
| Waiting.    (* the loop is still reading when the schedule ends *)

(** One accumulating loop: [while len(acc) < n and self.connected], with
    [sock.recv(request(len(acc)))] in its body.  [stream] holds the bytes
    that are still to come on the socket. *)
Fixpoint recv_all (request : N → N) (n : N) (acc : list byte) (stream : list byte)
    (schedule : list recv_outcome) {struct schedule} : received :=
  if N.of_nat (length acc) <? n then
    match schedule with
    | [] => Waiting
    | TimedOut :: schedule' => recv_all request n acc stream schedule'
    | Raises :: _ => Lost
    | Ready more :: schedule' =>
      let size := N.to_nat (request (N.of_nat (length acc))) in
      let chunk := take (size `min` S more) stream in
      match chunk with
      | [] => Lost
      | _ :: _ =>
        recv_all request n (acc ++ chunk) (drop (length chunk) stream) schedule'
      end
    end
  else Complete acc stream schedule.

(** How one turn of the outer loop of [receive_tcp_loop] ends. *)
Inductive turn (J : Type) :=
| Continue (calls : list (tcp_callback J)) (stream : list byte)
           (schedule : list recv_outcome)
| Stop (connected : bool)   (* the loop is left, with this value of [self.connected] *)
| Blocked.                  (* still reading when the schedule ends *)
Arguments Continue {J}.
Arguments Stop {J}.
Arguments Blocked {J}.

Section Process.

(** Parsed JSON values and [json.loads]; [None] stands for the exception
    it raises on text that is not JSON. *)
Variable J : Type.
Variable json_loads : string → option J.

(** [_process_tcp_message_sync(message)]: the callbacks it calls.  (The
    coroutine [_process_tcp_message] has the same body.) *)
Definition _process_tcp_message_sync (cbs : Callbacks) (message : string)
    : list (tcp_callback J) :=
  if startswith "CHAT:" message then
    match split_colon_1 (str_drop 5 message) with
    | [sender; text] =>
      if on_chat_message cbs then [ChatMessage sender text] else []
    | _ => []
    end
  else if startswith "USERS:" message then
    match json_loads (str_drop 6 message) with
    | Some users => if on_user_list cbs then [UserList users] else []
    | None => []
    end
  else if startswith "STATUS:" message then
    match json_loads (str_drop 7 message) with
    | Some status => if on_user_status cbs then [UserStatus status] else []
    | None => []
    end
  else if startswith "FILE_META:" message then
    match split_colon_1 (str_drop 10 message) with
    | [sender; meta] =>
      if on_file_meta cbs then [FileMeta sender meta] else []
    | _ => []
    end
  else if decide (message = "PONG") then []
  else [].

(** One turn of the outer loop of [receive_tcp_loop], entered with
    [self.connected] true.  An exception anywhere in the turn, the one of
    [settimeout] included, is caught by the outer [except], which leaves
    the loop and assigns nothing. *)
Definition receive_tcp_loop_iteration (bo : byteorder) (cbs : Callbacks)
    (stream : list byte) (schedule : list recv_outcome) : turn J :=
  match settimeout 1.0 with
  | None => Stop true
  | Some _ =>
    match recv_all (λ len, 4 - len) 4 [] stream schedule with
    | Waiting => Blocked
    | Lost => Stop false
    | Complete length_data stream1 schedule1 =>
      match unpack_I bo length_data with
      | None => Stop true
      | Some length =>
        match recv_all (λ len, N.min (length - len) 4096) length [] stream1 schedule1 with
        | Waiting => Blocked
        | Lost => Stop false
        | Complete data stream2 schedule2 =>
          match decode data with
          | None => Stop true
          | Some message =>
            Continue (_process_tcp_message_sync cbs message) stream2 schedule2
          end
        end
      end
    end
  end.

End Process.

End ClientControl.

(** ** The window: the video grid of [gui_main.py] *)

Module GuiMain.

Import ServerCore.

(** The client object that [connect_to_server] creates, with the
    callbacks the window assigns: video, audio, chat and user list.  The
    window assigns no callback for screen frames, status changes and file
    metadata. *)
Definition client_of_window (server_ip : string) : ClientCore.ScalableCommClient :=
  ClientCore.mkClientCore server_ip 9000 9001 None None false None None
                          true true false false false false false false.

Definition callbacks_of_window : ClientControl.Callbacks :=
  ClientControl.mkCallbacks true true false false.

Section Window.

(** Decoded video frames; [displays f] tells whether the conversions of
    [update_frame] go through on [f] (an exception there is swallowed). *)
Variable frame : Type.
Variable displays : frame → bool.

(** What a label shows: a text, or the last frame set. *)
Inductive content :=
| Text (s : string)
| Pixmap (f : frame).

Record VideoWidget := mkVideoWidget {
  username : string;
  shown : content
}.

(** [VideoWidget(username)] *)
Definition new_widget (username : string) : VideoWidget :=
  mkVideoWidget username (Text (if decide (username = "") then "No Video" else username)).

(** [widget.update_frame(frame)] *)
Definition update_frame (f : frame) (w : VideoWidget) : VideoWidget :=
  if displays f then mkVideoWidget (username w) (Pixmap f) else w.

(** The attributes of [MainWindow] that the video grid uses.  The widget
    objects are shared between [video_widgets], [video_widgets_map] and
    [my_video_widget]: the latter two hold positions in [video_widgets]. *)
Record MainWindow := mkMainWindow {
  client : bool;                          (* whether self.client is set *)
  video_widgets : list VideoWidget;
  video_widgets_map : gmap string nat;
  my_video_widget : option nat;
  my_username : option string
}.

(** [MainWindow()]: nine widgets without a name. *)
Definition init : MainWindow :=
  mkMainWindow false (replicate 9 (new_widget "")) ∅ None None.

(** [connect_to_server(server_ip, username)], as far as the grid goes:
    the first widget is reserved for the own video. *)
Definition connect_to_server (name : string) (win : MainWindow) : MainWindow :=
  mkMainWindow true
               (alter (λ _, mkVideoWidget name (Text (name +:+ " (You)"))) 0%nat
                      (video_widgets win))
               (video_widgets_map win) (Some 0%nat) (Some name).

(** [disconnect()] *)
Definition disconnect (win : MainWindow) : MainWindow :=
  if client win then
    mkMainWindow false
                 ((λ _, mkVideoWidget "" (Text "No Video")) <$> video_widgets win)
                 ∅ None None
  else win.

(** The search of [handle_video_frame_gui] for a widget that is free or
    already carries the sender's name: the position of the first one. *)
Fixpoint find_widget (sender : string) (widgets : list VideoWidget) : option nat :=
  match widgets with
  | [] => None
  | w :: r =>
    if decide (username w = "" ∨ username w = sender) then Some 0%nat
    else S <$> find_widget sender r
  end.

(** [handle_video_frame_gui(sender, frame)] *)
Definition handle_video_frame_gui (sender : string) (f : frame) (win : MainWindow)
    : MainWindow :=
  if decide (my_username win = Some sender) then
    match my_video_widget win with
    | Some i =>
      mkMainWindow (client win) (alter (update_frame f) i (video_widgets win))
                   (video_widgets_map win) (my_video_widget win) (my_username win)
    | None => win
    end
  else
    let win1 :=
      match video_widgets_map win !! sender with
      | Some _ => win
      | None =>
        (* for widget in self.video_widgets[1:] *)
        match find_widget sender (drop 1 (video_widgets win)) with
        | Some j =>
          mkMainWindow (client win)
                       (alter (λ _, mkVideoWidget sender (Text sender)) (S j)
                              (video_widgets win))
                       (<[sender := S j]> (video_widgets_map win))
                       (my_video_widget win) (my_username win)
        | None => win
        end
      end in
    match video_widgets_map win1 !! sender with
    | Some i =>
      mkMainWindow (client win1) (alter (update_frame f) i (video_widgets win1))
                   (video_widgets_map win1) (my_video_widget win1) (my_username win1)
    | None => win1
    end.

(** The window after a series of video frames. *)
Definition show_frames (calls : list (string * frame)) (win : MainWindow) : MainWindow :=
  foldl (λ w call, handle_video_frame_gui call.1 call.2 w) win calls.

(** [show_connect_dialog()], given whether the dialog is accepted and the
    two texts typed: the window, and the server address and the name that
    it passes on to [connect_to_server] and from there to [connect]. *)
Definition show_connect_dialog (accepted : bool) (server_input username_input : string)
    (win : MainWindow) : MainWindow * option (string * string) :=
  if accepted then
    let server_ip := strip server_input in
    let name := strip username_input in
    if decide (server_ip ≠ "" ∧ name ≠ "")
    then (connect_to_server name win, Some (server_ip, name))
    else (win, None)
  else (win, None).

End Window.

End GuiMain.

(** * Notions used in the statements *)

Import ServerCore.

(** A datagram that the unreliable channel rejects: shorter than the
    three header bytes, or declaring a tag longer than what follows the
    header. *)
Definition malformed (bo : byteorder) (data : list byte) : Prop :=
  (length data < 3)%nat ∨
  ∃ n, unpack_H bo (slice 1 3 data) = Some n ∧ (length data - 3 < N.to_nat n)%nat.

(** The consistency of the client table: no id and no stream occurs in two
    entries, and every display name is at most 4096 bytes long (the
    handshake reads at most 1024 bytes). *)
Definition clients_ok (cs : dict Client) : Prop :=
  NoDup cs.*1 ∧
  NoDup (tcp_writer <$> cs.*2) ∧
  Forall (λ kv, (String.length (username kv.2) ≤ 4096)%nat) cs.

Definition registry_ok (st : ScalableCommServer) : Prop :=
  clients_ok (clients st).

(** The streams in the table are among the first [n] handed out. *)
Definition bounded (n : N) (cs : dict Client) : Prop :=
  Forall (λ kv, tcp_writer kv.2 < n) cs.

Definition world_ok (w : World) : Prop :=
  registry_ok (server w) ∧ bounded (accepted w) (clients (server w)).

(** The sessions a fan-out from [sender_id] goes to. *)
Definition others (st : ScalableCommServer) (sender_id : string) : dict Client :=
  dict_del sender_id (clients st).

(** The effects that are addressed to the stream [w]. *)
Definition addressed_to (w : handle) (effects : list effect) : list effect :=
  filter (λ e, effect_writer e = Some w) effects.

(** The network on which no send fails. *)
Definition quiet : Env := mkEnv (λ _, false) (λ _, false).

(** A server with the two sessions of the scenarios: alice, then bob. *)
Definition two_sessions : World :=
  run LittleEndian (start "0.0.0.0" 9000 9001)
      [(quiet, Connect ("10.0.0.1", 50001%Z) (encode "alice") 1000.5 1000.5);
       (quiet, Connect ("10.0.0.2", 50002%Z) (encode "bob") 1000.75 1000.75)].

Definition alice_id : string := "alice_1000500".
Definition bob_id : string := "bob_1000750".

(** The capability flags of a session: video, audio, screen. *)
Definition flags (c : Client) : bool * bool * bool :=
  (video_active c, audio_active c, screen_sharing c).

(** The six control words. *)
Definition control_words : list string :=
  ["VIDEO_ON"; "VIDEO_OFF"; "AUDIO_ON"; "AUDIO_OFF"; "SCREEN_ON"; "SCREEN_OFF"].

(** The flags after a control word, as the protocol describes them. *)
Definition flags_after (control : string) (f : bool * bool * bool)
    : bool * bool * bool :=
  let '(video, audio, screen) := f in
  if decide (control = "VIDEO_ON") then (true, audio, screen)
  else if decide (control = "VIDEO_OFF") then (false, audio, screen)
  else if decide (control = "AUDIO_ON") then (video, true, screen)
  else if decide (control = "AUDIO_OFF") then (video, false, screen)
  else if decide (control = "SCREEN_ON") then (video, audio, true)
  else if decide (control = "SCREEN_OFF") then (video, audio, false)
  else f.

(** The datagram of type [packet_type] with the tag bytes [tag] and the
    payload [payload], as [create_udp_packet] lays it out. *)
Definition datagram_of (bo : byteorder) (packet_type : byte) (tag payload : list byte)
    (data : list byte) : Prop :=
  ∃ tag_len, pack_H bo (N.of_nat (length tag)) = Some tag_len ∧
             data = [packet_type] ++ tag_len ++ tag ++ payload.

(** The name the router stamps on a forwarded datagram. *)
Definition stamped_name (st : ScalableCommServer) (tag : string) : string :=
  match dict_get tag (clients st) with
  | Some sender => username sender
  | None => "Unknown"
  end.

(** One datagram send to the media address of a session. *)
Definition forward_to (env : Env) (packet : list byte) (c : Client) : effect :=
  if sendto_fails env (udp_addr c)
  then SendToFailed (udp_addr c)
  else SentTo packet (udp_addr c).

(** A [string] that holds well-formed UTF-8, that is, represents a [str]. *)
Definition valid_text (s : string) : Prop := decode (encode s) = Some s.

(** Unicode scalar values. *)
Definition scalar (c : N) : Prop :=
  c < 0xD800 ∨ (0xE000 ≤ c ∧ c < 0x110000).

(** Every session id in the table is text. *)
Definition ids_are_text (st : ScalableCommServer) : Prop :=
  Forall (λ kv, valid_text kv.1) (clients st).

(** A well-formed datagram whose one tag byte is not UTF-8: type 1, tag
    length 1 (little-endian), tag 0xFF, payload 0x07. *)
Definition stray_datagram : list byte := [x01; x01; x00; xff; x07].

(** The video datagram alice sends: type 1, her id as the tag, two payload
    bytes. *)
Definition alice_datagram : list byte :=
  [x01; x0d; x00] ++ encode alice_id ++ [x07; x08].

(** A well-formed datagram whose tag is the text [k]. *)
Definition tagged_with (bo : byteorder) (data : list byte) (k : string) : Prop :=
  ∃ packet_type tag payload,
    datagram_of bo packet_type tag payload data ∧ decode tag = Some k.

(** The event registers no id that is already in the table: when it is a
    handshake that produces an id, that id is new. *)
Definition registers_fresh_id (bo : byteorder) (w : World) (env : Env) (ev : event)
    : Prop :=
  ∀ peer incoming t_id t_seen id,
    ev = Connect peer incoming t_id t_seen →
    (handle_tcp_client_handshake bo env (server w) (accepted w) peer incoming
                                 t_id t_seen).2 = Some id →
    dict_get id (clients (server w)) = None.

Definition carol_id : string := "carol_1001000".

(** The handshake of carol on the server with the two sessions. *)
Definition carol_connects : event :=
  Connect ("10.0.0.3", 50003%Z) (encode "carol") 1001 1001.

(** Two sessions with the same display name: alice connects, and a second
    alice connects a quarter of a second later. *)
Definition namesakes : World :=
  run LittleEndian (start "0.0.0.0" 9000 9001)
      [(quiet, Connect ("10.0.0.1", 50001%Z) (encode "alice") 1000.5 1000.5);
       (quiet, Connect ("10.0.0.3", 50003%Z) (encode "alice") 1000.75 1000.75)].

Definition later_alice_id : string := "alice_1000750".

(** Two handshakes that send the same name within the same millisecond. *)
Definition same_millisecond : World :=
  run LittleEndian (start "0.0.0.0" 9000 9001)
      [(quiet, Connect ("10.0.0.1", 50001%Z) (encode "alice") 1000.5002 1000.5002);
       (quiet, Connect ("10.0.0.3", 50003%Z) (encode "alice") 1000.5007 1000.5007)].

(** The server after the sweep that runs at 2000 s over [two_sessions], and
    after alice's connection has then come to its end. *)
Definition swept : ScalableCommServer :=
  (cleanup_inactive_clients LittleEndian quiet (server two_sessions) 2000).1.

Definition swept_then_closed : ScalableCommServer :=
  (handle_tcp_client_finally LittleEndian quiet swept (Some alice_id) 0).1.

(** The handshake reply that [connect] gets to see: the text of the first
    frame on the stream; [None] when the connection is refused, the name
    cannot be sent, the frame does not arrive in time or is not text. *)
Definition handshake_reply (bo : byteorder) (net : ClientCore.connection)
    : option string :=
  match net with
  | ClientCore.Established _ false reply =>
    '(data, _) ← read_frame bo reply; decode data
  | _ => None
  end.

(** The text has no colon. *)
Definition colon_free (s : string) : Prop := ":"%char ∉ list_ascii_of_string s.

(** The frame of the reply [ERROR], and the frame of the bare reply
    [CONNECTED:], with little-endian length. *)
Definition error_reply : list byte := [x05; x00; x00; x00] ++ encode "ERROR".
Definition bare_connected_reply : list byte :=
  [x0a; x00; x00; x00] ++ encode "CONNECTED:".

Definition fresh_client : ClientCore.ScalableCommClient :=
  ClientCore.init "127.0.0.1" 9000 9001.

(** ** Notions used in the further properties *)

(** The messages that [process_tcp_message] acts on. *)
Definition recognised (message : string) : bool :=
  startswith "CHAT:" message || startswith "FILE_META:" message
  || startswith "CONTROL:" message || bool_decide (message = "PING").

(** The record that the handshake stores for the session [id]. *)
Definition new_session (st : ScalableCommServer) (id name : string) (writer : handle)
    (peer : address) (t_seen : Q) : Client :=
  mkClient id name writer writer (peer.1, udp_port st) false false false t_seen.

(** The settings the server was started with. *)
Definition settings (st : ScalableCommServer) : string * Z * Z :=
  (host st, tcp_port st, udp_port st).

(** A well-formed session record stored under the key [k]: it carries its
    own key as id, the key is the id the handshake builds from its display
    name, and the display name is non-empty text without white space at
    either end. *)
Definition session_ok (k : string) (c : Client) : Prop :=
  client_id c = k ∧
  (∃ t, k = make_client_id (username c) t) ∧
  username c ≠ "" ∧
  valid_text (username c) ∧
  strip (username c) = username c.

(** The consistency of the three indexes that every step keeps: the
    records of the table are well formed and their ids are in the room;
    the name index maps a name to an id built from that name, which is in
    the room. *)
Definition directory_ok (st : ScalableCommServer) : Prop :=
  Forall (λ kv, session_ok kv.1 kv.2 ∧ kv.1 ∈ rooms_main st) (clients st) ∧
  (∀ n id, username_to_id st !! n = Some id →
           (∃ t, id = make_client_id n t) ∧ id ∈ rooms_main st).

(** [st'] differs from [st] at most in the counters and in the table, and
    every record of its table comes from a record of [st] under the same
    key, with the same id and display name. *)
Definition descends (st st' : ScalableCommServer) : Prop :=
  username_to_id st' = username_to_id st ∧
  rooms_main st' = rooms_main st ∧
  settings st' = settings st ∧
  Forall (λ kv', ∃ c, (kv'.1, c) ∈ clients st ∧
                      client_id kv'.2 = client_id c ∧
                      username kv'.2 = username c) (clients st').

(** [s.rstrip()] on code points. *)
Definition rstrip_cps (cs : list N) : list N := rev (lstrip_cps (rev cs)).

(** The payloads of the next [n] frames of a stream, and what follows
    them: [n] turns of the two reads of the message loop. *)
Fixpoint read_frames (bo : byteorder) (n : nat) (stream : list byte)
    : option (list (list byte) * list byte) :=
  match n with
  | O => Some ([], stream)
  | S n' =>
    '(payload, rest) ← read_frame bo stream;
    '(payloads, rest') ← read_frames bo n' rest;
    Some (payload :: payloads, rest')
  end.

(** The frames of several payloads, one after the other on the stream. *)
Definition frames (bo : byteorder) (payloads : list (list byte)) : option (list byte) :=
  mjoin <$> mapM (frame bo) payloads.

(** The traffic of a run: the number of message-loop reads, and the bytes
    of the datagrams received. *)
Definition frame_read (ev : Env * event) : Z :=
  match ev.2 with
  | Frame _ _ _ _ => 1
  | _ => 0
  end.

Definition frames_received (evs : list (Env * event)) : Z :=
  foldr (λ ev n, frame_read ev + n)%Z 0%Z evs.

Definition datagram_length (ev : Env * event) : Z :=
  match ev.2 with
  | Datagram data _ => Z.of_nat (length data)
  | _ => 0
  end.

Definition datagram_bytes_received (evs : list (Env * event)) : Z :=
  foldr (λ ev n, datagram_length ev + n)%Z 0%Z evs.

(** The settings are kept and the two counters grow by at most [dm] and
    [db]. *)
Definition grows (dm db : Z) (st st' : ScalableCommServer) : Prop :=
  settings st' = settings st ∧
  (total_messages st ≤ total_messages st' ≤ total_messages st + dm)%Z ∧
  (total_bytes st ≤ total_bytes st' ≤ total_bytes st + db)%Z.

(** The frame of the welcome that the server sends to alice, with
    little-endian length. *)
Definition alice_welcome : list byte :=
  [x1d; x00; x00; x00] ++ encode ("CONNECTED:" +:+ alice_id +:+ ":alice").

(** The client of alice once [connect] has succeeded on the stream 7. *)
Definition alice_client : ClientCore.ScalableCommClient :=
  ClientCore.mkClientCore "127.0.0.1" 9000 9001 (Some 7) (Some 7) true
                          (Some alice_id) (Some "alice"%string)
                          true true true false false false true true.

(** The client of bob, with every media callback set. *)
Definition bob_client : ClientCore.ScalableCommClient :=
  ClientCore.mkClientCore "127.0.0.1" 9000 9001 (Some 8) (Some 8) true
                          (Some bob_id) (Some "bob"%string)
                          true true true false false false true true.

(** The six switches of the client with the control word each one sends:
    the client and the effects when the call returns. *)
Definition switches (bo : byteorder) (env : Env) (cl : ClientCore.ScalableCommClient)
    : list (string * (ClientCore.ScalableCommClient * list effect)) :=
  [("VIDEO_ON"%string, (ClientControl.start_video bo env cl).1.1);
   ("VIDEO_OFF"%string, ClientControl.stop_video bo env cl);
   ("AUDIO_ON"%string, (ClientControl.start_audio bo env cl).1.1);
   ("AUDIO_OFF"%string, ClientControl.stop_audio bo env cl);
   ("SCREEN_ON"%string, (ClientControl.start_screen_share bo env cl).1.1);
   ("SCREEN_OFF"%string, ClientControl.stop_screen_share bo env cl)].

(** The three streaming flags of the client: video, audio, screen. *)
Definition streaming (cl : ClientCore.ScalableCommClient) : bool * bool * bool :=
  (ClientCore.video_streaming cl, ClientCore.audio_streaming cl,
   ClientCore.screen_streaming cl).

(** The consistency of the video grid of a window connected as [me]: nine
    widgets, the first one reserved for [me], and every entry of the map
    pointing to a later widget that carries the sender's name. *)
Definition grid_ok {frame : Type} (me : string) (win : GuiMain.MainWindow frame) : Prop :=
  length (GuiMain.video_widgets frame win) = 9%nat ∧
  GuiMain.my_username frame win = Some me ∧
  GuiMain.my_video_widget frame win = Some 0%nat ∧
  (∃ w0, GuiMain.video_widgets frame win !! 0%nat = Some w0 ∧
         GuiMain.username frame w0 = me) ∧
  (∀ s i, GuiMain.video_widgets_map frame win !! s = Some i →
          (1 ≤ i)%nat ∧ s ≠ "" ∧ s ≠ me ∧
          ∃ w, GuiMain.video_widgets frame win !! i = Some w ∧
               GuiMain.username frame w = s).

(** A window connected as [me] in which eight other senders have shown a
    frame. *)
Definition full_window : GuiMain.MainWindow unit :=
  GuiMain.show_frames unit (λ _, true)
    [("u1"%string, ()); ("u2"%string, ()); ("u3"%string, ()); ("u4"%string, ());
     ("u5"%string, ()); ("u6"%string, ()); ("u7"%string, ()); ("u8"%string, ())]
    (GuiMain.connect_to_server unit "me" (GuiMain.init unit)).

(** The window of carol after a frame of alice. *)
Definition carol_window : GuiMain.MainWindow unit :=
  GuiMain.show_frames unit (λ _, true) [("alice"%string, ())]
    (GuiMain.connect_to_server unit "carol" (GuiMain.init unit)).

(** * Properties *)

(** ** [struct]: packing and unpacking are inverse *)

Section StructFacts.

Lemma to_N_byte_of_N (n : N) : Byte.to_N (byte_of_N n) = n mod 256.
Proof.
  unfold byte_of_N.
  destruct (Byte.of_N (n mod 256)) as [b|] eqn:E.
  - by apply Byte.to_of_N.
  - apply Byte.of_N_None_iff in E.
    pose proof (N.mod_upper_bound n 256). lia.
Qed.

Lemma length_N_to_le (k : nat) (n : N) : length (N_to_le k n) = k.
Proof. revert n. induction k as [|k IH]; intros n; simpl; [done|]. by rewrite IH. Qed.

Lemma le_to_N_N_to_le (k : nat) (n : N) :
  n < 256 ^ N.of_nat k → le_to_N (N_to_le k n) = n.
Proof.
  revert n. induction k as [|k IH]; intros n Hn.
  - simpl in *. lia.
  - cbn [N_to_le le_to_N]. rewrite to_N_byte_of_N.
    rewrite IH.
    + pose proof (N.div_mod n 256). lia.
    + rewrite Nat2N.inj_succ, N.pow_succ_r' in Hn.
      apply N.Div0.div_lt_upper_bound. lia.
Qed.

Lemma native_involutive (bo : byteorder) (bs : list byte) :
  native bo (native bo bs) = bs.
Proof. destruct bo; simpl; [done|]. apply rev_involutive. Qed.

Lemma length_native (bo : byteorder) (bs : list byte) :
  length (native bo bs) = length bs.
Proof. destruct bo; simpl; [done|]. apply length_rev. Qed.

Lemma pack_Some (bo : byteorder) (k : nat) (n : N) :
  n < 256 ^ N.of_nat k →
  pack bo k n = Some (native bo (N_to_le k n)).
Proof. intros Hn. unfold pack. by apply N.ltb_lt in Hn as ->. Qed.

Lemma pack_length (bo : byteorder) (k : nat) (n : N) (bs : list byte) :
  pack bo k n = Some bs → length bs = k.
Proof.
  unfold pack. case_match; [|done]. intros [= <-].
  by rewrite length_native, length_N_to_le.
Qed.

Lemma unpack_pack (bo : byteorder) (k : nat) (n : N) (bs : list byte) :
  pack bo k n = Some bs → unpack bo k bs = Some n.
Proof.
  intros Hp. pose proof (pack_length _ _ _ _ Hp) as Hl.
  unfold pack in Hp. case_match eqn:E; [|done]. injection Hp as <-.
  unfold unpack. rewrite decide_True by done.
  rewrite native_involutive, le_to_N_N_to_le; [done|]. by apply N.ltb_lt.
Qed.

End StructFacts.

(** ** The reliable-channel frame *)

Lemma readexactly_app (n : N) (l r : list byte) :
  N.of_nat (length l) = n → readexactly n (l ++ r) = Some (l, r).
Proof.
  intros <-. unfold readexactly.
  rewrite decide_True by (rewrite length_app; lia).
  by rewrite Nat2N.id, take_app_length, drop_app_length.
Qed.

Lemma read_frame_frame (bo : byteorder) (payload data rest : list byte) :
  frame bo payload = Some data →
  read_frame bo (data ++ rest) = Some (payload, rest).
Proof.
  unfold frame, read_frame. intros Hf.
  destruct (pack_I bo (N.of_nat (length payload))) as [prefix|] eqn:Hp; [|done].
  simpl in Hf. injection Hf as <-.
  rewrite <-(assoc_L (++)).
  rewrite (readexactly_app 4 prefix)
    by (by rewrite (pack_length _ _ _ _ Hp)).
  simpl.
  unfold unpack_I. erewrite unpack_pack by exact Hp. simpl.
  by apply readexactly_app.
Qed.

(** A payload shorter than 2^32 bytes has a frame: the packed length
    followed by the payload. *)
Lemma frame_Some (bo : byteorder) (payload : list byte) :
  N.of_nat (length payload) < 2 ^ 32 →
  ∃ prefix, pack_I bo (N.of_nat (length payload)) = Some prefix ∧
            frame bo payload = Some (prefix ++ payload).
Proof.
  intros Hlen.
  assert (pack_I bo (N.of_nat (length payload))
          = Some (native bo (N_to_le 4 (N.of_nat (length payload))))) as Hp.
  { apply (pack_Some bo 4). exact Hlen. }
  eexists. split; [exact Hp|]. unfold frame. by rewrite Hp.
Qed.

(** C7. For every payload that the four length bytes can describe, the
    frame that the sender writes is the packed length in the host's byte
    order followed by exactly the payload bytes, and the two reads of the
    receiver give back the payload unchanged, leaving what follows the
    frame on the stream. *)
Theorem frame_roundtrip (bo : byteorder) (payload rest : list byte) :
  N.of_nat (length payload) < 2 ^ 32 →
  ∃ prefix,
    pack_I bo (N.of_nat (length payload)) = Some prefix ∧
    length prefix = 4%nat ∧
    frame bo payload = Some (prefix ++ payload) ∧
    read_frame bo ((prefix ++ payload) ++ rest) = Some (payload, rest).
Proof.
  intros Hlen.
  destruct (frame_Some bo payload Hlen) as (prefix & Hp & Hf).
  exists prefix. split; [exact Hp|]. split; [by eapply pack_length|].
  split; [exact Hf|]. by apply read_frame_frame.
Qed.

Lemma frame_roundtrip_witness :
  N.of_nat (length [x2a]) < 2 ^ 32 ∧
  ∃ prefix,
    pack_I LittleEndian (N.of_nat (length [x2a])) = Some prefix ∧
    length prefix = 4%nat ∧
    frame LittleEndian [x2a] = Some (prefix ++ [x2a]) ∧
    read_frame LittleEndian ((prefix ++ [x2a]) ++ [x07]) = Some ([x2a], [x07]).
Proof.
  split; [vm_compute; reflexivity|].
  apply (frame_roundtrip LittleEndian [x2a] [x07]). vm_compute; reflexivity.
Defined.

(** The sizes named by the round-trip test: 0, 1 and 65536 bytes. *)
Lemma frame_roundtrip_sizes (bo : byteorder) (b : byte) (n : nat) :
  n ∈ [0; 1; N.to_nat 65536]%nat →
  ∃ data, frame bo (replicate n b) = Some data ∧
          read_frame bo data = Some (replicate n b, []).
Proof.
  intros Hn.
  destruct (frame_Some bo (replicate n b)) as (prefix & _ & Hf).
  - rewrite length_replicate.
    assert (n ≤ N.to_nat 65536)%nat as Hle.
    { set (m := N.to_nat 65536) in *.
      assert (1 <= m)%nat by (subst m; lia).
      repeat (apply elem_of_cons in Hn as [->|Hn]); try lia.
      by apply elem_of_nil in Hn. }
    lia.
  - exists (prefix ++ replicate n b). split; [done|].
    rewrite <-(right_id_L [] (++) (prefix ++ replicate n b)).
    by apply read_frame_frame.
Qed.

Lemma length_encode (s : string) : length (encode s) = String.length s.
Proof.
  unfold encode. induction s as [|c s IH]; [done|].
  change (list_byte_of_string (String c s))
    with (byte_of_ascii c :: list_byte_of_string s).
  simpl. by rewrite IH.
Qed.

(** The length prefix is in the byte order of the host that packs it: a
    little-endian and a big-endian host frame the same byte differently,
    and a frame packed on one is not read back on the other. *)
Remark frame_byte_order :
  frame LittleEndian [x2a] = Some [x01; x00; x00; x00; x2a] ∧
  frame BigEndian [x2a] = Some [x00; x00; x00; x01; x2a] ∧
  read_frame BigEndian [x01; x00; x00; x00; x2a] = None.
Proof. repeat split; vm_compute; reflexivity. Qed.

(** What [send_tcp_message] puts on the stream is the frame of the encoded
    message, and the receiving loop reads the message back. *)
Lemma send_tcp_message_read_back (bo : byteorder) (env : Env) (w : handle)
    (message : string) (rest : list byte) :
  N.of_nat (String.length message) < 2 ^ 32 →
  write_fails env w = false →
  ∃ data, send_tcp_message bo env w message = [Written w data] ∧
          read_frame bo (data ++ rest) = Some (encode message, rest).
Proof.
  intros Hlen Hw.
  destruct (frame_Some bo (encode message)) as (prefix & _ & Hf).
  { by rewrite length_encode. }
  exists (prefix ++ encode message). split; [|by apply read_frame_frame].
  unfold send_tcp_message. by rewrite Hf, Hw.
Qed.

(** ** Malformed datagrams *)

(** C6. A datagram shorter than three bytes, or whose declared tag length
    exceeds the bytes after the header, is dropped on both sides: the
    server's router leaves the server as it was and sends nothing, neither
    a forward nor a reply, and the client's receiver calls no callback. *)
Theorem malformed_datagram_discarded (bo : byteorder) (env : Env)
    (st : ScalableCommServer) (addr : address)
    (frame : Type) (imdecode : list byte → option frame)
    (cl : ClientCore.ScalableCommClient) (data : list byte) :
  malformed bo data →
  handle_udp_streams_iteration bo env st data addr = (st, []) ∧
  ClientCore.receive_udp_loop_iteration frame imdecode bo cl data = [].
Proof.
  unfold handle_udp_streams_iteration, ClientCore.receive_udp_loop_iteration.
  intros [Hshort | (n & Hn & Hlong)].
  - by rewrite !decide_True by done.
  - destruct (decide (length data < 3)%nat) as [|Hlen]; [done|].
    destruct data as [|packet_type tl]; [done|].
    rewrite Hn.
    by rewrite !decide_True by lia.
Qed.

Lemma malformed_datagram_discarded_witness :
  malformed LittleEndian [x01; x05; x00; x41] ∧
  handle_udp_streams_iteration LittleEndian (mkEnv (λ _, false) (λ _, false))
                    (init "0.0.0.0" 9000 9001) [x01; x05; x00; x41]
                    ("10.0.0.7", 40000%Z)
  = (init "0.0.0.0" 9000 9001, []) ∧
  ClientCore.receive_udp_loop_iteration unit (λ _, Some ()) LittleEndian
    (ClientCore.init "127.0.0.1" 9000 9001) [x01; x05; x00; x41] = [].
Proof.
  assert (malformed LittleEndian [x01; x05; x00; x41]) as H.
  { right. exists 5. split; [reflexivity | simpl; lia]. }
  split; [exact H|].
  exact (malformed_datagram_discarded LittleEndian _ _ _ unit _ _ _ H).
Defined.

(** ** The insertion-ordered dictionary *)

Section DictFacts.

Context {V : Type}.
Implicit Types (d : dict V) (k : string) (v : V).

Lemma dict_get_elem d k v : dict_get k d = Some v → (k, v) ∈ d.
Proof.
  induction d as [|[k' v'] d IH]; simpl; [done|].
  case_decide as Hk.
  - intros [= Hv]. subst. apply elem_of_cons. by left.
  - intros H. apply elem_of_cons. right. by apply IH.
Qed.

Lemma dict_get_None d k : dict_get k d = None ↔ k ∉ d.*1.
Proof.
  induction d as [|[k' v'] d IH]; simpl.
  - split; [intros _; apply not_elem_of_nil | done].
  - case_decide as Hk.
    + split; [done|]. intros Hn. exfalso. apply Hn. subst. apply elem_of_cons. by left.
    + rewrite IH, not_elem_of_cons. split; [by intros ?; split|by intros [_ ?]].
Qed.

Lemma dict_get_NoDup d k v : NoDup d.*1 → (k, v) ∈ d → dict_get k d = Some v.
Proof.
  induction d as [|[k' v'] d IH]; simpl.
  - intros _ H. by apply elem_of_nil in H.
  - intros Hnd Hin. apply NoDup_cons in Hnd as [Hk' Hnd].
    apply elem_of_cons in Hin as [[= -> ->]|Hin].
    + by rewrite decide_True.
    + case_decide as Hk; [|by apply IH].
      subst. exfalso. apply Hk'.
      apply list_elem_of_fmap. by exists (k, v).
Qed.

Lemma dict_set_elem d k v kv : kv ∈ dict_set k v d → kv ∈ d ∨ kv = (k, v).
Proof.
  induction d as [|[k' v'] d IH]; simpl.
  - intros H. apply list_elem_of_singleton in H. by right.
  - case_decide as Hk.
    + intros H. apply elem_of_cons in H as [->|H]; [by right|].
      left. apply elem_of_cons. by right.
    + intros H. apply elem_of_cons in H as [->|H].
      * left. apply elem_of_cons. by left.
      * destruct (IH H) as [?|?]; [|by right].
        left. apply elem_of_cons. by right.
Qed.

Lemma dict_set_present d k v :
  k ∈ d.*1 → (dict_set k v d).*1 = d.*1 ∧ length (dict_set k v d) = length d.
Proof.
  induction d as [|[k' v'] d IH]; simpl.
  - intros H. by apply elem_of_nil in H.
  - intros H. case_decide as Hk; [by subst|].
    apply elem_of_cons in H as [->|H]; [done|].
    destruct (IH H) as [E1 E2]. rewrite fmap_cons, E1. simpl. by rewrite E2.
Qed.

Lemma dict_set_absent d k v : k ∉ d.*1 → dict_set k v d = d ++ [(k, v)].
Proof.
  induction d as [|[k' v'] d IH]; simpl; [done|].
  intros H. apply not_elem_of_cons in H as [Hne H].
  rewrite decide_False by done. by rewrite IH.
Qed.

Lemma dict_set_NoDup d k v : NoDup d.*1 → NoDup (dict_set k v d).*1.
Proof.
  intros Hnd. destruct (decide (k ∈ d.*1)) as [Hin|Hin].
  - by destruct (dict_set_present d k v Hin) as [-> _].
  - rewrite dict_set_absent by done. rewrite fmap_app. simpl.
    apply NoDup_app. split; [done|]. split; [|apply NoDup_singleton].
    intros x Hx Hx'. apply list_elem_of_singleton in Hx'. by subst.
Qed.

Lemma dict_get_set_eq d k v : dict_get k (dict_set k v d) = Some v.
Proof.
  induction d as [|[k' v'] d IH]; simpl.
  - by rewrite decide_True.
  - case_decide as Hk; simpl.
    + by rewrite decide_True.
    + by rewrite decide_False.
Qed.

Lemma dict_get_set_ne d k k' v :
  k ≠ k' → dict_get k' (dict_set k v d) = dict_get k' d.
Proof.
  intros Hne. induction d as [|[k0 v0] d IH]; simpl.
  - by rewrite decide_False.
  - case_decide as Hk; simpl.
    + subst. by rewrite !decide_False.
    + by rewrite IH.
Qed.

Lemma dict_del_elem d k kv : kv ∈ dict_del k d ↔ kv.1 ≠ k ∧ kv ∈ d.
Proof. unfold dict_del. by rewrite list_elem_of_filter. Qed.

Lemma dict_get_del_eq d k : dict_get k (dict_del k d) = None.
Proof.
  apply dict_get_None. intros H.
  apply list_elem_of_fmap in H as (kv & -> & Hkv).
  apply dict_del_elem in Hkv as [Hne _]. done.
Qed.

Lemma dict_get_del_ne d k k' :
  k ≠ k' → dict_get k' (dict_del k d) = dict_get k' d.
Proof.
  intros Hne. unfold dict_del. induction d as [|[k0 v0] d IH]; [done|].
  rewrite filter_cons. simpl. case_decide as H0; simpl.
  - by rewrite IH.
  - rewrite IH. subst. by rewrite decide_False.
Qed.

Lemma dict_del_sublist d k : dict_del k d `sublist_of` d.
Proof. apply sublist_filter. Qed.

Lemma dict_del_NoDup d k : NoDup d.*1 → NoDup (dict_del k d).*1.
Proof.
  intros H. eapply sublist_NoDup; [exact H|]. apply fmap_sublist, dict_del_sublist.
Qed.

Lemma dict_del_absent d k : k ∉ d.*1 → dict_del k d = d.
Proof.
  unfold dict_del. induction d as [|[k1 v1] d IH]; [done|].
  intros H. apply not_elem_of_cons in H as [Hne H].
  rewrite filter_cons. simpl. rewrite decide_True by done. by rewrite IH.
Qed.

Lemma dict_del_length d k v :
  NoDup d.*1 → dict_get k d = Some v →
  length (dict_del k d) = (length d - 1)%nat.
Proof.
  induction d as [|[k0 v0] d IH]; simpl; [done|].
  intros Hnd Hget. apply NoDup_cons in Hnd as [Hk0 Hnd].
  unfold dict_del in *. rewrite filter_cons. simpl. case_decide as H0.
  - subst. rewrite decide_False by (intros H; by apply H).
    fold (dict_del k d). rewrite dict_del_absent by done. lia.
  - rewrite decide_True by done. simpl. rewrite IH by done.
    apply dict_get_elem in Hget. destruct d; [by apply elem_of_nil in Hget|].
    simpl. lia.
Qed.

Lemma dict_set_fmap_same {B} (f : V → B) d k v v0 :
  dict_get k d = Some v0 → f v = f v0 →
  f <$> (dict_set k v d).*2 = f <$> d.*2.
Proof.
  intros Hget Hf. induction d as [|[k1 v1] d IH]; [done|].
  cbn [dict_get dict_set] in *. case_decide as Hk.
  - injection Hget as ->. rewrite !fmap_cons. simpl. by rewrite Hf.
  - rewrite !fmap_cons. by rewrite IH.
Qed.

Lemma dict_set_Forall (P : string * V → Prop) d k v :
  Forall P d → P (k, v) → Forall P (dict_set k v d).
Proof.
  intros Hd Hv. apply Forall_forall. intros kv Hkv.
  apply dict_set_elem in Hkv as [Hkv| ->]; [|done].
  by eapply Forall_forall in Hd.
Qed.

Lemma dict_del_Forall (P : string * V → Prop) d k :
  Forall P d → Forall P (dict_del k d).
Proof.
  intros H. apply Forall_forall. intros kv Hkv.
  apply dict_del_elem in Hkv as [_ Hkv]. by eapply Forall_forall in H.
Qed.

Lemma dict_del_fmap_NoDup {B} (f : V → B) d k :
  NoDup (f <$> d.*2) → NoDup (f <$> (dict_del k d).*2).
Proof.
  intros H. eapply sublist_NoDup; [exact H|].
  apply fmap_sublist, fmap_sublist, dict_del_sublist.
Qed.

Lemma dict_set_fmap_NoDup {B} (f : V → B) d k v :
  NoDup (f <$> d.*2) → (∀ kv, kv ∈ d → f kv.2 ≠ f v) →
  NoDup (f <$> (dict_set k v d).*2).
Proof.
  induction d as [|[k1 v1] d IH]; simpl.
  - intros _ _. apply NoDup_singleton.
  - intros Hnd Hfresh. apply NoDup_cons in Hnd as [Hv1 Hnd].
    case_decide as Hk; simpl.
    + apply NoDup_cons. split; [|done].
      intros Hin. apply list_elem_of_fmap in Hin as (v2 & Hf & Hin).
      apply list_elem_of_fmap in Hin as (kv & -> & Hin).
      apply (Hfresh kv); [apply elem_of_cons; by right | done].
    + apply NoDup_cons. split.
      * intros Hin. apply list_elem_of_fmap in Hin as (v2 & Hf & Hin).
        apply list_elem_of_fmap in Hin as (kv & -> & Hin).
        apply dict_set_elem in Hin as [Hin| ->].
        -- apply Hv1. rewrite Hf. apply list_elem_of_fmap. exists kv.2.
           split; [done|]. apply list_elem_of_fmap. by exists kv.
        -- apply (Hfresh (k1, v1)); [apply elem_of_cons; by left | done].
      * apply IH; [done|]. intros kv Hkv. apply Hfresh. apply elem_of_cons. by right.
Qed.

End DictFacts.

(** ** Text *)

Lemma length_string_of_list_byte (l : list byte) :
  String.length (string_of_list_byte l) = length l.
Proof.
  rewrite <-(list_byte_of_string_of_list_byte l) at 2.
  symmetry. apply length_encode.
Qed.

Lemma utf8_codepoints_length_aux (n : nat) (l cs : list N) :
  (length l ≤ n)%nat → utf8_codepoints l = Some cs → (length cs ≤ length l)%nat.
Proof.
  revert l cs. induction n as [|n IH]; intros l cs Hn.
  - destruct l; [|simpl in Hn; lia]. by intros [= <-].
  - destruct l as [|b0 r0]; [by intros [= <-]|].
    cbn [utf8_codepoints]. simpl in Hn.
    destruct (b0 <? 128).
    { intros (cs' & H & ->)%fmap_Some. apply IH in H; [|lia]. simpl. lia. }
    destruct r0 as [|b1 r1]; [done|]. simpl in Hn.
    destruct (within 194 223 b0).
    { destruct (cont b1); [|done].
      intros (cs' & H & ->)%fmap_Some. apply IH in H; [|lia]. simpl. lia. }
    destruct r1 as [|b2 r2]; [done|]. simpl in Hn.
    destruct (within 224 239 b0).
    { case_match eqn:Hc; [|done].
      intros (cs' & H & ->)%fmap_Some. apply IH in H; [|lia]. simpl. lia. }
    destruct r2 as [|b3 r3]; [done|]. simpl in Hn.
    destruct (within 240 244 b0); [|done].
    case_match eqn:Hc; [|done].
    intros (cs' & H & ->)%fmap_Some. apply IH in H; [|lia]. simpl. lia.
Qed.

Lemma length_codepoints (s : string) : (length (codepoints s) ≤ String.length s)%nat.
Proof.
  unfold codepoints.
  destruct (utf8_codepoints (Byte.to_N <$> encode s)) as [cs|] eqn:E; simpl; [|lia].
  apply (utf8_codepoints_length_aux _ _ _ (le_n _)) in E.
  by rewrite length_fmap, length_encode in E.
Qed.

Lemma length_lstrip_cps (cs : list N) : (length (lstrip_cps cs) ≤ length cs)%nat.
Proof.
  induction cs as [|c cs IH]; simpl; [done|].
  destruct (is_whitespace c); simpl; lia.
Qed.

Lemma length_str_of_codepoints (cs : list N) :
  (String.length (str_of_codepoints cs) ≤ 4 * length cs)%nat.
Proof.
  unfold str_of_codepoints. rewrite length_string_of_list_byte.
  induction cs as [|c cs IH]; [simpl; lia|].
  change (mjoin (utf8_of_codepoint <$> c :: cs))
    with (utf8_of_codepoint c ++ mjoin (utf8_of_codepoint <$> cs)).
  rewrite length_app, length_cons.
  assert (length (utf8_of_codepoint c) ≤ 4)%nat.
  { unfold utf8_of_codepoint. repeat case_match; simpl; lia. }
  lia.
Qed.

Lemma str_length_app (a b : string) :
  String.length (a +:+ b) = (String.length a + String.length b)%nat.
Proof. induction a as [|c a IH]; [done|]. simpl. by rewrite <-IH. Qed.

(** *** The length of the JSON of a status *)






Lemma length_strip (s : string) : (String.length (strip s) ≤ 4 * String.length s)%nat.
Proof.
  unfold strip.
  etrans; [apply length_str_of_codepoints|].
  rewrite length_rev.
  pose proof (length_lstrip_cps (rev (lstrip_cps (codepoints s)))) as H1.
  rewrite length_rev in H1.
  pose proof (length_lstrip_cps (codepoints s)).
  pose proof (length_codepoints s). lia.
Qed.

Lemma decode_Some (data : list byte) (s : string) :
  decode data = Some s → s = string_of_list_byte data ∧ encode s = data.
Proof.
  unfold decode. case_match; [|done]. intros [= <-]. split; [done|].
  apply list_byte_of_string_of_list_byte.
Qed.

Lemma decode_length (data : list byte) (s : string) :
  decode data = Some s → String.length s = length data.
Proof. intros [-> _]%decode_Some. apply length_string_of_list_byte. Qed.

(** ** The registry invariant *)

Lemma clients_ok_del (cs : dict Client) (k : string) :
  clients_ok cs → clients_ok (dict_del k cs).
Proof.
  intros (Hk & Hw & Hn). split; [by apply dict_del_NoDup|].
  split; [by apply dict_del_fmap_NoDup | by apply dict_del_Forall].
Qed.

Lemma bounded_del (n : N) (cs : dict Client) (k : string) :
  bounded n cs → bounded n (dict_del k cs).
Proof. apply dict_del_Forall. Qed.

Lemma clients_ok_update (cs : dict Client) (k : string) (c c' : Client) :
  dict_get k cs = Some c →
  tcp_writer c' = tcp_writer c → username c' = username c →
  clients_ok cs → clients_ok (dict_set k c' cs).
Proof.
  intros Hget Hw' Hn' (Hk & Hw & Hn). split; [by apply dict_set_NoDup|]. split.
  - by rewrite (dict_set_fmap_same tcp_writer cs k c' c).
  - apply dict_set_Forall; [done|]. simpl. rewrite Hn'.
    apply dict_get_elem in Hget. by eapply Forall_forall in Hn; [|exact Hget].
Qed.

Lemma bounded_update (n : N) (cs : dict Client) (k : string) (c c' : Client) :
  dict_get k cs = Some c → tcp_writer c' = tcp_writer c →
  bounded n cs → bounded n (dict_set k c' cs).
Proof.
  intros Hget Hw' Hb. apply dict_set_Forall; [done|]. simpl. rewrite Hw'.
  apply dict_get_elem in Hget. by eapply Forall_forall in Hb; [|exact Hget].
Qed.

Lemma clients_ok_register (n : N) (cs : dict Client) (k : string) (c : Client) :
  tcp_writer c = n → (String.length (username c) ≤ 4096)%nat →
  clients_ok cs → bounded n cs →
  clients_ok (dict_set k c cs) ∧ bounded (n + 1) (dict_set k c cs).
Proof.
  intros Hw' Hn' (Hk & Hw & Hn) Hb. split; [split; [|split]|].
  - by apply dict_set_NoDup.
  - apply dict_set_fmap_NoDup; [done|]. intros kv Hkv.
    eapply Forall_forall in Hb; [|exact Hkv]. simpl in Hb. lia.
  - by apply dict_set_Forall.
  - apply dict_set_Forall; [|simpl; lia].
    eapply Forall_impl; [exact Hb|]. simpl. intros. lia.
Qed.

Lemma apply_control_writer (control : string) (c : Client) :
  tcp_writer (apply_control control c) = tcp_writer c ∧
  username (apply_control control c) = username c.
Proof. unfold apply_control. by repeat case_decide. Qed.

Section Preservation.

Variable bo : byteorder.
Variable env : Env.
Variable n : N.

Local Abbreviation inv st := (registry_ok st ∧ bounded n (clients st)).

Lemma process_tcp_message_inv st client_id data :
  inv st → inv (process_tcp_message bo env st client_id data).1.
Proof.
  intros [Hok Hb]. unfold process_tcp_message.
  destruct (decode data) as [message|]; [|done].
  repeat case_match; simpl; try done.
  unfold handle_control.
  destruct (dict_get client_id (clients st)) as [c|] eqn:Hget; [|done].
  destruct (apply_control_writer (str_drop 8 message) c) as [Hw Hn].
  simpl. split.
  - by eapply clients_ok_update.
  - by eapply bounded_update.
Qed.

Lemma session_end_inv st client_id writer :
  inv st → inv (handle_tcp_client_finally bo env st client_id writer).1.
Proof.
  intros [Hok Hb]. unfold handle_tcp_client_finally.
  destruct client_id as [cid|]; [|done].
  case_decide; [|done].
  destruct (dict_get cid (clients st)) as [c|]; [|done].
  simpl. case_decide; simpl; (split; [by apply clients_ok_del | by apply bounded_del]).
Qed.

Lemma serve_once_inv st client_id writer stream now :
  inv st → inv (handle_tcp_client_iteration bo env st client_id writer stream now).1.1.
Proof.
  intros [Hok Hb]. unfold handle_tcp_client_iteration.
  destruct (read_frame bo stream) as [[data rest]|]; [|by apply session_end_inv].
  destruct (dict_get client_id (clients st)) as [c|] eqn:Hget;
    [|by apply session_end_inv].
  match goal with |- context [process_tcp_message bo env ?s _ _] =>
    pose proof (process_tcp_message_inv s client_id data) as Hp;
    destruct (process_tcp_message bo env s client_id data) as [st2 effects]
  end.
  simpl in *. apply Hp. split.
  - by eapply clients_ok_update.
  - by eapply bounded_update.
Qed.

Lemma handle_udp_packet_inv st data addr :
  inv st → inv (handle_udp_streams_iteration bo env st data addr).1.
Proof.
  intros [Hok Hb]. unfold handle_udp_streams_iteration.
  case_decide; [done|].
  destruct data as [|packet_type tl]; [done|].
  destruct (unpack_H bo _) as [len|]; [|done].
  case_decide; [done|].
  destruct (decode _) as [client_id|]; [|done].
  assert (inv (match dict_get client_id (clients st) with
               | Some client =>
                 with_clients (dict_set client_id (set_udp_addr addr client)
                                        (clients st)) st
               | None => st
               end)) as Hst1.
  { destruct (dict_get client_id (clients st)) as [c|] eqn:Hget; [|done].
    simpl. split; [by eapply clients_ok_update | by eapply bounded_update]. }
  by destruct (broadcast_udp _ _ _ _ _ _).
Qed.

Lemma cleanup_inactive_clients_inv st now :
  inv st → inv (cleanup_inactive_clients bo env st now).1.
Proof.
  intros Hinv. unfold cleanup_inactive_clients.
  set (inactive := (filter _ (clients st)).*1). clearbody inactive.
  assert (inv (foldl (λ s client_id,
             if dict_mem client_id (clients s)
             then with_clients (dict_del client_id (clients s)) s
             else s) st inactive)) as H.
  { revert st Hinv. induction inactive as [|cid l IH]; intros st Hinv; [done|].
    simpl. apply IH. destruct (dict_mem cid (clients st)); [|done].
    destruct Hinv as [Hok Hb]. simpl.
    split; [by apply clients_ok_del | by apply bounded_del]. }
  by destruct inactive.
Qed.

End Preservation.

Lemma handshake_inv (bo : byteorder) (env : Env) (w : World) (peer : address)
    (incoming : list byte) (t_id t_seen : Q) :
  world_ok w →
  world_ok (mkWorld (handle_tcp_client_handshake bo env (server w) (accepted w) peer incoming
                               t_id t_seen).1.1
                    (accepted w + 1)).
Proof.
  intros [Hok Hb]. unfold world_ok. simpl.
  assert (bounded (accepted w + 1) (clients (server w))) as Hb'.
  { eapply Forall_impl; [exact Hb|]. simpl. intros. lia. }
  unfold handle_tcp_client_handshake.
  destruct (decode (take 1024 incoming)) as [text|] eqn:Hdec; [|done].
  case_decide; [done|]. simpl.
  apply clients_ok_register; try done. simpl.
  pose proof (length_strip text) as Hs.
  apply decode_length in Hdec. rewrite length_take in Hdec. lia.
Qed.

Lemma step_world_ok (bo : byteorder) (w : World) (ev : Env * event) :
  world_ok w → world_ok (step bo w ev).1.
Proof.
  intros Hw. destruct ev as [env ev]. unfold step. simpl.
  destruct ev as [peer incoming t_id t_seen| |cid writer stream now|data addr|now].
  - pose proof (handshake_inv bo env w peer incoming t_id t_seen Hw) as H.
    by destruct (handle_tcp_client_handshake _ _ _ _ _ _ _ _) as [[st' effects] o].
  - unfold handshake_failed. simpl.
    destruct Hw as [Hok Hb]. split; [done|].
    eapply Forall_impl; [exact Hb|]. simpl. intros. lia.
  - pose proof (serve_once_inv bo env (accepted w) (server w) cid writer stream now Hw) as H.
    by destruct (handle_tcp_client_iteration _ _ _ _ _ _ _) as [[st' effects] o].
  - pose proof (handle_udp_packet_inv bo env (accepted w) (server w) data addr Hw) as H.
    by destruct (handle_udp_streams_iteration _ _ _ _ _) as [st' effects].
  - pose proof (cleanup_inactive_clients_inv bo env (accepted w) (server w) now Hw) as H.
    by destruct (cleanup_inactive_clients _ _ _ _) as [st' effects].
Qed.

Lemma run_world_ok (bo : byteorder) (w : World) (evs : list (Env * event)) :
  world_ok w → world_ok (run bo w evs).
Proof.
  revert w. induction evs as [|ev evs IH]; intros w Hw; [done|].
  simpl. apply IH. by apply step_world_ok.
Qed.

Lemma start_world_ok (host : string) (tcp_port udp_port : Z) :
  world_ok (start host tcp_port udp_port).
Proof.
  split; [|by apply Forall_nil].
  split; [apply NoDup_nil_2|]. split; [apply NoDup_nil_2 | by apply Forall_nil].
Qed.

(** Every state the server can reach has a consistent client table. *)
Lemma reachable_registry_ok (bo : byteorder) (st : ScalableCommServer) :
  reachable bo st → registry_ok st.
Proof.
  intros (host & tcp_port & udp_port & evs & <-).
  apply run_world_ok, start_world_ok.
Qed.

(** ** Fan-out on the reliable channel *)

Lemma send_tcp_message_writer (bo : byteorder) (env : Env) (w : handle)
    (msg : string) (e : effect) :
  e ∈ send_tcp_message bo env w msg → effect_writer e = Some w.
Proof.
  unfold send_tcp_message. repeat case_match; intros ->%list_elem_of_singleton; done.
Qed.

Lemma send_tcp_message_length (bo : byteorder) (env : Env) (w : handle) (msg : string) :
  length (send_tcp_message bo env w msg) = 1%nat.
Proof. unfold send_tcp_message. by repeat case_match. Qed.

Lemma send_tcp_message_Written (bo : byteorder) (env : Env) (w : handle)
    (msg : string) (framed : list byte) :
  frame bo (encode msg) = Some framed → write_fails env w = false →
  send_tcp_message bo env w msg = [Written w framed].
Proof. intros Hf Hw. unfold send_tcp_message. by rewrite Hf, Hw. Qed.

(** What a send puts on the stream once the message has a frame. *)
Lemma send_tcp_message_fits (bo : byteorder) (env : Env) (w : handle)
    (msg : string) (prefix : list byte) :
  frame bo (encode msg) = Some (prefix ++ encode msg) →
  send_tcp_message bo env w msg
  = if write_fails env w then [SendError w]
    else [Written w (prefix ++ encode msg)].
Proof. intros Hf. unfold send_tcp_message. by rewrite Hf. Qed.

Lemma NoDup_fmap_inj_on {A B} (f : A → B) (l : list A) (x y : A) :
  NoDup (f <$> l) → x ∈ l → y ∈ l → f x = f y → x = y.
Proof.
  induction l as [|a l IH]; [by intros _ ?%elem_of_nil|].
  rewrite fmap_cons. intros [Ha Hl]%NoDup_cons Hx Hy Hf.
  apply elem_of_cons in Hx as [->|Hx]; apply elem_of_cons in Hy as [->|Hy].
  - done.
  - exfalso. apply Ha. rewrite Hf. apply list_elem_of_fmap. by exists y.
  - exfalso. apply Ha. rewrite <-Hf. apply list_elem_of_fmap. by exists x.
  - by apply IH.
Qed.

Section Fanout.

Context {A : Type} (f : A → handle) (h : A → list effect).
Hypothesis h_writer : ∀ y e, e ∈ h y → effect_writer e = Some (f y).

Lemma addressed_to_own (y : A) : addressed_to (f y) (h y) = h y.
Proof.
  unfold addressed_to. pose proof (h_writer y) as H.
  induction (h y) as [|e l IH]; [done|].
  rewrite filter_cons, decide_True by (apply H, elem_of_cons; by left).
  rewrite IH; [done|]. intros e' He'. apply H, elem_of_cons. by right.
Qed.

Lemma addressed_to_other (w : handle) (y : A) : f y ≠ w → addressed_to w (h y) = [].
Proof.
  intros Hne. unfold addressed_to. pose proof (h_writer y) as H.
  induction (h y) as [|e l IH]; [done|].
  rewrite filter_cons, decide_False.
  - apply IH. intros e' He'. apply H, elem_of_cons. by right.
  - rewrite (H e) by (apply elem_of_cons; by left). congruence.
Qed.

Lemma fanout_not_addressed (w : handle) (l : list A) :
  w ∉ f <$> l → addressed_to w (l ≫= h) = [].
Proof.
  induction l as [|a l IH]; [done|].
  rewrite fmap_cons. intros [Hne Hl]%not_elem_of_cons.
  rewrite bind_cons. unfold addressed_to in *. rewrite filter_app.
  fold (addressed_to w (h a)). rewrite addressed_to_other by done.
  by rewrite IH.
Qed.

Lemma fanout_addressed (l : list A) (x : A) :
  NoDup (f <$> l) → x ∈ l → addressed_to (f x) (l ≫= h) = h x.
Proof.
  induction l as [|a l IH]; [by intros _ ?%elem_of_nil|].
  rewrite fmap_cons. intros [Ha Hl]%NoDup_cons Hx.
  rewrite bind_cons. unfold addressed_to. rewrite filter_app.
  fold (addressed_to (f x) (h a)). fold (addressed_to (f x) (l ≫= h)).
  apply elem_of_cons in Hx as [->|Hx].
  - rewrite addressed_to_own, fanout_not_addressed by done.
    by rewrite (right_id_L [] (++)).
  - rewrite addressed_to_other, IH; [done..|].
    intros Hf. apply Ha. rewrite Hf. apply list_elem_of_fmap. by exists x.
Qed.

End Fanout.

Lemma send_to_others_bind (bo : byteorder) (env : Env) (st : ScalableCommServer)
    (sender_id msg : string) :
  send_to_others bo env st sender_id msg
  = others st sender_id ≫= (λ kv, send_tcp_message bo env (tcp_writer kv.2) msg).
Proof.
  unfold send_to_others, others, dict_del.
  induction (clients st) as [|kv cs IH]; [done|].
  rewrite bind_cons, filter_cons, IH.
  case_decide; [by rewrite bind_cons | done].
Qed.

Lemma bind_length_1 {A B} (g : A → list B) (l : list A) :
  (∀ x, length (g x) = 1%nat) → length (l ≫= g) = length l.
Proof.
  intros Hg. induction l as [|a l IH]; [done|].
  rewrite bind_cons, length_app, Hg, IH. done.
Qed.

(** The fan-out to every session but [sender_id]: one send per other
    session, each addressed to that session's own stream, none to the
    sender's. *)
Lemma send_to_others_spec (bo : byteorder) (env : Env) (st : ScalableCommServer)
    (sender_id msg : string) (sender : Client) :
  registry_ok st → dict_get sender_id (clients st) = Some sender →
  let effects := send_to_others bo env st sender_id msg in
  length effects = (length (clients st) - 1)%nat ∧
  (∀ r c, (r, c) ∈ clients st → r ≠ sender_id →
     addressed_to (tcp_writer c) effects
     = send_tcp_message bo env (tcp_writer c) msg) ∧
  addressed_to (tcp_writer sender) effects = [].
Proof.
  intros (Hk & Hw & _) Hget effects. subst effects.
  rewrite send_to_others_bind.
  pose proof (dict_del_fmap_NoDup tcp_writer (clients st) sender_id Hw) as Hw'.
  split; [|split].
  - rewrite bind_length_1 by (intros; apply send_tcp_message_length).
    by eapply dict_del_length.
  - intros r c Hin Hne.
    apply (fanout_addressed (λ kv : string * Client, tcp_writer kv.2)
             (λ kv, send_tcp_message bo env (tcp_writer kv.2) msg)
             ltac:(intros y e; apply send_tcp_message_writer)
             (others st sender_id) (r, c)).
    + unfold others. by rewrite <-list_fmap_compose in Hw'.
    + by apply dict_del_elem.
  - apply (fanout_not_addressed (λ kv : string * Client, tcp_writer kv.2)
             (λ kv, send_tcp_message bo env (tcp_writer kv.2) msg)
             ltac:(intros y e; apply send_tcp_message_writer)).
    intros Hin. apply list_elem_of_fmap in Hin as ([r c] & Hf & Hin).
    apply dict_del_elem in Hin as [Hne Hin]. simpl in *.
    apply dict_get_elem in Hget.
    rewrite <-list_fmap_compose in Hw.
    assert ((sender_id, sender) = (r, c)) as [= ? ?]; [|done].
    by apply (NoDup_fmap_inj_on (tcp_writer ∘ snd) (clients st)).
Qed.

(** The fan-out of a message that the four length bytes can describe:
    the message has a frame, and each other session gets the write of that
    frame or the failure of its own write. *)
Lemma send_to_others_frame (bo : byteorder) (env : Env) (st : ScalableCommServer)
    (sender_id msg : string) (sender : Client) :
  registry_ok st → dict_get sender_id (clients st) = Some sender →
  N.of_nat (String.length msg) < 2 ^ 32 →
  ∃ prefix,
    pack_I bo (N.of_nat (length (encode msg))) = Some prefix ∧
    length prefix = 4%nat ∧
    frame bo (encode msg) = Some (prefix ++ encode msg) ∧
    length (send_to_others bo env st sender_id msg) = (length (clients st) - 1)%nat ∧
    (∀ r c, (r, c) ∈ clients st → r ≠ sender_id →
       addressed_to (tcp_writer c) (send_to_others bo env st sender_id msg)
       = if write_fails env (tcp_writer c) then [SendError (tcp_writer c)]
         else [Written (tcp_writer c) (prefix ++ encode msg)]) ∧
    addressed_to (tcp_writer sender) (send_to_others bo env st sender_id msg) = [].
Proof.
  intros Hok Hget Hsize.
  destruct (send_to_others_spec bo env st sender_id msg sender Hok Hget)
    as (Hlen & Hothers & Hself).
  destruct (frame_Some bo (encode msg)) as (prefix & Hp & Hf);
    [by rewrite length_encode|].
  exists prefix. split; [done|]. split; [by eapply pack_length|].
  split; [done|]. split; [done|]. split; [|done].
  intros r c Hin Hne.
  rewrite (Hothers r c) by done. by apply send_tcp_message_fits.
Qed.

Lemma startswith_app (p s : string) : startswith p (p +:+ s) = true.
Proof.
  unfold startswith. induction p as [|c p IH].
  - by destruct s.
  - change (String c p +:+ s) with (String c (p +:+ s)). simpl.
    by destruct (ascii_dec c c).
Qed.

Lemma str_drop_app (p s : string) : str_drop (String.length p) (p +:+ s) = s.
Proof. induction p as [|c p IH]; [done|]. exact IH. Qed.

Lemma two_sessions_ok : registry_ok (server two_sessions).
Proof.
  apply (reachable_registry_ok LittleEndian).
  by eexists _, _, _, _.
Qed.

(** ** Chat and status broadcasts *)



Lemma dict_set_elem_ne {V} (d : dict V) (k r : string) (v c : V) :
  r ≠ k → (r, c) ∈ dict_set k v d ↔ (r, c) ∈ d.
Proof.
  intros Hne. induction d as [|[k0 v0] d IH]; simpl.
  - rewrite list_elem_of_singleton. split; [by intros [= ? ?]|by intros ?%elem_of_nil].
  - case_decide as Hk.
    + subst. rewrite !elem_of_cons. split; (intros [[= ? ?]|?]; [done|by right]).
    + rewrite !elem_of_cons, IH. done.
Qed.

Lemma apply_control_fields (control : string) (c : Client) :
  client_id (apply_control control c) = client_id c ∧
  username (apply_control control c) = username c ∧
  tcp_writer (apply_control control c) = tcp_writer c ∧
  tcp_reader (apply_control control c) = tcp_reader c ∧
  udp_addr (apply_control control c) = udp_addr c ∧
  last_seen (apply_control control c) = last_seen c ∧
  flags (apply_control control c) = flags_after control (flags c).
Proof.
  unfold apply_control, flags_after, flags. by repeat case_decide.
Qed.



(** The scenario of the status test: alice switches her video on; bob gets
    one [STATUS] frame of 76 bytes, alice gets none. *)
Example status_scenario :
  (process_tcp_message LittleEndian quiet (server two_sessions) alice_id
                       (encode "CONTROL:VIDEO_ON")).2
  = [Written 1
       ([x4c; x00; x00; x00]
        ++ encode ("STATUS:{" +:+ Json.dq +:+ "username" +:+ Json.dq +:+ ": "
                   +:+ Json.dq +:+ "alice" +:+ Json.dq +:+ ", " +:+ Json.dq
                   +:+ "video" +:+ Json.dq +:+ ": true, " +:+ Json.dq +:+ "audio"
                   +:+ Json.dq +:+ ": false, " +:+ Json.dq +:+ "screen"
                   +:+ Json.dq +:+ ": false}"))].
Proof. vm_compute. reflexivity. Qed.

(** ** The datagram router *)

Lemma datagram_of_parse (bo : byteorder) (packet_type : byte)
    (tag payload data : list byte) :
  datagram_of bo packet_type tag payload data →
  (3 ≤ length data)%nat ∧
  unpack_H bo (slice 1 3 data) = Some (N.of_nat (length tag)) ∧
  (3 + length tag ≤ length data)%nat ∧
  slice 3 (3 + length tag) data = tag ∧
  drop (3 + length tag) data = payload.
Proof.
  intros (tag_len & Hp & ->).
  pose proof (pack_length _ _ _ _ Hp) as Hl.
  destruct tag_len as [|l0 [|l1 [|]]]; try done.
  repeat split.
  - simpl. lia.
  - unfold slice. simpl. by eapply (unpack_pack bo 2).
  - simpl. rewrite length_app. lia.
  - unfold slice.
    change (drop 3 ([packet_type] ++ [l0; l1] ++ tag ++ payload)) with (tag ++ payload).
    replace (3 + length tag - 3)%nat with (length tag) by lia.
    by rewrite take_app_length.
  - change ([packet_type] ++ [l0; l1] ++ tag ++ payload)
      with ([packet_type; l0; l1] ++ (tag ++ payload)).
    rewrite drop_app_add'; [|done]. by rewrite drop_app_length.
Qed.

Lemma datagram_of_malformed (bo : byteorder) (data : list byte) :
  ¬ malformed bo data ↔
  ∃ packet_type tag payload, datagram_of bo packet_type tag payload data.
Proof.
  split.
  - intros Hwf.
    destruct (decide (length data < 3)%nat) as [Hlt|Hge]; [exfalso; apply Hwf; by left|].
    destruct data as [|ty [|l0 [|l1 rest]]]; simpl in Hge; try lia.
    set (n := le_to_N (native bo [l0; l1])).
    assert (unpack_H bo (slice 1 3 (ty :: l0 :: l1 :: rest)) = Some n) as Hu by done.
    destruct (decide (length rest < N.to_nat n)%nat) as [Hlt|Hn].
    { exfalso. apply Hwf. right. exists n. split; [done|]. simpl. lia. }
    exists ty, (take (N.to_nat n) rest), (drop (N.to_nat n) rest).
    exists [l0; l1]. split.
    + rewrite length_take, Nat.min_l by lia. rewrite N2Nat.id.
      assert (n < 256 ^ N.of_nat 2) as Hb.
      { subst n. pose proof (Byte.to_N_bounded l0). pose proof (Byte.to_N_bounded l1).
        destruct bo; simpl; lia. }
      unfold pack_H. rewrite pack_Some by done. f_equal.
      assert (N_to_le 2 n = native bo [l0; l1]) as ->.
      { subst n. set (bs := native bo [l0; l1]).
        assert (length bs = 2%nat) as Hl by (subst bs; by rewrite length_native).
        destruct bs as [|a [|b [|]]]; try done. simpl.
        pose proof (Byte.to_N_bounded a). pose proof (Byte.to_N_bounded b).
        unfold byte_of_N.
        replace ((Byte.to_N a + 256 * (Byte.to_N b + 256 * 0)) mod 256)
          with (Byte.to_N a).
        2:{ apply (N.mod_unique _ _ (Byte.to_N b)); lia. }
        replace ((Byte.to_N a + 256 * (Byte.to_N b + 256 * 0)) / 256 mod 256)
          with (Byte.to_N b).
        2:{ replace ((Byte.to_N a + 256 * (Byte.to_N b + 256 * 0)) / 256)
              with (Byte.to_N b).
            - symmetry. apply N.mod_small. lia.
            - apply (N.div_unique _ _ (Byte.to_N b) (Byte.to_N a)); lia. }
        by rewrite !Byte.of_to_N. }
      apply native_involutive.
    + simpl. by rewrite take_drop.
  - intros (ty & tag & payload & Hd) [Hshort|(n & Hn & Hlong)].
    + apply datagram_of_parse in Hd. lia.
    + apply datagram_of_parse in Hd as (_ & Hu & Hlen & _).
      rewrite Hu in Hn. injection Hn as <-. lia.
Qed.

Lemma dict_del_set {V} (d : dict V) (k : string) (v : V) :
  dict_del k (dict_set k v d) = dict_del k d.
Proof.
  unfold dict_del. induction d as [|[k0 v0] d IH]; simpl.
  - rewrite filter_cons. simpl. by rewrite decide_False by (intros H; by apply H).
  - case_decide as Hk.
    + subst. rewrite !filter_cons. simpl.
      by rewrite !decide_False by (intros H; by apply H).
    + rewrite !filter_cons. simpl. rewrite decide_True by done.
      rewrite decide_True by done. by rewrite IH.
Qed.

Lemma fanout_udp (env : Env) (packet : list byte) (st : ScalableCommServer)
    (sender_id : string) :
  (kv ← clients st;
   if decide (kv.1 ≠ sender_id)
   then (if sendto_fails env (udp_addr kv.2)
         then [SendToFailed (udp_addr kv.2)]
         else [SentTo packet (udp_addr kv.2)])
   else [])
  = forward_to env packet <$> (others st sender_id).*2.
Proof.
  unfold others, dict_del. induction (clients st) as [|kv cs IH]; [done|].
  rewrite bind_cons, filter_cons, IH.
  case_decide; [|done]. rewrite !fmap_cons. unfold forward_to at 2.
  by destruct (sendto_fails env (udp_addr kv.2)).
Qed.

(** What the router does with a datagram whose tag is text: it records the
    source address for the session of that tag, if there is one, and sends
    the re-stamped datagram once to the media address of every other
    session. *)
Lemma handle_udp_packet_forward (bo : byteorder) (env : Env)
    (st : ScalableCommServer) (packet_type : byte) (tag_bytes payload data : list byte)
    (tag : string) (addr : address) :
  registry_ok st →
  datagram_of bo packet_type tag_bytes payload data →
  decode tag_bytes = Some tag →
  ∃ name_len,
    pack_H bo (N.of_nat (String.length (stamped_name st tag))) = Some name_len ∧
    let packet := [packet_type] ++ name_len ++ encode (stamped_name st tag) ++ payload in
    let st1 :=
      match dict_get tag (clients st) with
      | Some sender =>
        with_clients (dict_set tag (set_udp_addr addr sender) (clients st)) st
      | None => st
      end in
    handle_udp_streams_iteration bo env st data addr
    = (with_total_bytes (total_bytes st + Z.of_nat (length data)) st1,
       forward_to env packet <$> (others st tag).*2).
Proof.
  intros (Hk & Hw & Hn) Hd Hdec.
  destruct (datagram_of_parse _ _ _ _ _ Hd) as (Hlen & Hu & Hlen' & Htag & Hpay).
  assert (String.length (stamped_name st tag) ≤ 4096)%nat as Hname.
  { unfold stamped_name. destruct (dict_get tag (clients st)) as [s|] eqn:Hget.
    - apply dict_get_elem in Hget. by eapply Forall_forall in Hn; [|exact Hget].
    - simpl. lia. }
  assert (pack_H bo (N.of_nat (String.length (stamped_name st tag)))
          = Some (native bo (N_to_le 2 (N.of_nat (String.length (stamped_name st tag))))))
    as Hpack.
  { apply (pack_Some bo 2). simpl. lia. }
  eexists. split; [exact Hpack|]. cbv zeta.
  unfold handle_udp_streams_iteration.
  rewrite decide_False by lia.
  destruct Hd as (tag_len & Hp & Hdata).
  destruct data as [|ty tl]; [done|].
  assert (ty = packet_type) as -> by (by injection Hdata).
  rewrite Hu, Nat2N.id. rewrite decide_False by lia.
  rewrite Htag, Hdec, Hpay.
  set (st1 := match dict_get tag (clients st) with Some _ => _ | None => st end).
  assert (stamped_name st1 tag = stamped_name st tag) as Hsame.
  { unfold stamped_name, st1.
    destruct (dict_get tag (clients st)) as [s|] eqn:Hget; [|by rewrite Hget].
    simpl. by rewrite dict_get_set_eq. }
  assert (others st1 tag = others st tag) as Hothers.
  { unfold others, st1.
    destruct (dict_get tag (clients st)) as [s|] eqn:Hget; [|done].
    simpl. apply dict_del_set. }
  unfold broadcast_udp. fold (stamped_name st1 tag). rewrite Hsame.
  rewrite length_encode, Hpack. simpl.
  f_equal.
  - unfold st1. by destruct (dict_get tag (clients st)).
  - rewrite <-Hothers. apply fanout_udp.
Qed.

(** ** Well-formed text *)

Ltac bool_to_prop :=
  unfold within, cont in *;
  repeat match goal with
  | H : _ && _ = true |- _ => apply andb_true_iff in H as [? ?]
  | H : _ && _ = false |- _ => apply andb_false_iff in H
  | H : (_ <? _) = true |- _ => apply N.ltb_lt in H
  | H : (_ <? _) = false |- _ => apply N.ltb_ge in H
  | H : (_ <=? _) = true |- _ => apply N.leb_le in H
  | H : (_ <=? _) = false |- _ => apply N.leb_gt in H
  | H : (_ =? _) = true |- _ => apply N.eqb_eq in H
  | H : (_ =? _) = false |- _ => apply N.eqb_neq in H
  end.

Lemma utf8_codepoints_scalar_aux (n : nat) (l cs : list N) :
  (length l ≤ n)%nat → utf8_codepoints l = Some cs → Forall scalar cs.
Proof.
  revert l cs. induction n as [|n IH]; intros l cs Hn.
  - destruct l; [|simpl in Hn; lia]. by intros [= <-].
  - destruct l as [|b0 r0]; [by intros [= <-]|].
    cbn [utf8_codepoints]. simpl in Hn.
    destruct (b0 <? 128) eqn:E0.
    { intros (cs' & H & ->)%fmap_Some. apply IH in H; [|lia].
      apply Forall_cons. split; [|done]. bool_to_prop. left. lia. }
    destruct r0 as [|b1 r1]; [done|]. simpl in Hn.
    destruct (within 194 223 b0) eqn:E1.
    { destruct (cont b1) eqn:E2; [|done].
      intros (cs' & H & ->)%fmap_Some. apply IH in H; [|lia].
      apply Forall_cons. split; [|done]. bool_to_prop. left. lia. }
    destruct r1 as [|b2 r2]; [done|]. simpl in Hn.
    destruct (within 224 239 b0) eqn:E2.
    { case_match eqn:Hc; [|done].
      intros (cs' & H & ->)%fmap_Some. apply IH in H; [|lia].
      apply Forall_cons. split; [|done].
      apply andb_true_iff in Hc as [Hc1 Hc2].
      destruct (b0 =? 224) eqn:E3; [|destruct (b0 =? 237) eqn:E4];
        bool_to_prop; unfold scalar; lia. }
    destruct r2 as [|b3 r3]; [done|]. simpl in Hn.
    destruct (within 240 244 b0) eqn:E3; [|done].
    case_match eqn:Hc; [|done].
    intros (cs' & H & ->)%fmap_Some. apply IH in H; [|lia].
    apply Forall_cons. split; [|done].
    apply andb_true_iff in Hc as [Hc12 Hc3].
    apply andb_true_iff in Hc12 as [Hc1 Hc2].
    destruct (b0 =? 240) eqn:E4; [|destruct (b0 =? 244) eqn:E5];
      bool_to_prop; unfold scalar; lia.
Qed.

Lemma codepoints_scalar (s : string) : Forall scalar (codepoints s).
Proof.
  unfold codepoints.
  destruct (utf8_codepoints _) as [cs|] eqn:E; simpl; [|done].
  by apply (utf8_codepoints_scalar_aux _ _ _ (le_n _)) in E.
Qed.

Lemma split64 (c : N) :
  ∃ q r, c / 64 = q ∧ c mod 64 = r ∧ c = 64 * q + r ∧ r < 64.
Proof.
  exists (c / 64), (c mod 64). repeat split.
  - apply N.div_mod. lia.
  - apply N.mod_upper_bound. lia.
Qed.

Ltac decide_tests :=
  unfold within, cont;
  repeat match goal with
  | |- context [?a <? ?b] => destruct (N.ltb_spec a b); try lia
  | |- context [?a <=? ?b] => destruct (N.leb_spec a b); try lia
  | |- context [?a =? ?b] => destruct (N.eqb_spec a b); try lia
  end.

Lemma utf8_codepoints_1 (b0 : N) (r : list N) :
  b0 < 0x80 →
  utf8_codepoints (b0 :: r) = cons b0 <$> utf8_codepoints r.
Proof. intros. cbn [utf8_codepoints]. by decide_tests. Qed.

Lemma utf8_codepoints_2 (b0 b1 : N) (r : list N) :
  0xC2 ≤ b0 ≤ 0xDF → 0x80 ≤ b1 ≤ 0xBF →
  utf8_codepoints (b0 :: b1 :: r)
  = cons ((b0 - 0xC0) * 64 + (b1 - 0x80)) <$> utf8_codepoints r.
Proof. intros. cbn [utf8_codepoints]. by decide_tests. Qed.

Lemma utf8_codepoints_3 (b0 b1 b2 : N) (r : list N) :
  0xE0 ≤ b0 ≤ 0xEF → 0x80 ≤ b1 ≤ 0xBF → 0x80 ≤ b2 ≤ 0xBF →
  (b0 = 0xE0 → 0xA0 ≤ b1) → (b0 = 0xED → b1 ≤ 0x9F) →
  utf8_codepoints (b0 :: b1 :: b2 :: r)
  = cons ((b0 - 0xE0) * 4096 + (b1 - 0x80) * 64 + (b2 - 0x80))
      <$> utf8_codepoints r.
Proof. intros. cbn [utf8_codepoints]. by decide_tests. Qed.

Lemma utf8_codepoints_4 (b0 b1 b2 b3 : N) (r : list N) :
  0xF0 ≤ b0 ≤ 0xF4 → 0x80 ≤ b1 ≤ 0xBF → 0x80 ≤ b2 ≤ 0xBF → 0x80 ≤ b3 ≤ 0xBF →
  (b0 = 0xF0 → 0x90 ≤ b1) → (b0 = 0xF4 → b1 ≤ 0x8F) →
  utf8_codepoints (b0 :: b1 :: b2 :: b3 :: r)
  = cons ((b0 - 0xF0) * 262144 + (b1 - 0x80) * 4096 + (b2 - 0x80) * 64
          + (b3 - 0x80))
      <$> utf8_codepoints r.
Proof. intros. cbn [utf8_codepoints]. by decide_tests. Qed.

Lemma utf8_codepoints_encode_one (c : N) (rest : list byte) :
  scalar c →
  utf8_codepoints (Byte.to_N <$> (utf8_of_codepoint c ++ rest))
  = cons c <$> utf8_codepoints (Byte.to_N <$> rest).
Proof.
  intros Hc. unfold utf8_of_codepoint.
  destruct (split64 c) as (q1 & r0 & Hq1 & Hr0 & Hc1 & Hr0').
  destruct (split64 q1) as (q2 & r1 & Hq2 & Hr1 & Hc2 & Hr1').
  destruct (split64 q2) as (q3 & r2 & Hq3 & Hr2 & Hc3 & Hr2').
  assert (c / 4096 = q2) as H4096.
  { change 4096 with (64 * 64). by rewrite <-N.Div0.div_div, Hq1. }
  assert (c / 262144 = q3) as H262144.
  { change 262144 with (4096 * 64). by rewrite <-N.Div0.div_div, H4096. }
  rewrite H4096, H262144, Hq1, Hr0, Hr1, Hr2.
  unfold scalar in Hc.
  destruct (N.ltb_spec c 128); [|destruct (N.ltb_spec c 2048);
    [|destruct (N.ltb_spec c 65536)]];
    rewrite fmap_app; cbn [fmap list_fmap app]; rewrite !to_N_byte_of_N;
    rewrite !N.mod_small by lia.
  - by rewrite utf8_codepoints_1.
  - rewrite utf8_codepoints_2 by lia. f_equal. f_equal. lia.
  - rewrite utf8_codepoints_3 by lia. f_equal. f_equal. lia.
  - rewrite utf8_codepoints_4 by lia. f_equal. f_equal. lia.
Qed.

Lemma utf8_codepoints_encode (cs : list N) :
  Forall scalar cs →
  utf8_codepoints (Byte.to_N <$> mjoin (utf8_of_codepoint <$> cs)) = Some cs.
Proof.
  induction cs as [|c cs IH]; [done|].
  intros [Hc Hcs]%Forall_cons.
  change (mjoin (utf8_of_codepoint <$> c :: cs))
    with (utf8_of_codepoint c ++ mjoin (utf8_of_codepoint <$> cs)).
  rewrite utf8_codepoints_encode_one by done. by rewrite IH.
Qed.

Lemma valid_text_str_of_codepoints (cs : list N) :
  Forall scalar cs → valid_text (str_of_codepoints cs).
Proof.
  intros Hcs. unfold valid_text, str_of_codepoints, decode, encode.
  rewrite list_byte_of_string_of_list_byte.
  by rewrite utf8_codepoints_encode.
Qed.

Lemma lstrip_cps_Forall (P : N → Prop) (cs : list N) :
  Forall P cs → Forall P (lstrip_cps cs).
Proof.
  induction cs as [|c cs IH]; [done|].
  intros H. simpl. destruct (is_whitespace c); [|done].
  apply IH. by apply Forall_cons in H as [_ ?].
Qed.

(** The result of [strip] is text, whatever it is applied to. *)
Lemma valid_text_strip (s : string) : valid_text (strip s).
Proof.
  apply valid_text_str_of_codepoints.
  apply Forall_rev, lstrip_cps_Forall, Forall_rev, lstrip_cps_Forall.
  apply codepoints_scalar.
Qed.

Lemma utf8_codepoints_app_aux (n : nat) (a b ca : list N) :
  (length a ≤ n)%nat → utf8_codepoints a = Some ca →
  utf8_codepoints (a ++ b) = (ca ++.) <$> utf8_codepoints b.
Proof.
  revert a ca. induction n as [|n IH]; intros a ca Hn.
  - destruct a; [|simpl in Hn; lia]. intros [= <-]. simpl.
    by destruct (utf8_codepoints b).
  - destruct a as [|b0 r0].
    { intros [= <-]. simpl. by destruct (utf8_codepoints b). }
    cbn [utf8_codepoints app]. simpl in Hn.
    destruct (b0 <? 128) eqn:E0.
    { intros (cs' & H & ->)%fmap_Some. rewrite (IH r0 _ ltac:(lia) H).
      by destruct (utf8_codepoints b). }
    destruct r0 as [|b1 r1]; [done|]. simpl in Hn. cbn [app].
    destruct (within 194 223 b0) eqn:E1.
    { destruct (cont b1) eqn:E2; [|done].
      intros (cs' & H & ->)%fmap_Some. rewrite (IH r1 _ ltac:(lia) H).
      by destruct (utf8_codepoints b). }
    destruct r1 as [|b2 r2]; [done|]. simpl in Hn. cbn [app].
    destruct (within 224 239 b0) eqn:E2.
    { case_match eqn:Hc; [|done].
      intros (cs' & H & ->)%fmap_Some. rewrite (IH r2 _ ltac:(lia) H).
      by destruct (utf8_codepoints b). }
    destruct r2 as [|b3 r3]; [done|]. simpl in Hn. cbn [app].
    destruct (within 240 244 b0) eqn:E3; [|done].
    case_match eqn:Hc; [|done].
    intros (cs' & H & ->)%fmap_Some. rewrite (IH r3 _ ltac:(lia) H).
    by destruct (utf8_codepoints b).
Qed.

Lemma encode_app (a b : string) : encode (a +:+ b) = encode a ++ encode b.
Proof.
  unfold encode. induction a as [|c a IH]; [done|].
  change (String c a +:+ b) with (String c (a +:+ b)).
  change (list_byte_of_string (String c (a +:+ b)))
    with (byte_of_ascii c :: list_byte_of_string (a +:+ b)).
  by rewrite IH.
Qed.

Lemma valid_text_alt (s : string) :
  valid_text s ↔ is_Some (utf8_codepoints (Byte.to_N <$> encode s)).
Proof.
  unfold valid_text, decode, encode.
  rewrite string_of_list_byte_of_string.
  destruct (utf8_codepoints _); split; done.
Qed.

Lemma valid_text_app (a b : string) :
  valid_text a → valid_text b → valid_text (a +:+ b).
Proof.
  rewrite !valid_text_alt, encode_app, fmap_app.
  intros [ca Ha] [cb Hb].
  rewrite (utf8_codepoints_app_aux _ _ _ _ (le_n _) Ha), Hb. by eexists.
Qed.

Lemma valid_text_decode (data : list byte) (s : string) :
  decode data = Some s → valid_text s.
Proof.
  intros H. apply valid_text_alt.
  destruct (decode_Some _ _ H) as [_ ->].
  unfold decode in H. by destruct (utf8_codepoints _).
Qed.

Lemma ascii_valid_text (s : string) :
  Forall (λ b, Byte.to_N b < 128) (encode s) → valid_text s.
Proof.
  intros H. apply valid_text_alt.
  induction (encode s) as [|b l IH]; [by eexists|].
  apply Forall_cons in H as [Hb Hl]. rewrite fmap_cons.
  rewrite utf8_codepoints_1 by done.
  destruct (IH Hl) as [cs ->]. by eexists.
Qed.

Lemma string_of_uint_ascii (d : Decimal.uint) :
  Forall (λ b, Byte.to_N b < 128) (encode (NilEmpty.string_of_uint d)).
Proof.
  induction d; simpl;
    first [ by apply Forall_nil
          | apply Forall_cons; split; [by vm_compute | done] ].
Qed.

Lemma valid_text_str_of_int (n : Z) : valid_text (str_of_int n).
Proof.
  apply ascii_valid_text. unfold str_of_int, NilZero.string_of_int.
  assert (∀ d, Forall (λ b, Byte.to_N b < 128) (encode (NilZero.string_of_uint d))) as H.
  { intros d. unfold NilZero.string_of_uint.
    destruct d; try apply string_of_uint_ascii.
    apply Forall_cons. split; [by vm_compute | by apply Forall_nil]. }
  destruct (Z.to_int n); [apply H|].
  apply Forall_cons. split; [by vm_compute | apply H].
Qed.

Lemma valid_text_make_client_id (username : string) (now : Q) :
  valid_text username → valid_text (make_client_id username now).
Proof.
  intros H. unfold make_client_id.
  apply valid_text_app; [done|]. apply valid_text_app; [|apply valid_text_str_of_int].
  apply ascii_valid_text. apply Forall_cons. split; [by vm_compute | by apply Forall_nil].
Qed.

(** ** Session ids stay text *)

Section KeyInvariant.

Variable P : string → Prop.
Variable bo : byteorder.
Variable env : Env.

Local Abbreviation keys_ok st := (Forall (λ kv : string * Client, P kv.1) (clients st)).

Lemma keys_ok_update (cs : dict Client) (k : string) (c c' : Client) :
  dict_get k cs = Some c →
  Forall (λ kv : string * Client, P kv.1) cs →
  Forall (λ kv : string * Client, P kv.1) (dict_set k c' cs).
Proof.
  intros Hget H. apply dict_set_Forall; [done|]. simpl.
  apply dict_get_elem in Hget. by eapply Forall_forall in H; [|exact Hget].
Qed.

Lemma process_tcp_message_keys st client_id data :
  keys_ok st → keys_ok (process_tcp_message bo env st client_id data).1.
Proof.
  intros H. unfold process_tcp_message.
  destruct (decode data) as [message|]; [|done].
  repeat case_match; simpl; try done.
  unfold handle_control.
  destruct (dict_get client_id (clients st)) as [c|] eqn:Hget; [|done].
  simpl. by eapply keys_ok_update.
Qed.

Lemma session_end_keys st client_id writer :
  keys_ok st → keys_ok (handle_tcp_client_finally bo env st client_id writer).1.
Proof.
  intros H. unfold handle_tcp_client_finally.
  destruct client_id as [cid|]; [|done].
  case_decide; [|done].
  destruct (dict_get cid (clients st)) as [c|]; [|done].
  simpl. case_decide; simpl; by apply dict_del_Forall.
Qed.

Lemma serve_once_keys st client_id writer stream now :
  keys_ok st → keys_ok (handle_tcp_client_iteration bo env st client_id writer stream now).1.1.
Proof.
  intros H. unfold handle_tcp_client_iteration.
  destruct (read_frame bo stream) as [[data rest]|]; [|by apply session_end_keys].
  destruct (dict_get client_id (clients st)) as [c|] eqn:Hget;
    [|by apply session_end_keys].
  match goal with |- context [process_tcp_message bo env ?s _ _] =>
    pose proof (process_tcp_message_keys s client_id data) as Hp;
    destruct (process_tcp_message bo env s client_id data) as [st2 effects]
  end.
  simpl in *. apply Hp. by eapply keys_ok_update.
Qed.

Lemma handle_udp_packet_keys st data addr :
  keys_ok st → keys_ok (handle_udp_streams_iteration bo env st data addr).1.
Proof.
  intros H. unfold handle_udp_streams_iteration.
  case_decide; [done|].
  destruct data as [|packet_type tl]; [done|].
  destruct (unpack_H bo _) as [len|]; [|done].
  case_decide; [done|].
  destruct (decode _) as [client_id|]; [|done].
  assert (keys_ok (match dict_get client_id (clients st) with
                   | Some client =>
                     with_clients (dict_set client_id (set_udp_addr addr client)
                                            (clients st)) st
                   | None => st
                   end)) as Hst1.
  { destruct (dict_get client_id (clients st)) as [c|] eqn:Hget; [|done].
    simpl. by eapply keys_ok_update. }
  by destruct (broadcast_udp _ _ _ _ _ _).
Qed.

Lemma cleanup_inactive_clients_keys st now :
  keys_ok st → keys_ok (cleanup_inactive_clients bo env st now).1.
Proof.
  intros Hinv. unfold cleanup_inactive_clients.
  set (inactive := (filter _ (clients st)).*1). clearbody inactive.
  assert (keys_ok (foldl (λ s client_id,
             if dict_mem client_id (clients s)
             then with_clients (dict_del client_id (clients s)) s
             else s) st inactive)) as H.
  { revert st Hinv. induction inactive as [|cid l IH]; intros st Hinv; [done|].
    simpl. apply IH. destruct (dict_mem cid (clients st)); [|done].
    simpl. by apply dict_del_Forall. }
  by destruct inactive.
Qed.

Hypothesis P_new : ∀ text now, P (make_client_id (strip text) now).

Lemma handshake_keys st writer peer incoming t_id t_seen :
  keys_ok st →
  keys_ok (handle_tcp_client_handshake bo env st writer peer incoming t_id t_seen).1.1.
Proof.
  intros H. unfold handle_tcp_client_handshake.
  destruct (decode (take 1024 incoming)) as [text|]; [|done].
  case_decide; [done|]. simpl.
  apply dict_set_Forall; [done|]. simpl. apply P_new.
Qed.

Lemma step_keys (w : World) (e : event) :
  keys_ok (server w) → keys_ok (server (step bo w (env, e)).1).
Proof.
  intros Hw. unfold step. simpl.
  destruct e as [peer incoming t_id t_seen| |cid writer stream now|data addr|now].
  - pose proof (handshake_keys (server w) (accepted w) peer incoming t_id t_seen Hw) as H.
    by destruct (handle_tcp_client_handshake _ _ _ _ _ _ _ _) as [[st' effects] o].
  - done.
  - pose proof (serve_once_keys (server w) cid writer stream now Hw) as H.
    by destruct (handle_tcp_client_iteration _ _ _ _ _ _ _) as [[st' effects] o].
  - pose proof (handle_udp_packet_keys (server w) data addr Hw) as H.
    by destruct (handle_udp_streams_iteration _ _ _ _ _) as [st' effects].
  - pose proof (cleanup_inactive_clients_keys (server w) now Hw) as H.
    by destruct (cleanup_inactive_clients _ _ _ _) as [st' effects].
Qed.

End KeyInvariant.

Lemma reachable_ids_are_text (bo : byteorder) (st : ScalableCommServer) :
  reachable bo st → ids_are_text st.
Proof.
  intros (host & tcp_port & udp_port & evs & <-).
  assert (ids_are_text (server (start host tcp_port udp_port))) as H0
    by apply Forall_nil_2.
  revert H0. generalize (start host tcp_port udp_port).
  induction evs as [|[env e] evs IH]; intros w Hw; [done|].
  simpl. apply IH. apply step_keys; [|done].
  intros text now. apply valid_text_make_client_id, valid_text_strip.
Qed.

Lemma two_sessions_reachable : reachable LittleEndian (server two_sessions).
Proof. by eexists _, _, _, _. Qed.

(** C5, as stated, fails: a well-formed datagram (type 1, tag length 1,
    tag byte 0xFF, one payload byte) whose tag is the id of no live session
    is not forwarded to the two live sessions; the router drops it and
    leaves the server unchanged. *)
Lemma undecodable_tag_not_forwarded :
  datagram_of LittleEndian x01 [xff] [x07] stray_datagram ∧
  ¬ malformed LittleEndian stray_datagram ∧
  (∀ kv, kv ∈ clients (server two_sessions) → encode kv.1 ≠ [xff]) ∧
  length (clients (server two_sessions)) = 2%nat ∧
  handle_udp_streams_iteration LittleEndian quiet (server two_sessions) stray_datagram
                    ("10.0.0.9", 40000%Z)
  = (server two_sessions, []).
Proof.
  assert (datagram_of LittleEndian x01 [xff] [x07] stray_datagram) as Hd.
  { by exists [x01; x00]. }
  split; [exact Hd|]. split.
  { apply datagram_of_malformed. by eexists _, _, _. }
  split; [|split; [vm_compute; reflexivity | vm_compute; reflexivity]].
  intros kv Hkv.
  repeat (apply elem_of_cons in Hkv as [->|Hkv]; [by vm_compute|]).
  by apply elem_of_nil in Hkv.
Qed.

(** C5, amended. In every state the server can reach, a well-formed
    datagram whose tag is the id of a live session S is sent once to the
    media address of every other live session, in the form
    [type][nameLen][S's display name][payload] with the payload bytes
    unchanged; a well-formed datagram whose tag is text but the id of no
    live session is sent in the same form, stamped [Unknown], to every
    live session; a well-formed datagram whose tag is not UTF-8 text is
    dropped. *)
Theorem datagram_forwarded_with_display_name (bo : byteorder) (env : Env)
    (st : ScalableCommServer) (packet_type : byte)
    (tag_bytes payload data : list byte) (addr : address) :
  reachable bo st →
  datagram_of bo packet_type tag_bytes payload data →
  let effects := (handle_udp_streams_iteration bo env st data addr).2 in
  (∀ id S, tag_bytes = encode id → dict_get id (clients st) = Some S →
     ∃ name_len,
       pack_H bo (N.of_nat (length (encode (username S)))) = Some name_len ∧
       effects = forward_to env ([packet_type] ++ name_len
                                 ++ encode (username S) ++ payload)
                   <$> (others st id).*2) ∧
  (∀ tag, decode tag_bytes = Some tag → dict_get tag (clients st) = None →
     ∃ name_len,
       pack_H bo (N.of_nat (length (encode "Unknown"))) = Some name_len ∧
       effects = forward_to env ([packet_type] ++ name_len
                                 ++ encode "Unknown" ++ payload)
                   <$> (clients st).*2) ∧
  (decode tag_bytes = None → handle_udp_streams_iteration bo env st data addr = (st, [])).
Proof.
  intros Hreach Hd effects.
  pose proof (reachable_registry_ok _ _ Hreach) as Hok.
  pose proof (reachable_ids_are_text _ _ Hreach) as Hids.
  split; [|split].
  - intros id S -> Hget.
    assert (decode (encode id) = Some id) as Hdec.
    { apply dict_get_elem in Hget.
      by eapply Forall_forall in Hids; [|exact Hget]. }
    destruct (handle_udp_packet_forward bo env st packet_type (encode id) payload
                data id addr Hok Hd Hdec) as (name_len & Hp & Heq).
    unfold stamped_name in Hp, Heq. rewrite Hget in Hp, Heq.
    exists name_len. rewrite length_encode. split; [done|].
    subst effects. by rewrite Heq.
  - intros tag Hdec Hget.
    destruct (handle_udp_packet_forward bo env st packet_type tag_bytes payload
                data tag addr Hok Hd Hdec) as (name_len & Hp & Heq).
    unfold stamped_name in Hp, Heq. rewrite Hget in Hp, Heq.
    exists name_len. split; [done|].
    subst effects. rewrite Heq. cbn [snd]. unfold others.
    rewrite dict_del_absent; [done|]. by apply dict_get_None.
  - intros Hdec.
    destruct (datagram_of_parse _ _ _ _ _ Hd) as (Hlen & Hu & Hlen' & Htag & Hpay).
    unfold handle_udp_streams_iteration. rewrite decide_False by lia.
    destruct data as [|ty tl]; [simpl in Hlen; lia|].
    rewrite Hu, Nat2N.id. rewrite decide_False by lia.
    by rewrite Htag, Hdec.
Qed.

Lemma datagram_forwarded_with_display_name_witness :
  reachable LittleEndian (server two_sessions) ∧
  datagram_of LittleEndian x01 (encode alice_id) [x07; x08] alice_datagram ∧
  let effects := (handle_udp_streams_iteration LittleEndian quiet (server two_sessions)
                    alice_datagram ("10.0.0.1", 40000%Z)).2 in
  (∀ id S, encode alice_id = encode id →
     dict_get id (clients (server two_sessions)) = Some S →
     ∃ name_len,
       pack_H LittleEndian (N.of_nat (length (encode (username S)))) = Some name_len ∧
       effects = forward_to quiet ([x01] ++ name_len
                                   ++ encode (username S) ++ [x07; x08])
                   <$> (others (server two_sessions) id).*2) ∧
  (∀ tag, decode (encode alice_id) = Some tag →
     dict_get tag (clients (server two_sessions)) = None →
     ∃ name_len,
       pack_H LittleEndian (N.of_nat (length (encode "Unknown"))) = Some name_len ∧
       effects = forward_to quiet ([x01] ++ name_len
                                   ++ encode "Unknown" ++ [x07; x08])
                   <$> (clients (server two_sessions)).*2) ∧
  (decode (encode alice_id) = None →
   handle_udp_streams_iteration LittleEndian quiet (server two_sessions) alice_datagram
                     ("10.0.0.1", 40000%Z)
   = (server two_sessions, [])).
Proof.
  assert (datagram_of LittleEndian x01 (encode alice_id) [x07; x08] alice_datagram)
    as Hd by (by exists [x0d; x00]).
  split; [exact two_sessions_reachable|]. split; [exact Hd|].
  exact (datagram_forwarded_with_display_name LittleEndian quiet
           (server two_sessions) x01 (encode alice_id) [x07; x08] alice_datagram
           ("10.0.0.1", 40000%Z) two_sessions_reachable Hd).
Defined.

(** The scenario of the media test: alice's video datagram reaches bob,
    and only bob, tagged [alice] and with her two payload bytes. *)
Example media_scenario :
  (handle_udp_streams_iteration LittleEndian quiet (server two_sessions) alice_datagram
                     ("10.0.0.1", 40000%Z)).2
  = [SentTo ([x01; x05; x00] ++ encode "alice" ++ [x07; x08])
            ("10.0.0.2", 9001%Z)].
Proof. vm_compute. reflexivity. Qed.

(** ** The media address *)

Lemma dict_get_del_Some {V} (d : dict V) (j k : string) (v : V) :
  dict_get k (dict_del j d) = Some v → dict_get k d = Some v.
Proof.
  destruct (decide (j = k)) as [->|Hne].
  - by rewrite dict_get_del_eq.
  - by rewrite dict_get_del_ne.
Qed.

Section MediaAddress.

Variable bo : byteorder.
Variable env : Env.

(** A step that leaves the media address of every session that survives
    it as it was. *)
Local Abbreviation keeps_addresses st st' :=
  (∀ k c c', dict_get k (clients st) = Some c →
             dict_get k (clients st') = Some c' → udp_addr c' = udp_addr c).

Lemma update_keeps_addresses (cs : dict Client) (j k : string) (c0 c0' c c' : Client) :
  dict_get j cs = Some c0 → udp_addr c0' = udp_addr c0 →
  dict_get k cs = Some c → dict_get k (dict_set j c0' cs) = Some c' →
  udp_addr c' = udp_addr c.
Proof.
  intros Hj Hu Hk Hk'. destruct (decide (j = k)) as [->|Hne].
  - rewrite dict_get_set_eq in Hk'. congruence.
  - rewrite dict_get_set_ne in Hk' by done. congruence.
Qed.

Lemma process_tcp_message_keeps_addresses st client_id data :
  keeps_addresses st (process_tcp_message bo env st client_id data).1.
Proof.
  intros k c c' Hk. unfold process_tcp_message.
  destruct (decode data) as [message|]; [|simpl; congruence].
  repeat case_match; simpl; try congruence.
  unfold handle_control.
  destruct (dict_get client_id (clients st)) as [c0|] eqn:Hget; [|simpl; congruence].
  simpl. apply (update_keeps_addresses _ _ _ c0); try done.
  unfold apply_control. by repeat case_decide.
Qed.

Lemma session_end_keeps_addresses st client_id writer :
  keeps_addresses st (handle_tcp_client_finally bo env st client_id writer).1.
Proof.
  intros k c c' Hk. unfold handle_tcp_client_finally.
  destruct client_id as [cid|]; [|simpl; congruence].
  case_decide; [|simpl; congruence].
  destruct (dict_get cid (clients st)) as [c0|]; [|simpl; congruence].
  simpl. case_decide; simpl; intros Hd%dict_get_del_Some; congruence.
Qed.

Lemma serve_once_keeps_addresses st client_id writer stream now :
  keeps_addresses st (handle_tcp_client_iteration bo env st client_id writer stream now).1.1.
Proof.
  intros k c c' Hk. unfold handle_tcp_client_iteration.
  destruct (read_frame bo stream) as [[data rest]|];
    [|by apply session_end_keeps_addresses].
  destruct (dict_get client_id (clients st)) as [c0|] eqn:Hget;
    [|by apply session_end_keeps_addresses].
  set (st1 := with_clients _ st).
  pose proof (process_tcp_message_keeps_addresses st1 client_id data k) as Hp.
  destruct (process_tcp_message bo env st1 client_id data) as [st2 effects].
  simpl in *. intros Hk'.
  destruct (decide (client_id = k)) as [->|Hne].
  - rewrite (Hp (set_last_seen now c0) c'); [by simplify_eq|apply dict_get_set_eq|done].
  - apply (Hp c c'); [|done]. by rewrite dict_get_set_ne.
Qed.

Lemma cleanup_inactive_clients_keeps_addresses st now :
  keeps_addresses st (cleanup_inactive_clients bo env st now).1.
Proof.
  intros k c c' Hk. unfold cleanup_inactive_clients.
  set (inactive := (filter _ (clients st)).*1). clearbody inactive.
  assert (dict_get k (clients (foldl (λ s client_id,
             if dict_mem client_id (clients s)
             then with_clients (dict_del client_id (clients s)) s
             else s) st inactive)) = Some c' → dict_get k (clients st) = Some c') as H.
  { clear Hk. revert st. induction inactive as [|cid l IH]; intros st; [done|].
    simpl. intros Hl%IH.
    destruct (dict_mem cid (clients st)); [|done].
    by apply dict_get_del_Some in Hl. }
  intros Hk'. assert (dict_get k (clients st) = Some c') as Hc; [|congruence].
  apply H. by destruct inactive.
Qed.

End MediaAddress.

Lemma step_server (bo : byteorder) (w : World) (env : Env) (ev : event) :
  server (step bo w (env, ev)).1 =
  match ev with
  | Connect peer incoming t_id t_seen =>
    (handle_tcp_client_handshake bo env (server w) (accepted w) peer incoming t_id t_seen).1.1
  | ConnectFailed => server w
  | Frame client_id writer stream now =>
    (handle_tcp_client_iteration bo env (server w) client_id writer stream now).1.1
  | Datagram data addr => (handle_udp_streams_iteration bo env (server w) data addr).1
  | Sweep now => (cleanup_inactive_clients bo env (server w) now).1
  end.
Proof.
  unfold step. destruct ev; simpl.
  - by destruct (handle_tcp_client_handshake _ _ _ _ _ _ _ _) as [[? ?] ?].
  - done.
  - by destruct (handle_tcp_client_iteration _ _ _ _ _ _ _) as [[? ?] ?].
  - by destruct (handle_udp_streams_iteration _ _ _ _ _) as [? ?].
  - by destruct (cleanup_inactive_clients _ _ _ _) as [? ?].
Qed.

Lemma handshake_cases (bo : byteorder) (env : Env) (st : ScalableCommServer)
    (writer : handle) (peer : address) (incoming : list byte) (t_id t_seen : Q) :
  let r := handle_tcp_client_handshake bo env st writer peer incoming t_id t_seen in
  (r.1.1 = st ∧ r.2 = None) ∨
  (∃ username,
     r.1.1 = register st (make_client_id username t_id) username writer writer
                      peer t_seen ∧
     r.2 = Some (make_client_id username t_id)).
Proof.
  unfold handle_tcp_client_handshake.
  destruct (decode (take 1024 incoming)) as [text|]; [|by left].
  case_decide; [by left|]. right. by eexists.
Qed.

Lemma handle_udp_packet_cases (bo : byteorder) (env : Env) (st : ScalableCommServer)
    (data : list byte) (addr : address) :
  clients (handle_udp_streams_iteration bo env st data addr).1 = clients st ∨
  ∃ k c, tagged_with bo data k ∧ dict_get k (clients st) = Some c ∧
         clients (handle_udp_streams_iteration bo env st data addr).1
         = dict_set k (set_udp_addr addr c) (clients st).
Proof.
  unfold handle_udp_streams_iteration.
  case_decide as Hlen; [by left|].
  destruct data as [|ty' tl] eqn:Edata; [by left|]. rewrite <-Edata in *.
  destruct (unpack_H bo (slice 1 3 data)) as [n|] eqn:Hu; [|by left].
  case_decide as Hlen'; [by left|].
  destruct (decode _) as [k|] eqn:Hdec; [|by left].
  assert (tagged_with bo data k) as Htag.
  { assert (¬ malformed bo data) as Hwf.
    { intros [?|(n' & Hn' & Hlong)]; [lia|].
      rewrite Hu in Hn'. injection Hn' as <-. lia. }
    apply datagram_of_malformed in Hwf as (ty & tag & payload & Hd).
    exists ty, tag, payload. split; [done|].
    destruct (datagram_of_parse _ _ _ _ _ Hd) as (_ & Hu' & _ & Htag & _).
    rewrite Hu in Hu'. injection Hu' as ->.
    by rewrite Nat2N.id, Htag in Hdec. }
  destruct (dict_get k (clients st)) as [c|] eqn:Hget.
  - right. exists k, c. split; [done|]. split; [done|].
    by destruct (broadcast_udp _ _ _ _ _ _).
  - left. by destruct (broadcast_udp _ _ _ _ _ _).
Qed.

(** C9, as stated, fails: bob's media address is set although the run
    that leads to [two_sessions] consists of two handshakes and no
    datagram event; it is the host of his TCP peer with the server's own
    UDP port, and alice's datagram is sent there. *)
Lemma media_address_set_without_datagram :
  two_sessions
  = run LittleEndian (start "0.0.0.0" 9000 9001)
        [(quiet, Connect ("10.0.0.1", 50001%Z) (encode "alice") 1000.5 1000.5);
         (quiet, Connect ("10.0.0.2", 50002%Z) (encode "bob") 1000.75 1000.75)] ∧
  udp_addr <$> dict_get bob_id (clients (server two_sessions))
  = Some ("10.0.0.2", 9001%Z) ∧
  (handle_udp_streams_iteration LittleEndian quiet (server two_sessions) alice_datagram
                     ("10.0.0.1", 40000%Z)).2
  = [SentTo ([x01; x05; x00] ++ encode "alice" ++ [x07; x08])
            ("10.0.0.2", 9001%Z)].
Proof. split; [reflexivity|]. split; vm_compute; reflexivity. Qed.

(** C9, amended. As long as a handshake registers a new id: the media
    address of a session is initialised by the handshake that registers
    its id, to the host of the TCP peer with the server's UDP port; after
    that, a step changes the address of a session that stays live only if
    it is the arrival of a well-formed datagram tagged with the session's
    id, which sets it to the source address of that datagram. *)
Theorem media_address_sources (bo : byteorder) (w : World) (env : Env)
    (ev : event) (k : string) :
  reachable bo (server w) →
  registers_fresh_id bo w env ev →
  let st := server w in
  let st' := server (step bo w (env, ev)).1 in
  (∀ peer incoming t_id t_seen,
     ev = Connect peer incoming t_id t_seen →
     (handle_tcp_client_handshake bo env st (accepted w) peer incoming t_id t_seen).2 = Some k →
     dict_get k (clients st) = None ∧
     ∃ c', dict_get k (clients st') = Some c' ∧
           udp_addr c' = (peer.1, udp_port st)) ∧
  (∀ c c', dict_get k (clients st) = Some c → dict_get k (clients st') = Some c' →
     udp_addr c' = udp_addr c ∨
     ∃ data addr, ev = Datagram data addr ∧ tagged_with bo data k ∧
                  udp_addr c' = addr) ∧
  (∀ c data addr, dict_get k (clients st) = Some c →
     ev = Datagram data addr → tagged_with bo data k →
     ∃ c', dict_get k (clients st') = Some c' ∧ udp_addr c' = addr).
Proof.
  intros Hreach Hfresh st st'. subst st st'. rewrite step_server.
  split; [|split].
  - intros peer incoming t_id t_seen -> Hid.
    split; [by eapply Hfresh|].
    destruct (handshake_cases bo env (server w) (accepted w) peer incoming t_id t_seen)
      as [[_ Hnone]|(username & Hst & Hid')]; [congruence|].
    rewrite Hst. rewrite Hid' in Hid. injection Hid as <-. simpl.
    eexists. split; [apply dict_get_set_eq | done].
  - intros c c' Hk Hk'.
    destruct ev as [peer incoming t_id t_seen| |cid writer stream now|data addr|now].
    + destruct (handshake_cases bo env (server w) (accepted w) peer incoming t_id t_seen)
        as [[Hst _]|(username & Hst & Hid)].
      * left. rewrite Hst in Hk'. congruence.
      * rewrite Hst in Hk'. simpl in Hk'.
        destruct (decide (make_client_id username t_id = k)) as [Heq|Hne].
        -- rewrite (Hfresh peer incoming t_id t_seen k eq_refl) in Hk; [done|].
           by rewrite Hid, Heq.
        -- left. rewrite dict_get_set_ne in Hk' by done. congruence.
    + left. congruence.
    + left. by eapply serve_once_keeps_addresses.
    + destruct (handle_udp_packet_cases bo env (server w) data addr)
        as [Hst|(k0 & c0 & Htag & Hget & Hst)]; rewrite Hst in Hk'.
      * left. congruence.
      * destruct (decide (k0 = k)) as [->|Hne].
        -- right. exists data, addr. split; [done|]. split; [done|].
           rewrite dict_get_set_eq in Hk'. by injection Hk' as <-.
        -- left. rewrite dict_get_set_ne in Hk' by done. congruence.
    + left. by eapply cleanup_inactive_clients_keeps_addresses.
  - intros c data addr Hk -> (ty & tag & payload & Hd & Hdec).
    destruct (handle_udp_packet_forward bo env (server w) ty tag payload data k addr
                (reachable_registry_ok _ _ Hreach) Hd Hdec) as (name_len & _ & ->).
    rewrite Hk. simpl. exists (set_udp_addr addr c).
    split; [apply dict_get_set_eq | done].
Qed.

Lemma media_address_sources_witness :
  reachable LittleEndian (server two_sessions) ∧
  registers_fresh_id LittleEndian two_sessions quiet carol_connects ∧
  let st := server two_sessions in
  let st' := server (step LittleEndian two_sessions (quiet, carol_connects)).1 in
  (∀ peer incoming t_id t_seen,
     carol_connects = Connect peer incoming t_id t_seen →
     (handle_tcp_client_handshake LittleEndian quiet st (accepted two_sessions) peer
                                  incoming t_id t_seen).2 = Some carol_id →
     dict_get carol_id (clients st) = None ∧
     ∃ c', dict_get carol_id (clients st') = Some c' ∧
           udp_addr c' = (peer.1, udp_port st)) ∧
  (∀ c c', dict_get carol_id (clients st) = Some c →
     dict_get carol_id (clients st') = Some c' →
     udp_addr c' = udp_addr c ∨
     ∃ data addr, carol_connects = Datagram data addr ∧
                  tagged_with LittleEndian data carol_id ∧ udp_addr c' = addr) ∧
  (∀ c data addr, dict_get carol_id (clients st) = Some c →
     carol_connects = Datagram data addr → tagged_with LittleEndian data carol_id →
     ∃ c', dict_get carol_id (clients st') = Some c' ∧ udp_addr c' = addr) ∧
  registers_fresh_id LittleEndian two_sessions quiet
    (Datagram alice_datagram ("10.0.0.1", 40000%Z)) ∧
  (∀ c, dict_get alice_id (clients st) = Some c →
     tagged_with LittleEndian alice_datagram alice_id →
     ∃ c', dict_get alice_id
             (clients (server (step LittleEndian two_sessions
                (quiet, Datagram alice_datagram ("10.0.0.1", 40000%Z))).1))
           = Some c' ∧
           udp_addr c' = ("10.0.0.1", 40000%Z)).
Proof.
  assert (registers_fresh_id LittleEndian two_sessions quiet carol_connects) as Hfresh.
  { intros peer incoming t_id t_seen id [= <- <- <- <-] Hid.
    vm_compute in Hid. injection Hid as <-. vm_compute. reflexivity. }
  assert (registers_fresh_id LittleEndian two_sessions quiet
            (Datagram alice_datagram ("10.0.0.1", 40000%Z))) as Hfresh'.
  { intros peer incoming t_id t_seen id Hev. discriminate Hev. }
  split; [exact two_sessions_reachable|]. split; [exact Hfresh|].
  destruct (media_address_sources LittleEndian two_sessions quiet carol_connects
              carol_id two_sessions_reachable Hfresh) as (H1 & H2 & H3).
  cbv zeta. split; [exact H1|]. split; [exact H2|]. split; [exact H3|]. split.
  - exact Hfresh'.
  - intros c Hc Htag.
    exact (proj2 (proj2 (media_address_sources LittleEndian two_sessions quiet
                           (Datagram alice_datagram ("10.0.0.1", 40000%Z)) alice_id
                           two_sessions_reachable Hfresh'))
             c alice_datagram ("10.0.0.1", 40000%Z) Hc eq_refl Htag).
Defined.

(** The registration of carol, computed: her id is new, and her media
    address is the host of her TCP peer with the server's UDP port. *)
Example carol_registered :
  (handle_tcp_client_handshake LittleEndian quiet (server two_sessions)
     (accepted two_sessions) ("10.0.0.3", 50003%Z) (encode "carol") 1001 1001).2
  = Some carol_id ∧
  dict_get carol_id (clients (server two_sessions)) = None ∧
  udp_addr <$> dict_get carol_id
                 (clients (server (step LittleEndian two_sessions
                                        (quiet, carol_connects)).1))
  = Some ("10.0.0.3", 9001%Z).
Proof. split; [|split]; vm_compute; reflexivity. Qed.

(** ** Closing a session *)

(** What the [finally] block does to a session that is in the table: it
    leaves the table, the name index loses the entry of its display name,
    whichever id that entry holds, and the room loses its id; every other
    id keeps its record and its place in the room. *)
Lemma session_end_registered (bo : byteorder) (env : Env) (st : ScalableCommServer)
    (cid : string) (c : Client) (writer : handle) :
  cid ≠ "" → dict_get cid (clients st) = Some c →
  let st' := (handle_tcp_client_finally bo env st (Some cid) writer).1 in
  clients st' = dict_del cid (clients st) ∧
  username_to_id st' = delete (username c) (username_to_id st) ∧
  rooms_main st' = rooms_main st ∖ {[cid]}.
Proof.
  intros Hne Hget. unfold handle_tcp_client_finally.
  rewrite decide_True by done. rewrite Hget. simpl.
  case_decide as Hin; simpl; [done|].
  split; [done|]. split; [|done].
  symmetry. apply delete_id. by apply eq_None_not_Some.
Qed.

(** C10. When two sessions A and B carry the same display name and the
    name index points to B, the later one, closing A's connection deletes
    the index entry for the name although it points to B: B stays in the
    client table and in the room, and no longer has an entry in the name
    index; A is gone from the table and the room. *)
Theorem closing_namesake_unindexes_later_session (bo : byteorder) (env : Env)
    (st : ScalableCommServer) (id_a id_b : string) (a b : Client) (writer : handle) :
  id_a ≠ "" → id_a ≠ id_b →
  dict_get id_a (clients st) = Some a →
  dict_get id_b (clients st) = Some b →
  username a = username b →
  username_to_id st !! username b = Some id_b →
  id_b ∈ rooms_main st →
  let st' := (handle_tcp_client_finally bo env st (Some id_a) writer).1 in
  username_to_id st' !! username b = None ∧
  dict_get id_b (clients st') = Some b ∧
  id_b ∈ rooms_main st' ∧
  dict_get id_a (clients st') = None ∧
  id_a ∉ rooms_main st'.
Proof.
  intros Hne Hab Ha Hb Hname Hidx Hroom st'.
  destruct (session_end_registered bo env st id_a a writer Hne Ha)
    as (Hc & Hu & Hr).
  fold st' in Hc, Hu, Hr. rewrite Hc, Hu, Hr, Hname.
  split; [apply lookup_delete_eq|]. split; [|split; [|split]].
  - by rewrite dict_get_del_ne.
  - apply elem_of_difference. split; [done|].
    intros ->%elem_of_singleton. done.
  - apply dict_get_del_eq.
  - intros [_ H]%elem_of_difference. apply H. by apply elem_of_singleton.
Qed.

Lemma namesakes_reachable : reachable LittleEndian (server namesakes).
Proof. by eexists _, _, _, _. Qed.

Lemma closing_namesake_unindexes_later_session_witness :
  alice_id ≠ "" ∧ alice_id ≠ later_alice_id ∧
  ∃ a b,
    dict_get alice_id (clients (server namesakes)) = Some a ∧
    dict_get later_alice_id (clients (server namesakes)) = Some b ∧
    username a = username b ∧
    username_to_id (server namesakes) !! username b = Some later_alice_id ∧
    later_alice_id ∈ rooms_main (server namesakes) ∧
    let st' := (handle_tcp_client_finally LittleEndian quiet (server namesakes)
                            (Some alice_id) 0).1 in
    username_to_id st' !! username b = None ∧
    dict_get later_alice_id (clients st') = Some b ∧
    later_alice_id ∈ rooms_main st' ∧
    dict_get alice_id (clients st') = None ∧
    alice_id ∉ rooms_main st'.
Proof.
  assert (alice_id ≠ "") as H1 by done.
  assert (alice_id ≠ later_alice_id) as H2 by done.
  split; [exact H1|]. split; [exact H2|].
  eexists _, _.
  assert (later_alice_id ∈ rooms_main (server namesakes)) as H7.
  { apply (bool_decide_unpack _). vm_compute. exact I. }
  split; [vm_compute; reflexivity|]. split; [vm_compute; reflexivity|].
  split; [reflexivity|]. split; [vm_compute; reflexivity|]. split; [exact H7|].
  eapply (closing_namesake_unindexes_later_session LittleEndian quiet
            (server namesakes) alice_id later_alice_id);
    [exact H1 | exact H2 | vm_compute; reflexivity | vm_compute; reflexivity
    | reflexivity | vm_compute; reflexivity | exact H7].
Defined.

Lemma make_client_id_nonempty (username : string) (now : Q) :
  make_client_id username now ≠ "".
Proof. unfold make_client_id. by destruct username. Qed.

(** After two registrations under one display name with different ids, the
    name index points to the later one, and both are in the table and in
    the room. *)
Lemma later_registration_owns_name (st : ScalableCommServer) (name id_a id_b : string)
    (w_a w_b : handle) (peer_a peer_b : address) (t_a t_b : Q) :
  id_a ≠ id_b →
  let st' := register (register st id_a name w_a w_a peer_a t_a)
                      id_b name w_b w_b peer_b t_b in
  username_to_id st' !! name = Some id_b ∧
  id_a ∈ rooms_main st' ∧ id_b ∈ rooms_main st' ∧
  (∃ a, dict_get id_a (clients st') = Some a ∧ username a = name) ∧
  (∃ b, dict_get id_b (clients st') = Some b ∧ username b = name).
Proof.
  intros Hne st'. subst st'. unfold register. simpl.
  split; [apply lookup_insert_eq|]. split; [set_solver|]. split; [set_solver|].
  split.
  - eexists. rewrite dict_get_set_ne by done. by rewrite dict_get_set_eq.
  - eexists. by rewrite dict_get_set_eq.
Qed.

(** ** Registration *)

Lemma register_fresh_length (st : ScalableCommServer) (client_id username : string)
    (writer reader : handle) (peer : address) (now : Q) :
  dict_get client_id (clients st) = None →
  length (clients (register st client_id username writer reader peer now))
  = S (length (clients st)).
Proof.
  intros Hget. unfold register. simpl.
  rewrite dict_set_absent by (by apply dict_get_None).
  rewrite length_app. simpl. lia.
Qed.

Lemma register_again_length (st : ScalableCommServer) (client_id username : string)
    (writer reader : handle) (peer : address) (now : Q) (c : Client) :
  dict_get client_id (clients st) = Some c →
  length (clients (register st client_id username writer reader peer now))
  = length (clients st).
Proof.
  intros Hget. unfold register. simpl.
  apply dict_set_present. apply dict_get_elem in Hget.
  apply list_elem_of_fmap. by exists (client_id, c).
Qed.

(** ** Session ids *)

Lemma str_of_int_inj (m n : Z) : str_of_int m = str_of_int n → m = n.
Proof.
  unfold str_of_int. intros H.
  assert (∀ z, Z.to_int z ≠ Decimal.Pos Decimal.Nil ∧
               Z.to_int z ≠ Decimal.Neg Decimal.Nil) as Hnn.
  { intros [|p|p]; simpl; split; try done;
      intros [= Hp]; by apply DecimalPos.Unsigned.to_uint_nonnil in Hp. }
  apply DecimalZ.to_int_inj.
  assert (Some (Z.to_int m) = Some (Z.to_int n)) as [= ->]; [|done].
  rewrite <-(NilZero.isi (Z.to_int m)) by apply Hnn.
  rewrite <-(NilZero.isi (Z.to_int n)) by apply Hnn.
  by rewrite H.
Qed.

Lemma list_ascii_of_string_app (a b : string) :
  list_ascii_of_string (a +:+ b) = list_ascii_of_string a ++ list_ascii_of_string b.
Proof.
  induction a as [|c a IH]; [done|].
  change (String c a +:+ b) with (String c (a +:+ b)). simpl. by rewrite IH.
Qed.

Lemma str_of_int_no_underscore (n : Z) :
  "_"%char ∉ list_ascii_of_string (str_of_int n).
Proof.
  assert (∀ d, "_"%char ∉ list_ascii_of_string (NilEmpty.string_of_uint d)) as H.
  { induction d; simpl; [apply not_elem_of_nil|..];
      (apply not_elem_of_cons; split; [done|done]). }
  assert (∀ d, "_"%char ∉ list_ascii_of_string (NilZero.string_of_uint d)) as H'.
  { intros d. destruct d; try apply H.
    simpl. apply not_elem_of_cons. split; [done|apply not_elem_of_nil]. }
  unfold str_of_int, NilZero.string_of_int.
  destruct (Z.to_int n); [apply H'|].
  simpl. apply not_elem_of_cons. split; [done|apply H'].
Qed.

(** Two decompositions of a list around the last occurrence of [x]. *)
Lemma app_cons_last_inj {A} (x : A) (l1 l2 r1 r2 : list A) :
  x ∉ r1 → x ∉ r2 → l1 ++ x :: r1 = l2 ++ x :: r2 → l1 = l2 ∧ r1 = r2.
Proof.
  revert l2. induction l1 as [|a l1 IH]; intros l2 H1 H2 Heq.
  - destruct l2 as [|b l2]; simpl in Heq.
    + by injection Heq.
    + injection Heq as <- ->. exfalso. apply H1.
      apply elem_of_app. right. apply elem_of_cons. by left.
  - destruct l2 as [|b l2]; simpl in Heq.
    + injection Heq as -> <-. exfalso. apply H2.
      apply elem_of_app. right. apply elem_of_cons. by left.
    + injection Heq as <- Heq. destruct (IH l2 H1 H2 Heq) as [-> ->]. done.
Qed.

(** The id determines the display name and the millisecond it was made
    from: two handshakes get the same id only if they send the same name
    within the same millisecond. *)
Lemma make_client_id_inj (u1 u2 : string) (t1 t2 : Q) :
  make_client_id u1 t1 = make_client_id u2 t2 →
  u1 = u2 ∧ int_of_float (t1 * 1000) = int_of_float (t2 * 1000).
Proof.
  unfold make_client_id. intros H.
  apply (f_equal list_ascii_of_string) in H.
  rewrite !list_ascii_of_string_app in H.
  change (list_ascii_of_string "_") with ["_"%char] in H. simpl in H.
  apply app_cons_last_inj in H as [Hu Hd]; try apply str_of_int_no_underscore.
  split.
  - rewrite <-(string_of_list_ascii_of_string u1), Hu.
    apply string_of_list_ascii_of_string.
  - apply str_of_int_inj.
    rewrite <-(string_of_list_ascii_of_string (str_of_int _)), Hd.
    apply string_of_list_ascii_of_string.
Qed.

(** A handshake that is answered with an id grows the table by one
    session exactly when that id was not in the table. *)
Lemma handle_tcp_client_handshake_count (bo : byteorder) (env : Env)
    (st : ScalableCommServer) (writer : handle) (peer : address)
    (incoming : list byte) (t_id t_seen : Q) (id : string) :
  (handle_tcp_client_handshake bo env st writer peer incoming t_id t_seen).2
  = Some id →
  length (clients (handle_tcp_client_handshake bo env st writer peer incoming
                                                t_id t_seen).1.1)
  = if dict_mem id (clients st) then length (clients st)
    else S (length (clients st)).
Proof.
  intros Hid.
  destruct (handshake_cases bo env st writer peer incoming t_id t_seen)
    as [[_ Hnone]|(username & Hst & Hid')]; [congruence|].
  rewrite Hst. rewrite Hid' in Hid. injection Hid as <-.
  unfold dict_mem.
  destruct (dict_get (make_client_id username t_id) (clients st)) as [c|] eqn:Hget.
  - rewrite bool_decide_eq_true_2 by (by eexists).
    by eapply register_again_length.
  - rewrite bool_decide_eq_false_2 by (by intros [? ?]).
    by apply register_fresh_length.
Qed.

(** C1 fails on the code: two handshakes that send the name [alice] and
    read the clock within the same millisecond (at 1000.5002 s and at
    1000.5007 s) are both answered with the id [alice_1000500]; the second
    registration replaces the record of the first, and the table holds one
    session after two handshakes. *)
Lemma same_millisecond_handshakes_share_an_id :
  (handle_tcp_client_handshake LittleEndian quiet (init "0.0.0.0" 9000 9001) 0
             ("10.0.0.1", 50001%Z) (encode "alice") 1000.5002 1000.5002).2
  = Some "alice_1000500" ∧
  (handle_tcp_client_handshake LittleEndian quiet
             (handle_tcp_client_handshake LittleEndian quiet (init "0.0.0.0" 9000 9001) 0
                        ("10.0.0.1", 50001%Z) (encode "alice")
                        1000.5002 1000.5002).1.1
             1 ("10.0.0.3", 50003%Z) (encode "alice") 1000.5007 1000.5007).2
  = Some "alice_1000500" ∧
  length (clients (server same_millisecond)) = 1%nat ∧
  tcp_writer <$> dict_get "alice_1000500" (clients (server same_millisecond))
  = Some 1.
Proof. repeat split; vm_compute; reflexivity. Qed.

(** ** The liveness sweep *)

(** C2 fails on the code for the sweep: with alice and bob registered at
    1000.5 s and 1000.75 s, the sweep at 2000 s deletes both from the
    client table and sends the user list to nobody, but the name index
    still maps [alice] to her id and the room still holds it; when her
    connection then ends, the [finally] block finds her id gone from the
    table and removes nothing more. *)
Lemma sweep_leaves_name_index_and_room :
  clients swept = [] ∧
  username_to_id swept !! "alice" = Some alice_id ∧
  alice_id ∈ rooms_main swept ∧
  (cleanup_inactive_clients LittleEndian quiet (server two_sessions) 2000).2 = [] ∧
  swept_then_closed = swept ∧
  username_to_id swept_then_closed !! "alice" = Some alice_id ∧
  alice_id ∈ rooms_main swept_then_closed.
Proof.
  assert (alice_id ∈ rooms_main swept) as Hin.
  { apply (bool_decide_unpack _). vm_compute. exact I. }
  assert (swept_then_closed = swept) as Hsame by (vm_compute; reflexivity).
  rewrite Hsame.
  repeat split; try exact Hin; vm_compute; reflexivity.
Qed.

(** The sweep touches the client table only. *)
Lemma cleanup_inactive_clients_other_indexes (bo : byteorder) (env : Env)
    (st : ScalableCommServer) (now : Q) :
  username_to_id (cleanup_inactive_clients bo env st now).1 = username_to_id st ∧
  rooms_main (cleanup_inactive_clients bo env st now).1 = rooms_main st.
Proof.
  unfold cleanup_inactive_clients.
  set (inactive := (filter _ (clients st)).*1). clearbody inactive.
  assert (∀ l s,
    username_to_id (foldl (λ s client_id,
         if dict_mem client_id (clients s)
         then with_clients (dict_del client_id (clients s)) s
         else s) s l) = username_to_id s ∧
    rooms_main (foldl (λ s client_id,
         if dict_mem client_id (clients s)
         then with_clients (dict_del client_id (clients s)) s
         else s) s l) = rooms_main s) as H.
  { induction l as [|cid l IH]; intros s; [done|].
    simpl. destruct (IH (if dict_mem cid (clients s)
                         then with_clients (dict_del cid (clients s)) s else s))
      as [-> ->].
    by destruct (dict_mem cid (clients s)). }
  by destruct inactive; apply H.
Qed.

(** ** The client's [connect] *)

Lemma startswith_inv (p s : string) :
  startswith p s = true → ∃ rest, s = p +:+ rest.
Proof.
  unfold startswith. revert s. induction p as [|c p IH]; intros s.
  - by exists s.
  - destruct s as [|c' s]; [done|]. simpl.
    destruct (ascii_dec c c') as [<-|]; [|done].
    intros (rest & ->)%IH. by exists rest.
Qed.

(** The first field of [s.split(":")]: the text before the first colon,
    or all of [s] when it has none. *)
Lemma split_colon_head (s : string) :
  ∃ id fields tail,
    ClientCore.split_colon s = id :: fields ∧ s = id +:+ tail ∧ colon_free id ∧
    (tail = "" ∨ ∃ more, tail = ":" +:+ more).
Proof.
  unfold colon_free. induction s as [|c s (id & fields & tail & Hs & Heq & Hfree & Htail)].
  - exists "", [], "". split_and!; [done|done|apply not_elem_of_nil|by left].
  - cbn [ClientCore.split_colon]. case_decide as Hc.
    + subst c. exists "", (ClientCore.split_colon s), (":" +:+ s).
      split_and!; [done|done|apply not_elem_of_nil|right; by exists s].
    + rewrite Hs. exists (String c id), fields, tail.
      split_and!; [done|by rewrite Heq at 1| |done].
      simpl. apply not_elem_of_cons. split; [congruence|done].
Qed.

Lemma split_colon_connected (rest : string) :
  ClientCore.split_colon ("CONNECTED:" +:+ rest) !! 1%nat
  = head (ClientCore.split_colon rest).
Proof.
  change ("CONNECTED:" +:+ rest)
    with (String "C" (String "O" (String "N" (String "N" (String "E" (String "C"
           (String "T" (String "E" (String "D" (String ":" rest)))))))))).
  cbn [ClientCore.split_colon].
  repeat (rewrite decide_False by done).
  rewrite decide_True by done.
  by destruct (ClientCore.split_colon rest).
Qed.

(** C8, as stated, fails twice. On the reply [ERROR], [connect] returns
    [False] but issues no [close]: the only effect is the name it wrote,
    and the stream stays referenced by the client. On the reply
    [CONNECTED:], which is not of the form [CONNECTED:<id>:<name>],
    [connect] returns [True] with an empty session id. *)
Lemma failed_connect_leaves_stream_open :
  (ClientCore.connect LittleEndian fresh_client "alice"
     (ClientCore.Established 7 false error_reply)).2 = false ∧
  (ClientCore.connect LittleEndian fresh_client "alice"
     (ClientCore.Established 7 false error_reply)).1.2
  = [Written 7 (encode "alice")] ∧
  ClientCore.tcp_writer
    (ClientCore.connect LittleEndian fresh_client "alice"
       (ClientCore.Established 7 false error_reply)).1.1 = Some 7 ∧
  (ClientCore.connect LittleEndian fresh_client "alice"
     (ClientCore.Established 7 false bare_connected_reply)).2 = true ∧
  ClientCore.client_id
    (ClientCore.connect LittleEndian fresh_client "alice"
       (ClientCore.Established 7 false bare_connected_reply)).1.1 = Some "".
Proof. repeat split; vm_compute; reflexivity. Qed.

(** C8, amended. If the connection cannot be opened, the name cannot be
    sent, no complete frame arrives in time, the frame is not text, or the
    reply does not start with [CONNECTED:], then [connect] returns [False]
    and leaves the connected flag, the session id and the receiver threads
    as they were, so on a new client the flag stays false and no id is
    retained.  Whatever the outcome, the display name stays recorded,
    [connect] closes nothing, and a stream that was opened stays
    referenced by the client.  Every reply that starts with [CONNECTED:]
    is accepted, of the form [CONNECTED:<id>:<name>] or not: [connect]
    returns [True], sets the connected flag, starts the two receivers and
    takes as session id the text between the first colon and the next
    colon, or the end of the reply when there is none; that text may be
    empty. *)
Theorem failed_connect_leaves_session_unset (bo : byteorder)
    (cl : ClientCore.ScalableCommClient) (name : string)
    (net : ClientCore.connection) :
  let r := ClientCore.connect bo cl name net in
  ((∀ response, handshake_reply bo net = Some response →
                startswith "CONNECTED:" response = false) →
   r.2 = false ∧
   ClientCore.connected r.1.1 = ClientCore.connected cl ∧
   ClientCore.client_id r.1.1 = ClientCore.client_id cl ∧
   ClientCore.tcp_thread r.1.1 = ClientCore.tcp_thread cl ∧
   ClientCore.udp_thread r.1.1 = ClientCore.udp_thread cl) ∧
  ClientCore.username r.1.1 = Some name ∧
  (∀ h, Closed h ∉ r.1.2) ∧
  (∀ h drain_fails reply, net = ClientCore.Established h drain_fails reply →
     ClientCore.tcp_writer r.1.1 = Some h ∧ ClientCore.tcp_reader r.1.1 = Some h) ∧
  (∀ response,
     handshake_reply bo net = Some response →
     startswith "CONNECTED:" response = true →
     ∃ id tail,
       response = "CONNECTED:" +:+ id +:+ tail ∧ colon_free id ∧
       (tail = "" ∨ ∃ more, tail = ":" +:+ more) ∧
       r.2 = true ∧
       ClientCore.connected r.1.1 = true ∧
       ClientCore.client_id r.1.1 = Some id ∧
       ClientCore.tcp_thread r.1.1 = true ∧
       ClientCore.udp_thread r.1.1 = true).
Proof.
  cbv zeta. unfold ClientCore.connect, handshake_reply.
  destruct net as [|h drain_fails reply]; simpl.
  { split_and!; try done. intros h Hin. by apply elem_of_nil in Hin. }
  assert (∀ h' : handle, Closed h' ∉ [Written h (encode name)]) as Hnc.
  { intros h' Hin. by apply list_elem_of_singleton in Hin. }
  assert (∀ h' : handle, Closed h' ∉ [SendError h]) as Hnc'.
  { intros h' Hin. by apply list_elem_of_singleton in Hin. }
  destruct drain_fails; simpl.
  { split_and!; try done. by intros ? ? ? [= <- _ _]. }
  destruct (read_frame bo reply) as [[data rest]|]; simpl.
  2:{ split_and!; try done. by intros ? ? ? [= <- _ _]. }
  destruct (decode data) as [response|]; simpl.
  2:{ split_and!; try done. by intros ? ? ? [= <- _ _]. }
  destruct (startswith "CONNECTED:" response) eqn:Hstart.
  - apply startswith_inv in Hstart as [rest' ->].
    rewrite split_colon_connected.
    destruct (split_colon_head rest') as (id & fields & tail & -> & -> & Hfree & Htail).
    simpl. split; [intros Hreply; specialize (Hreply _ eq_refl);
             by rewrite startswith_app in Hreply|].
    split; [done|]. split; [done|]. split; [by intros ? ? ? [= <- _ _]|].
    intros response [= <-] _. exists id, tail. by split_and!.
  - split; [done|].
    split; [done|]. split; [done|]. split; [by intros ? ? ? [= <- _ _]|].
    intros ? [= <-]. congruence.
Qed.

Lemma failed_connect_leaves_session_unset_witness :
  (∀ response,
     handshake_reply LittleEndian (ClientCore.Established 7 false error_reply)
     = Some response →
     startswith "CONNECTED:" response = false) ∧
  handshake_reply LittleEndian (ClientCore.Established 7 false bare_connected_reply)
  = Some "CONNECTED:"%string ∧
  startswith "CONNECTED:" "CONNECTED:" = true ∧
  (let r := ClientCore.connect LittleEndian fresh_client "alice"
              (ClientCore.Established 7 false error_reply) in
   r.2 = false ∧
   ClientCore.connected r.1.1 = ClientCore.connected fresh_client ∧
   ClientCore.client_id r.1.1 = ClientCore.client_id fresh_client ∧
   ClientCore.tcp_thread r.1.1 = ClientCore.tcp_thread fresh_client ∧
   ClientCore.udp_thread r.1.1 = ClientCore.udp_thread fresh_client) ∧
  (let r := ClientCore.connect LittleEndian fresh_client "alice"
              (ClientCore.Established 7 false bare_connected_reply) in
   ∃ id tail,
     "CONNECTED:"%string = "CONNECTED:" +:+ id +:+ tail ∧ colon_free id ∧
     (tail = "" ∨ ∃ more, tail = ":" +:+ more) ∧
     r.2 = true ∧
     ClientCore.connected r.1.1 = true ∧
     ClientCore.client_id r.1.1 = Some id ∧
     ClientCore.tcp_thread r.1.1 = true ∧
     ClientCore.udp_thread r.1.1 = true).
Proof.
  assert (∀ response,
     handshake_reply LittleEndian (ClientCore.Established 7 false error_reply)
     = Some response →
     startswith "CONNECTED:" response = false) as H.
  { intros response Hr. vm_compute in Hr. injection Hr as <-. reflexivity. }
  split; [exact H|]. split; [vm_compute; reflexivity|]. split; [reflexivity|].
  split.
  - exact (proj1 (failed_connect_leaves_session_unset LittleEndian fresh_client
                    "alice" (ClientCore.Established 7 false error_reply)) H).
  - exact (proj2 (proj2 (proj2 (proj2
             (failed_connect_leaves_session_unset LittleEndian fresh_client "alice"
                (ClientCore.Established 7 false bare_connected_reply)))))
             "CONNECTED:"%string eq_refl eq_refl).
Defined.

(** A well-formed reply is accepted: the client takes the id between the
    first two colons and starts its receivers. *)
Lemma connect_accepts_welcome (bo : byteorder) (cl : ClientCore.ScalableCommClient)
    (name id : string) (h : handle) (data rest : list byte) :
  frame bo (encode ("CONNECTED:" +:+ id +:+ ":" +:+ name)) = Some data →
  valid_text (id +:+ ":" +:+ name) →
  (∀ c, c ∈ list_ascii_of_string id → c ≠ ":"%char) →
  let r := ClientCore.connect bo cl name (ClientCore.Established h false (data ++ rest)) in
  r.2 = true ∧ ClientCore.connected r.1.1 = true ∧
  ClientCore.client_id r.1.1 = Some id.
Proof.
  intros Hf Hvalid Hid. unfold ClientCore.connect.
  rewrite (read_frame_frame _ _ _ _ Hf).
  assert (decode (encode ("CONNECTED:" +:+ id +:+ ":" +:+ name))
          = Some ("CONNECTED:" +:+ id +:+ ":" +:+ name)) as ->.
  { apply (valid_text_app "CONNECTED:"); [|done].
    apply ascii_valid_text. repeat (apply Forall_cons; split; [by vm_compute|]).
    apply Forall_nil_2. }
  rewrite startswith_app.
  assert (ClientCore.split_colon ("CONNECTED:" +:+ id +:+ ":" +:+ name) !! 1%nat
          = Some id) as ->; [|done].
  change ("CONNECTED:" +:+ id +:+ ":" +:+ name)
    with (String "C" (String "O" (String "N" (String "N" (String "E" (String "C"
           (String "T" (String "E" (String "D" (String ":"
           (id +:+ ":" +:+ name))))))))))).
  assert (∃ t, ClientCore.split_colon (id +:+ ":" +:+ name) = id :: t) as [t Ht].
  { clear -Hid. induction id as [|c id IH].
    - simpl. by eexists.
    - change (String c id +:+ ":" +:+ name) with (String c (id +:+ ":" +:+ name)).
      cbn [ClientCore.split_colon].
      rewrite decide_False by (apply Hid; simpl; apply elem_of_cons; by left).
      destruct IH as [t ->].
      { intros c' Hc'. apply Hid. simpl. apply elem_of_cons. by right. }
      by eexists. }
  cbn [ClientCore.split_colon]. rewrite Ht.
  repeat (rewrite decide_False by done; cbn [lookup list_lookup]).
  rewrite decide_True by done. done.
Qed.

(** * Further properties of the code *)

(** ** The message loop: heartbeat, ignored messages, file metadata *)

(** The state after the loop has read one frame of the session [cid]: only
    the time the session was last seen has changed. *)
Lemma handle_tcp_client_iteration_read (bo : byteorder) (env : Env)
    (st : ScalableCommServer) (cid : string) (c : Client) (writer : handle)
    (payload data rest : list byte) (now : Q) :
  dict_get cid (clients st) = Some c →
  frame bo payload = Some data →
  handle_tcp_client_iteration bo env st cid writer (data ++ rest) now
  = let st1 := with_clients (dict_set cid (set_last_seen now c) (clients st)) st in
    ((process_tcp_message bo env st1 cid payload).1,
     (process_tcp_message bo env st1 cid payload).2, Some rest).
Proof.
  intros Hget Hf. unfold handle_tcp_client_iteration.
  rewrite (read_frame_frame _ _ _ _ Hf), Hget. cbv zeta.
  by destruct (process_tcp_message _ _ _ _ _).
Qed.

(** X1. A [PING] frame from a registered session is answered by exactly one
    send, the message [PONG] on the stream stored for that session; the
    session's last-seen time is set to the time of the read, nothing else
    in the server changes, and the loop goes on with the rest of the
    stream. *)
Theorem ping_answered_to_sender_only (bo : byteorder) (env : Env)
    (st : ScalableCommServer) (cid : string) (c : Client) (writer : handle)
    (data rest : list byte) (now : Q) :
  dict_get cid (clients st) = Some c →
  frame bo (encode "PING") = Some data →
  handle_tcp_client_iteration bo env st cid writer (data ++ rest) now
  = (with_clients (dict_set cid (set_last_seen now c) (clients st)) st,
     send_tcp_message bo env (tcp_writer c) "PONG",
     Some rest).
Proof.
  intros Hget Hf.
  rewrite (handle_tcp_client_iteration_read _ _ _ _ _ _ _ _ _ _ Hget Hf).
  cbv zeta. unfold process_tcp_message.
  change (decode (encode "PING")) with (Some "PING"%string). cbv beta iota.
  change (startswith "CHAT:" "PING") with false.
  change (startswith "FILE_META:" "PING") with false.
  change (startswith "CONTROL:" "PING") with false.
  cbv beta iota. rewrite decide_True by done.
  cbn [clients with_clients]. by rewrite dict_get_set_eq.
Qed.

Lemma ping_answered_to_sender_only_witness :
  ∃ c data,
    dict_get alice_id (clients (server two_sessions)) = Some c ∧
    frame LittleEndian (encode "PING") = Some data ∧
    handle_tcp_client_iteration LittleEndian quiet (server two_sessions) alice_id 0
      (data ++ [x07]) 1001
    = (with_clients (dict_set alice_id (set_last_seen 1001 c)
                              (clients (server two_sessions)))
                    (server two_sessions),
       send_tcp_message LittleEndian quiet (tcp_writer c) "PONG",
       Some [x07]).
Proof.
  eexists _, _. split; [vm_compute; reflexivity|]. split; [vm_compute; reflexivity|].
  eapply (ping_answered_to_sender_only LittleEndian quiet (server two_sessions)
            alice_id _ 0 _ [x07] 1001); vm_compute; reflexivity.
Defined.

(** X2. A frame whose payload is not UTF-8, or is text that starts with
    none of [CHAT:], [FILE_META:], [CONTROL:] and is not [PING], is read
    and dropped: the server sends nothing, keeps the session (only its
    last-seen time is set) and the loop goes on. *)
Theorem unrecognised_message_ignored (bo : byteorder) (env : Env)
    (st : ScalableCommServer) (cid : string) (c : Client) (writer : handle)
    (payload data rest : list byte) (now : Q) :
  dict_get cid (clients st) = Some c →
  frame bo payload = Some data →
  (∀ message, decode payload = Some message → recognised message = false) →
  handle_tcp_client_iteration bo env st cid writer (data ++ rest) now
  = (with_clients (dict_set cid (set_last_seen now c) (clients st)) st, [], Some rest).
Proof.
  intros Hget Hf Hun.
  rewrite (handle_tcp_client_iteration_read _ _ _ _ _ _ _ _ _ _ Hget Hf).
  cbv zeta. unfold process_tcp_message.
  destruct (decode payload) as [message|]; [|done].
  specialize (Hun message eq_refl). unfold recognised in Hun.
  apply orb_false_iff in Hun as [Hun Hping].
  apply orb_false_iff in Hun as [Hun Hcontrol].
  apply orb_false_iff in Hun as [Hchat Hfile].
  rewrite Hchat, Hfile, Hcontrol.
  apply bool_decide_eq_false in Hping. by rewrite decide_False.
Qed.

Lemma unrecognised_message_ignored_witness :
  ∃ c data,
    dict_get alice_id (clients (server two_sessions)) = Some c ∧
    frame LittleEndian (encode "HELLO") = Some data ∧
    (∀ message, decode (encode "HELLO") = Some message →
                recognised message = false) ∧
    handle_tcp_client_iteration LittleEndian quiet (server two_sessions) alice_id 0
      (data ++ [x07]) 1001
    = (with_clients (dict_set alice_id (set_last_seen 1001 c)
                              (clients (server two_sessions)))
                    (server two_sessions),
       [], Some [x07]).
Proof.
  assert (∀ message, decode (encode "HELLO") = Some message →
                     recognised message = false) as Hun.
  { intros message [= <-]. vm_compute. reflexivity. }
  eexists _, _. split; [vm_compute; reflexivity|]. split; [vm_compute; reflexivity|].
  split; [exact Hun|].
  eapply (unrecognised_message_ignored LittleEndian quiet (server two_sessions)
            alice_id _ 0 (encode "HELLO") _ [x07] 1001);
    [vm_compute; reflexivity | vm_compute; reflexivity | exact Hun].
Defined.

(** X3. When the session [sender_id] sends [FILE_META:<meta>], every other
    session gets on its own stream exactly one send of
    [FILE_META:<sender's display name>:<meta>], nothing is addressed to
    the sender's stream, and the server itself, the message counter
    included, is left as it was. *)
Theorem file_meta_reaches_exactly_the_others (bo : byteorder) (env : Env)
    (st : ScalableCommServer) (sender_id meta : string) (sender : Client)
    (data : list byte) :
  registry_ok st →
  dict_get sender_id (clients st) = Some sender →
  decode data = Some ("FILE_META:" +:+ meta) →
  let formatted := "FILE_META:" +:+ username sender +:+ ":" +:+ meta in
  let effects := (process_tcp_message bo env st sender_id data).2 in
  (process_tcp_message bo env st sender_id data).1 = st ∧
  length effects = (length (clients st) - 1)%nat ∧
  (∀ r c, (r, c) ∈ clients st → r ≠ sender_id →
     addressed_to (tcp_writer c) effects
     = send_tcp_message bo env (tcp_writer c) formatted) ∧
  addressed_to (tcp_writer sender) effects = [].
Proof.
  intros Hok Hget Hdec formatted effects.
  assert (process_tcp_message bo env st sender_id data
          = (st, send_to_others bo env st sender_id formatted)) as Hp.
  { unfold process_tcp_message. rewrite Hdec. cbv beta iota.
    assert (startswith "CHAT:" ("FILE_META:" +:+ meta) = false) as -> by done.
    rewrite startswith_app.
    change (str_drop 10) with (str_drop (String.length "FILE_META:")).
    rewrite str_drop_app. unfold broadcast_file_meta. by rewrite Hget. }
  subst effects. rewrite Hp. split; [done|].
  exact (send_to_others_spec bo env st sender_id formatted sender Hok Hget).
Qed.

Lemma file_meta_reaches_exactly_the_others_witness :
  registry_ok (server two_sessions) ∧
  ∃ sender,
    dict_get alice_id (clients (server two_sessions)) = Some sender ∧
    decode (encode "FILE_META:{}") = Some ("FILE_META:" +:+ "{}") ∧
    let formatted := "FILE_META:" +:+ username sender +:+ ":" +:+ "{}" in
    let effects := (process_tcp_message LittleEndian quiet (server two_sessions)
                      alice_id (encode "FILE_META:{}")).2 in
    (process_tcp_message LittleEndian quiet (server two_sessions)
       alice_id (encode "FILE_META:{}")).1 = server two_sessions ∧
    length effects = (length (clients (server two_sessions)) - 1)%nat ∧
    (∀ r c, (r, c) ∈ clients (server two_sessions) → r ≠ alice_id →
       addressed_to (tcp_writer c) effects
       = send_tcp_message LittleEndian quiet (tcp_writer c) formatted) ∧
    addressed_to (tcp_writer sender) effects = [].
Proof.
  split; [exact two_sessions_ok|].
  eexists. split; [vm_compute; reflexivity|]. split; [vm_compute; reflexivity|].
  apply (file_meta_reaches_exactly_the_others LittleEndian quiet (server two_sessions)
           alice_id "{}" _ (encode "FILE_META:{}") two_sessions_ok);
    vm_compute; reflexivity.
Defined.

(** ** The handshake *)

(** X4. A handshake whose first read is not UTF-8, or is text that is empty
    once stripped of white space, registers nothing: the server is left as
    it was, no session enters the message loop, nothing is written, and
    the connection is closed. *)
Theorem nameless_handshake_registers_nothing (bo : byteorder) (env : Env)
    (st : ScalableCommServer) (writer : handle) (peer : address)
    (incoming : list byte) (t_id t_seen : Q) :
  (∀ text, decode (take 1024 incoming) = Some text → strip text = "") →
  let r := handle_tcp_client_handshake bo env st writer peer incoming t_id t_seen in
  r.1.1 = st ∧ r.2 = None ∧
  Closed writer ∈ r.1.2 ∧ (∀ e, e ∈ r.1.2 → e = Closed writer).
Proof.
  intros Hblank. unfold handle_tcp_client_handshake.
  destruct (decode (take 1024 incoming)) as [text|].
  - rewrite decide_True by by apply Hblank.
    cbn. split_and!; [done|done|by left|].
    intros e He. by repeat (apply elem_of_cons in He as [->|He]; [done|]);
      apply elem_of_nil in He.
  - cbn. split_and!; [done|done|by left|].
    intros e He. by apply list_elem_of_singleton in He.
Qed.

Lemma nameless_handshake_registers_nothing_witness :
  (∀ text, decode (take 1024 (encode "  ")) = Some text → strip text = "") ∧
  let r := handle_tcp_client_handshake LittleEndian quiet (server two_sessions) 2
             ("10.0.0.3", 50003%Z) (encode "  ") 1001 1001 in
  r.1.1 = server two_sessions ∧ r.2 = None ∧
  Closed 2 ∈ r.1.2 ∧ (∀ e, e ∈ r.1.2 → e = Closed 2).
Proof.
  assert (∀ text, decode (take 1024 (encode "  ")) = Some text → strip text = "")
    as Hblank.
  { intros text [= <-]. vm_compute. reflexivity. }
  split; [exact Hblank|].
  exact (nameless_handshake_registers_nothing LittleEndian quiet (server two_sessions)
           2 ("10.0.0.3", 50003%Z) (encode "  ") 1001 1001 Hblank).
Defined.

(** X5. A handshake whose first read is text with a non-empty stripped name
    registers the session under the id [<name>_<milliseconds>] in all three
    indexes at once: the table holds the new record (both streams of the
    connection, the peer's host with the server's own datagram port, no
    capability, the time of the handshake), the name index maps the name
    to the id, the room contains the id; every other id and name is as
    before.  The welcome [CONNECTED:<id>:<name>] is sent first, on the new
    stream, followed by the user list. *)
Theorem handshake_registers_session (bo : byteorder) (env : Env)
    (st : ScalableCommServer) (writer : handle) (peer : address)
    (incoming : list byte) (t_id t_seen : Q) (text : string) :
  decode (take 1024 incoming) = Some text →
  strip text ≠ "" →
  let name := strip text in
  let id := make_client_id name t_id in
  let r := handle_tcp_client_handshake bo env st writer peer incoming t_id t_seen in
  r.2 = Some id ∧
  dict_get id (clients r.1.1) = Some (new_session st id name writer peer t_seen) ∧
  username_to_id r.1.1 !! name = Some id ∧
  id ∈ rooms_main r.1.1 ∧
  (∀ k, k ≠ id → dict_get k (clients r.1.1) = dict_get k (clients st)) ∧
  (∀ n, n ≠ name → username_to_id r.1.1 !! n = username_to_id st !! n) ∧
  (∀ k, k ≠ id → k ∈ rooms_main r.1.1 ↔ k ∈ rooms_main st) ∧
  r.1.2 = send_tcp_message bo env writer ("CONNECTED:" +:+ id +:+ ":" +:+ name)
          ++ broadcast_user_list bo env r.1.1.
Proof.
  intros Hdec Hname name id. unfold handle_tcp_client_handshake.
  rewrite Hdec. rewrite decide_False by done. cbv zeta.
  fold name. fold id. cbn [fst snd]. unfold register. cbn.
  split_and!.
  - done.
  - apply dict_get_set_eq.
  - apply lookup_insert_eq.
  - apply elem_of_union_l. by apply elem_of_singleton.
  - intros k Hk. by apply dict_get_set_ne.
  - intros n Hn. by apply lookup_insert_ne.
  - intros k Hk. rewrite elem_of_union, elem_of_singleton.
    split; [by intros [?|?] | by right].
  - done.
Qed.

Lemma handshake_registers_session_witness :
  decode (take 1024 (encode " carol ")) = Some " carol "%string ∧
  strip " carol " ≠ "" ∧
  let st := server two_sessions in
  let name := strip " carol " in
  let id := make_client_id name 1001 in
  let r := handle_tcp_client_handshake LittleEndian quiet st 2
             ("10.0.0.3", 50003%Z) (encode " carol ") 1001 1002 in
  r.2 = Some id ∧
  dict_get id (clients r.1.1)
  = Some (new_session st id name 2 ("10.0.0.3", 50003%Z) 1002) ∧
  username_to_id r.1.1 !! name = Some id ∧
  id ∈ rooms_main r.1.1 ∧
  (∀ k, k ≠ id → dict_get k (clients r.1.1) = dict_get k (clients st)) ∧
  (∀ n, n ≠ name → username_to_id r.1.1 !! n = username_to_id st !! n) ∧
  (∀ k, k ≠ id → k ∈ rooms_main r.1.1 ↔ k ∈ rooms_main st) ∧
  r.1.2 = send_tcp_message LittleEndian quiet 2
            ("CONNECTED:" +:+ id +:+ ":" +:+ name)
          ++ broadcast_user_list LittleEndian quiet r.1.1.
Proof.
  assert (strip " carol " ≠ "") as Hname by (vm_compute; discriminate).
  split; [vm_compute; reflexivity|]. split; [exact Hname|].
  exact (handshake_registers_session LittleEndian quiet (server two_sessions) 2
           ("10.0.0.3", 50003%Z) (encode " carol ") 1001 1002 " carol "
           ltac:(vm_compute; reflexivity) Hname).
Defined.

(** ** The user list *)

Lemma broadcast_user_list_spec (bo : byteorder) (env : Env)
    (st : ScalableCommServer) :
  registry_ok st →
  let message := "USERS:" +:+ Json.dumps_list (user_entry <$> (clients st).*2) in
  let effects := broadcast_user_list bo env st in
  length effects = length (clients st) ∧
  (∀ k c, (k, c) ∈ clients st →
     addressed_to (tcp_writer c) effects
     = send_tcp_message bo env (tcp_writer c) message) ∧
  (∀ w, w ∉ tcp_writer <$> (clients st).*2 → addressed_to w effects = []).
Proof.
  intros (Hk & Hw & _) message effects. subst effects.
  unfold broadcast_user_list. fold message.
  split_and!.
  - rewrite bind_length_1 by (intros; apply send_tcp_message_length).
    by rewrite length_fmap.
  - intros k c Hin.
    apply (fanout_addressed tcp_writer
             (λ c, send_tcp_message bo env (tcp_writer c) message)
             ltac:(intros y e; apply send_tcp_message_writer)
             (clients st).*2 c Hw).
    apply list_elem_of_fmap. by exists (k, c).
  - intros w Hnot.
    by apply (fanout_not_addressed tcp_writer
                (λ c, send_tcp_message bo env (tcp_writer c) message)
                ltac:(intros y e; apply send_tcp_message_writer)).
Qed.

(** X6. The user list goes to every session of the table, the session
    that caused it included: one send per session, each on that session's
    own stream and each carrying the same message, the JSON list of all
    sessions in registration order; nothing is addressed to a stream that
    is not in the table. *)
Theorem user_list_reaches_every_session (bo : byteorder) (env : Env)
    (st : ScalableCommServer) :
  registry_ok st →
  let message := "USERS:" +:+ Json.dumps_list (user_entry <$> (clients st).*2) in
  let effects := broadcast_user_list bo env st in
  length effects = length (clients st) ∧
  (∀ k c, (k, c) ∈ clients st →
     addressed_to (tcp_writer c) effects
     = send_tcp_message bo env (tcp_writer c) message) ∧
  (∀ w, w ∉ tcp_writer <$> (clients st).*2 → addressed_to w effects = []).
Proof. exact (broadcast_user_list_spec bo env st). Qed.

Lemma user_list_reaches_every_session_witness :
  registry_ok (server two_sessions) ∧
  let st := server two_sessions in
  let message := "USERS:" +:+ Json.dumps_list (user_entry <$> (clients st).*2) in
  let effects := broadcast_user_list LittleEndian quiet st in
  length effects = length (clients st) ∧
  (∀ k c, (k, c) ∈ clients st →
     addressed_to (tcp_writer c) effects
     = send_tcp_message LittleEndian quiet (tcp_writer c) message) ∧
  (∀ w, w ∉ tcp_writer <$> (clients st).*2 → addressed_to w effects = []).
Proof.
  split; [exact two_sessions_ok|].
  exact (user_list_reaches_every_session LittleEndian quiet (server two_sessions)
           two_sessions_ok).
Defined.

(** ** The liveness sweep on an arbitrary table *)

Lemma filter_ext_in {A} (P Q : A → Prop) `{!∀ x, Decision (P x)}
    `{!∀ x, Decision (Q x)} (l : list A) :
  (∀ x, x ∈ l → P x ↔ Q x) → filter P l = filter Q l.
Proof.
  induction l as [|a l IH]; intros Hext; [done|].
  rewrite !filter_cons.
  rewrite IH by (intros x Hx; apply Hext; by right).
  pose proof (Hext a ltac:(by left)) as Ha.
  destruct (decide (P a)), (decide (Q a)); tauto.
Qed.

Lemma dict_get_filter {V} (P : string * V → Prop) `{!∀ x, Decision (P x)}
    (d : dict V) (k : string) (v : V) :
  dict_get k d = Some v → P (k, v) → dict_get k (filter P d) = Some v.
Proof.
  induction d as [|[k' v'] d IH]; [done|]. simpl. intros Hget HP.
  rewrite filter_cons. destruct (decide (k' = k)) as [->|Hne].
  - injection Hget as ->. rewrite decide_True by done. simpl.
    by rewrite decide_True.
  - destruct (decide (P (k', v'))); [|by apply IH].
    simpl. rewrite decide_False by done. by apply IH.
Qed.

Lemma dict_get_filter_Some {V} (P : string * V → Prop) `{!∀ x, Decision (P x)}
    (d : dict V) (k : string) (v : V) :
  NoDup d.*1 → dict_get k (filter P d) = Some v →
  dict_get k d = Some v ∧ P (k, v).
Proof.
  intros Hnd Hget. apply dict_get_elem in Hget.
  apply list_elem_of_filter in Hget as [HP Hin].
  split; [by apply dict_get_NoDup|done].
Qed.

(** The deletions of the sweep, one key after the other. *)
Lemma sweep_deletions (st : ScalableCommServer) (l : list string) :
  let st1 := foldl (λ s client_id,
                      if dict_mem client_id (clients s)
                      then with_clients (dict_del client_id (clients s)) s
                      else s) st l in
  st1 = with_clients (filter (λ kv, kv.1 ∉ l) (clients st)) st.
Proof.
  revert st. induction l as [|k l IH]; intros st; simpl.
  - rewrite (list_filter_iff _ (λ _, True)) by (intros; split; [done|intros _ ?%elem_of_nil; done]).
    assert (filter (λ _ : string * Client, True) (clients st) = clients st) as ->.
    { induction (clients st) as [|a cs IHc]; [done|].
      by rewrite filter_cons, decide_True, IHc by done. }
    by destruct st.
  - rewrite IH.
    assert ((if dict_mem k (clients st)
             then with_clients (dict_del k (clients st)) st else st)
            = with_clients (dict_del k (clients st)) st) as ->.
    { unfold dict_mem. case_bool_decide as Hmem; [done|].
      rewrite dict_del_absent; [by destruct st|].
      apply dict_get_None. by apply eq_None_not_Some. }
    unfold with_clients. cbn. f_equal.
    unfold dict_del. rewrite list_filter_filter.
    apply list_filter_iff. intros [k' v]. simpl.
    rewrite not_elem_of_cons. tauto.
Qed.

Lemma inactive_for_300s_spec (now : Q) (c : Client) :
  inactive_for_300s now c = true ↔ (300 < now - last_seen c)%Q.
Proof.
  unfold inactive_for_300s. rewrite negb_true_iff.
  rewrite <-not_true_iff_false, Qle_bool_iff. split.
  - apply Qnot_le_lt.
  - apply Qlt_not_le.
Qed.

Lemma cleanup_inactive_clients_spec (bo : byteorder) (env : Env)
    (st : ScalableCommServer) (now : Q) :
  NoDup (clients st).*1 →
  let kept := filter (λ kv, inactive_for_300s now kv.2 = false) (clients st) in
  (cleanup_inactive_clients bo env st now).1 = with_clients kept st.
Proof.
  intros Hnd kept. unfold cleanup_inactive_clients.
  set (inactive := (filter _ (clients st)).*1).
  assert (foldl (λ s client_id,
                   if dict_mem client_id (clients s)
                   then with_clients (dict_del client_id (clients s)) s
                   else s) st inactive = with_clients kept st) as ->.
  { rewrite sweep_deletions. f_equal. subst kept.
    apply filter_ext_in. intros [k c] Hin. simpl. subst inactive.
    rewrite list_elem_of_fmap. split.
    - intros Hnot. destruct (inactive_for_300s now c) eqn:Hc; [|done].
      exfalso. apply Hnot. exists (k, c). split; [done|].
      apply list_elem_of_filter. split; [simpl; by rewrite Hc | done].
    - intros Hc ([k' c'] & Hk & Hin'). simpl in Hk. subst k'.
      apply list_elem_of_filter in Hin' as [Hc' Hin']. simpl in Hc'.
      assert ((k, c) = (k, c')) as [= ->]; [|by rewrite Hc in Hc'].
      by apply (NoDup_fmap_inj_on fst (clients st)). }
  by destruct inactive.
Qed.

(** X7. One round of the sweep removes from the table exactly the sessions
    last seen more than 300 seconds before the reading of the clock, and
    keeps every other record unchanged and in its place; a session last
    seen exactly 300 seconds before is kept.  When nothing is removed
    nothing is sent; otherwise the user list is broadcast to the sessions
    that remain. *)
Theorem sweep_evicts_exactly_the_silent (bo : byteorder) (env : Env)
    (st : ScalableCommServer) (now : Q) :
  registry_ok st →
  let r := cleanup_inactive_clients bo env st now in
  clients r.1 = filter (λ kv, inactive_for_300s now kv.2 = false) (clients st) ∧
  (∀ c, inactive_for_300s now c = true ↔ (300 < now - last_seen c)%Q) ∧
  (∀ k c, dict_get k (clients r.1) = Some c ↔
          dict_get k (clients st) = Some c ∧ (now - last_seen c <= 300)%Q) ∧
  (Forall (λ kv, (now - last_seen kv.2 <= 300)%Q) (clients st) → r = (st, [])) ∧
  (Exists (λ kv, (300 < now - last_seen kv.2)%Q) (clients st) →
   r.2 = broadcast_user_list bo env r.1).
Proof.
  intros (Hnd & _) r.
  pose proof (cleanup_inactive_clients_spec bo env st now Hnd) as Hspec.
  cbv zeta in Hspec. fold r in Hspec.
  assert (∀ c, inactive_for_300s now c = false ↔ (now - last_seen c <= 300)%Q)
    as Hactive.
  { intros c. rewrite <-not_true_iff_false, inactive_for_300s_spec. split.
    - apply Qnot_lt_le.
    - apply Qle_not_lt. }
  split_and!.
  - by rewrite Hspec.
  - apply inactive_for_300s_spec.
  - intros k c. rewrite Hspec. cbn [clients with_clients]. split.
    + intros [Hget Hc]%dict_get_filter_Some; [|done].
      split; [done|]. by apply Hactive.
    + intros [Hget Hc]. apply dict_get_filter; [done|]. by apply Hactive.
  - intros Hall. subst r. unfold cleanup_inactive_clients.
    assert (filter (λ kv : string * Client, inactive_for_300s now kv.2)
                   (clients st) = []) as ->; [|done].
    clear Hspec Hnd. revert Hall. generalize (clients st). intros cs Hall.
    induction Hall as [|kv cs Hkv Hall IH]; [done|].
    rewrite filter_cons, decide_False; [done|].
    apply Hactive in Hkv. rewrite Hkv. intros [].
  - intros Hex. subst r. unfold cleanup_inactive_clients.
    destruct (filter (λ kv : string * Client, inactive_for_300s now kv.2)
                     (clients st)) as [|kv l] eqn:Hf; [|done].
    exfalso. apply Exists_exists in Hex as (kv & Hin & Hkv).
    assert (kv ∈ filter (λ kv : string * Client, inactive_for_300s now kv.2)
                        (clients st)) as Hin'.
    { apply list_elem_of_filter. split; [|done].
      apply Is_true_true. by apply inactive_for_300s_spec. }
    rewrite Hf in Hin'. by apply elem_of_nil in Hin'.
Qed.

Lemma sweep_evicts_exactly_the_silent_witness :
  registry_ok (server two_sessions) ∧
  let st := server two_sessions in
  let r := cleanup_inactive_clients LittleEndian quiet st 1300.6 in
  clients r.1 = filter (λ kv, inactive_for_300s 1300.6 kv.2 = false) (clients st) ∧
  (∀ c, inactive_for_300s 1300.6 c = true ↔ (300 < 1300.6 - last_seen c)%Q) ∧
  (∀ k c, dict_get k (clients r.1) = Some c ↔
          dict_get k (clients st) = Some c ∧ (1300.6 - last_seen c <= 300)%Q) ∧
  (Forall (λ kv, (1300.6 - last_seen kv.2 <= 300)%Q) (clients st) → r = (st, [])) ∧
  (Exists (λ kv, (300 < 1300.6 - last_seen kv.2)%Q) (clients st) →
   r.2 = broadcast_user_list LittleEndian quiet r.1).
Proof.
  split; [exact two_sessions_ok|].
  exact (sweep_evicts_exactly_the_silent LittleEndian quiet (server two_sessions)
           1300.6 two_sessions_ok).
Defined.

(** What one message can do to the table: nothing, or the assignments of
    a control word on the record of the sending session. *)
Lemma process_tcp_message_clients (bo : byteorder) (env : Env)
    (st : ScalableCommServer) (cid : string) (data : list byte) :
  clients (process_tcp_message bo env st cid data).1 = clients st ∨
  ∃ c control,
    dict_get cid (clients st) = Some c ∧
    clients (process_tcp_message bo env st cid data).1
    = dict_set cid (apply_control control c) (clients st).
Proof.
  unfold process_tcp_message.
  destruct (decode data) as [message|]; [|by left].
  repeat case_match; try by left.
  unfold handle_control.
  destruct (dict_get cid (clients st)) as [c|] eqn:Hget; [|by left].
  right. by exists c, (str_drop 8 message).
Qed.

(** X8. A session whose frame the server has read at time [t] is still in
    the table after any sweep that runs no later than 300 seconds after
    [t], with its name and stream as before and [t] as its last-seen
    time, whatever the frame contained. *)
Theorem active_session_survives_sweep (bo : byteorder) (env env' : Env)
    (st : ScalableCommServer) (cid : string) (c : Client) (writer : handle)
    (payload data rest : list byte) (t now : Q) :
  registry_ok st →
  dict_get cid (clients st) = Some c →
  frame bo payload = Some data →
  (now - t <= 300)%Q →
  let st1 := (handle_tcp_client_iteration bo env st cid writer (data ++ rest) t).1.1 in
  let st2 := (cleanup_inactive_clients bo env' st1 now).1 in
  ∃ c', dict_get cid (clients st2) = Some c' ∧
        last_seen c' = t ∧ username c' = username c ∧
        tcp_writer c' = tcp_writer c.
Proof.
  intros (Hnd & _) Hget Hf Hnow st1 st2.
  set (st0 := with_clients (dict_set cid (set_last_seen t c) (clients st)) st).
  assert (st1 = (process_tcp_message bo env st0 cid payload).1) as Hst1.
  { subst st1. by rewrite (handle_tcp_client_iteration_read _ _ _ _ _ _ _ _ _ _ Hget Hf). }
  assert (NoDup (clients st0).*1) as Hnd0 by by apply dict_set_NoDup.
  assert (dict_get cid (clients st0) = Some (set_last_seen t c)) as Hget0
    by apply dict_get_set_eq.
  assert (NoDup (clients st1).*1 ∧
          ∃ c', dict_get cid (clients st1) = Some c' ∧ last_seen c' = t ∧
                username c' = username c ∧ tcp_writer c' = tcp_writer c)
    as (Hnd1 & c' & Hget1 & Hseen & Hname & Hw).
  { rewrite Hst1.
    destruct (process_tcp_message_clients bo env st0 cid payload)
      as [->|(c0 & control & Hc0 & ->)].
    - split; [done|]. by exists (set_last_seen t c).
    - split; [by apply dict_set_NoDup|].
      rewrite Hget0 in Hc0. injection Hc0 as <-.
      exists (apply_control control (set_last_seen t c)).
      rewrite dict_get_set_eq.
      destruct (apply_control_fields control (set_last_seen t c))
        as (_ & Hu & Hw & _ & _ & Hl & _).
      by rewrite Hu, Hw, Hl. }
  exists c'. split; [|done].
  subst st2. rewrite (cleanup_inactive_clients_spec bo env' st1 now Hnd1).
  cbn [clients with_clients]. apply dict_get_filter; [done|]. simpl.
  apply not_true_iff_false. rewrite inactive_for_300s_spec, Hseen.
  by apply Qle_not_lt.
Qed.

Lemma active_session_survives_sweep_witness :
  registry_ok (server two_sessions) ∧
  (1301 - 1001 <= 300)%Q ∧
  ∃ c data,
    dict_get alice_id (clients (server two_sessions)) = Some c ∧
    frame LittleEndian (encode "CHAT:hi") = Some data ∧
    let st1 := (handle_tcp_client_iteration LittleEndian quiet (server two_sessions)
                  alice_id 0 (data ++ []) 1001).1.1 in
    let st2 := (cleanup_inactive_clients LittleEndian quiet st1 1301).1 in
    ∃ c', dict_get alice_id (clients st2) = Some c' ∧
          last_seen c' = 1001%Q ∧ username c' = username c ∧
          tcp_writer c' = tcp_writer c.
Proof.
  split; [exact two_sessions_ok|]. split; [vm_compute; discriminate|].
  eexists _, _. split; [vm_compute; reflexivity|]. split; [vm_compute; reflexivity|].
  eapply (active_session_survives_sweep LittleEndian quiet quiet (server two_sessions)
            alice_id _ 0 (encode "CHAT:hi") _ [] 1001 1301 two_sessions_ok);
    [vm_compute; reflexivity | vm_compute; reflexivity | vm_compute; discriminate].
Defined.

(** X9. A session that the sweep finds silent for more than 300 seconds is
    gone from the table, and whatever arrives next on its connection, a
    complete frame included, is not processed: the server stays as the
    sweep left it and only closes the connection. *)
Theorem evicted_session_closed_on_next_frame (bo : byteorder) (env env' : Env)
    (st : ScalableCommServer) (cid : string) (c : Client) (writer : handle)
    (stream : list byte) (now t : Q) :
  registry_ok st →
  dict_get cid (clients st) = Some c →
  (300 < now - last_seen c)%Q →
  let st1 := (cleanup_inactive_clients bo env st now).1 in
  dict_get cid (clients st1) = None ∧
  handle_tcp_client_iteration bo env' st1 cid writer stream t
  = (st1, [Closed writer], None).
Proof.
  intros (Hnd & _) Hget Hsilent st1.
  assert (dict_get cid (clients st1) = None) as Hgone.
  { subst st1. rewrite (cleanup_inactive_clients_spec bo env st now Hnd).
    cbn [clients with_clients].
    destruct (dict_get cid (filter _ (clients st))) as [c'|] eqn:Hc'; [|done].
    apply dict_get_filter_Some in Hc' as [Hc' Hactive]; [|done].
    rewrite Hget in Hc'. injection Hc' as <-. simpl in Hactive.
    apply inactive_for_300s_spec in Hsilent. congruence. }
  split; [done|]. unfold handle_tcp_client_iteration, handle_tcp_client_finally.
  rewrite Hgone. destruct (read_frame bo stream) as [[payload rest]|];
    by case_decide.
Qed.

Lemma evicted_session_closed_on_next_frame_witness :
  registry_ok (server two_sessions) ∧
  ∃ c,
    dict_get alice_id (clients (server two_sessions)) = Some c ∧
    (300 < 1300.6 - last_seen c)%Q ∧
    let st1 := (cleanup_inactive_clients LittleEndian quiet (server two_sessions)
                  1300.6).1 in
    dict_get alice_id (clients st1) = None ∧
    handle_tcp_client_iteration LittleEndian quiet st1 alice_id 0
      ([x04; x00; x00; x00] ++ encode "PING") 1301
    = (st1, [Closed 0], None).
Proof.
  split; [exact two_sessions_ok|].
  eexists. split; [vm_compute; reflexivity|]. split; [vm_compute; reflexivity|].
  eapply (evicted_session_closed_on_next_frame LittleEndian quiet quiet
            (server two_sessions) alice_id _ 0 _ 1300.6 1301 two_sessions_ok);
    vm_compute; reflexivity.
Defined.

(** ** The end of a connection *)

(** Without a record under the id there is nothing to remove. *)
Lemma handle_tcp_client_finally_absent (bo : byteorder) (env : Env)
    (st : ScalableCommServer) (cid : string) (writer : handle) :
  cid = "" ∨ dict_get cid (clients st) = None →
  handle_tcp_client_finally bo env st (Some cid) writer = (st, [Closed writer]).
Proof.
  intros Habsent. unfold handle_tcp_client_finally.
  case_decide as Hne; [|done].
  destruct Habsent as [Hempty|Hnone]; [done|]. by rewrite Hnone.
Qed.

(** X10. The [finally] block is idempotent: once it has run for an id, a
    second run for the same id (as by another connection that was given
    the same id) changes nothing in the server, broadcasts nothing and
    only closes its own stream. *)
Theorem closing_twice_changes_nothing (bo : byteorder) (env env' : Env)
    (st : ScalableCommServer) (client_id : option string) (writer writer' : handle) :
  let st1 := (handle_tcp_client_finally bo env st client_id writer).1 in
  handle_tcp_client_finally bo env' st1 client_id writer' = (st1, [Closed writer']).
Proof.
  intros st1. destruct client_id as [cid|]; [|done].
  apply handle_tcp_client_finally_absent.
  destruct (decide (cid = "")) as [|Hne]; [by left|]. right.
  destruct (dict_get cid (clients st)) as [c|] eqn:Hget.
  - subst st1.
    destruct (session_end_registered bo env st cid c writer Hne Hget) as (-> & _).
    apply dict_get_del_eq.
  - subst st1. rewrite handle_tcp_client_finally_absent by by right. done.
Qed.

(** X11. When the connection of a registered session ends, the session is
    removed from the table and every other record stays; each remaining
    session gets, on its own stream, exactly one send of the user list of
    the remaining sessions, and the stream of the session that ended gets
    no user list: it is only closed. *)
Theorem closing_notifies_the_remaining (bo : byteorder) (env : Env)
    (st : ScalableCommServer) (cid : string) (c : Client) :
  registry_ok st →
  cid ≠ "" →
  dict_get cid (clients st) = Some c →
  let r := handle_tcp_client_finally bo env st (Some cid) (tcp_writer c) in
  let message :=
    "USERS:" +:+ Json.dumps_list (user_entry <$> (dict_del cid (clients st)).*2) in
  clients r.1 = dict_del cid (clients st) ∧
  dict_get cid (clients r.1) = None ∧
  (∀ k, k ≠ cid → dict_get k (clients r.1) = dict_get k (clients st)) ∧
  length r.2 = length (clients st) ∧
  (∀ k c', (k, c') ∈ clients st → k ≠ cid →
     addressed_to (tcp_writer c') r.2
     = send_tcp_message bo env (tcp_writer c') message) ∧
  addressed_to (tcp_writer c) r.2 = [Closed (tcp_writer c)].
Proof.
  intros Hok Hne Hget r message.
  destruct (session_end_registered bo env st cid c (tcp_writer c) Hne Hget)
    as (Hcs & _ & _). fold r in Hcs.
  set (st' := r.1) in *.
  assert (r.2 = broadcast_user_list bo env st' ++ [Closed (tcp_writer c)]) as Heff.
  { subst st' r. unfold handle_tcp_client_finally.
    rewrite decide_True, Hget by done. by case_decide. }
  assert (registry_ok st') as Hok'.
  { unfold registry_ok. rewrite Hcs. by apply clients_ok_del. }
  destruct (broadcast_user_list_spec bo env st' Hok') as (Hlen & Hthem & Hnot).
  rewrite Hcs in Hlen, Hthem, Hnot. fold message in Hthem.
  destruct Hok as (Hnd & Hw & Hn).
  assert (∀ k c', (k, c') ∈ clients st → k ≠ cid → tcp_writer c' ≠ tcp_writer c)
    as Hdistinct.
  { intros k c' Hin Hk Heq. apply Hk.
    apply dict_get_elem in Hget. rewrite <-list_fmap_compose in Hw.
    assert ((k, c') = (cid, c)) as [= ? ?]; [|done].
    by apply (NoDup_fmap_inj_on (tcp_writer ∘ snd) (clients st)). }
  split_and!.
  - done.
  - rewrite Hcs. apply dict_get_del_eq.
  - intros k Hk. rewrite Hcs. by apply dict_get_del_ne.
  - rewrite Heff, length_app, Hlen. simpl.
    rewrite (dict_del_length _ _ c) by done.
    apply dict_get_elem, list_elem_of_lookup in Hget as [i Hi].
    apply lookup_lt_Some in Hi. lia.
  - intros k c' Hin Hk. rewrite Heff. unfold addressed_to. rewrite filter_app.
    fold (addressed_to (tcp_writer c') (broadcast_user_list bo env st')).
    rewrite (Hthem k c') by by apply dict_del_elem.
    rewrite filter_cons, decide_False, filter_nil, (right_id_L [] (++)); [done|].
    simpl. intros [= Heq]. by eapply Hdistinct.
  - rewrite Heff. unfold addressed_to. rewrite filter_app.
    fold (addressed_to (tcp_writer c) (broadcast_user_list bo env st')).
    rewrite Hnot.
    + by rewrite filter_cons, decide_True.
    + intros Hin. apply list_elem_of_fmap in Hin as (c' & Heq & Hin).
      apply list_elem_of_fmap in Hin as ([k c''] & -> & Hin).
      apply dict_del_elem in Hin as [Hk Hin]. simpl in *.
      by eapply Hdistinct.
Qed.

Lemma closing_notifies_the_remaining_witness :
  registry_ok (server two_sessions) ∧
  alice_id ≠ "" ∧
  ∃ c,
    dict_get alice_id (clients (server two_sessions)) = Some c ∧
    let st := server two_sessions in
    let r := handle_tcp_client_finally LittleEndian quiet st (Some alice_id)
               (tcp_writer c) in
    let message :=
      "USERS:" +:+ Json.dumps_list (user_entry <$> (dict_del alice_id (clients st)).*2) in
    clients r.1 = dict_del alice_id (clients st) ∧
    dict_get alice_id (clients r.1) = None ∧
    (∀ k, k ≠ alice_id → dict_get k (clients r.1) = dict_get k (clients st)) ∧
    length r.2 = length (clients st) ∧
    (∀ k c', (k, c') ∈ clients st → k ≠ alice_id →
       addressed_to (tcp_writer c') r.2
       = send_tcp_message LittleEndian quiet (tcp_writer c') message) ∧
    addressed_to (tcp_writer c) r.2 = [Closed (tcp_writer c)].
Proof.
  split; [exact two_sessions_ok|]. split; [discriminate|].
  eexists. split; [vm_compute; reflexivity|].
  apply (closing_notifies_the_remaining LittleEndian quiet (server two_sessions)
           alice_id _ two_sessions_ok); [discriminate | vm_compute; reflexivity].
Defined.

(** ** Stripping white space *)

Lemma lstrip_cps_suffix (cs : list N) :
  ∃ ws, cs = ws ++ lstrip_cps cs ∧ Forall (λ c, is_whitespace c = true) ws.
Proof.
  induction cs as [|c cs (ws & IH & Hws)]; [by exists []|].
  simpl. destruct (is_whitespace c) eqn:Hc.
  - exists (c :: ws). split; [by rewrite <-app_comm_cons, <-IH|by constructor].
  - by exists [].
Qed.

Lemma lstrip_cps_head (cs : list N) :
  match lstrip_cps cs with
  | c :: _ => is_whitespace c = false
  | [] => True
  end.
Proof.
  induction cs as [|c cs IH]; [done|]. simpl.
  by destruct (is_whitespace c) eqn:Hc.
Qed.

Lemma lstrip_cps_fixed (cs : list N) :
  match cs with
  | c :: _ => is_whitespace c = false
  | [] => True
  end → lstrip_cps cs = cs.
Proof. destruct cs as [|c cs]; [done|]. simpl. by intros ->. Qed.

Lemma lstrip_cps_idemp (cs : list N) : lstrip_cps (lstrip_cps cs) = lstrip_cps cs.
Proof. apply lstrip_cps_fixed, lstrip_cps_head. Qed.

Lemma rstrip_cps_prefix (cs : list N) :
  ∃ ws, cs = rstrip_cps cs ++ ws ∧ Forall (λ c, is_whitespace c = true) ws.
Proof.
  destruct (lstrip_cps_suffix (rev cs)) as (ws & Heq & Hws).
  exists (rev ws). split.
  - unfold rstrip_cps. rewrite <-rev_app_distr, <-Heq. by rewrite rev_involutive.
  - by apply List.Forall_rev.
Qed.

Lemma rstrip_cps_idemp (cs : list N) : rstrip_cps (rstrip_cps cs) = rstrip_cps cs.
Proof. unfold rstrip_cps. by rewrite rev_involutive, lstrip_cps_idemp. Qed.

Lemma lstrip_cps_rstrip_cps (cs : list N) :
  lstrip_cps cs = cs → lstrip_cps (rstrip_cps cs) = rstrip_cps cs.
Proof.
  intros Hfix. apply lstrip_cps_fixed.
  destruct (rstrip_cps_prefix cs) as (ws & Heq & _).
  destruct (rstrip_cps cs) as [|a m]; [done|].
  pose proof (lstrip_cps_head cs) as Hh. rewrite Hfix in Hh.
  rewrite Heq in Hh. exact Hh.
Qed.

Lemma codepoints_str_of_codepoints (cs : list N) :
  Forall scalar cs → codepoints (str_of_codepoints cs) = cs.
Proof.
  intros Hcs. unfold codepoints, str_of_codepoints, encode.
  rewrite list_byte_of_string_of_list_byte.
  by rewrite utf8_codepoints_encode.
Qed.

(** [strip] is idempotent: a stripped name has no white space left at
    either end. *)
Lemma strip_idemp (s : string) : strip (strip s) = strip s.
Proof.
  unfold strip at 1. fold (rstrip_cps (lstrip_cps (codepoints (strip s)))).
  unfold strip at 1. fold (rstrip_cps (lstrip_cps (codepoints s))).
  rewrite codepoints_str_of_codepoints.
  - rewrite lstrip_cps_rstrip_cps by apply lstrip_cps_idemp.
    rewrite rstrip_cps_idemp. done.
  - unfold rstrip_cps. apply List.Forall_rev, lstrip_cps_Forall, List.Forall_rev.
    apply lstrip_cps_Forall, codepoints_scalar.
Qed.

(** ** The consistency of the three indexes *)

Lemma descends_refl (st : ScalableCommServer) : descends st st.
Proof.
  split_and!; try done. apply Forall_forall. intros [k c] Hin. by exists c.
Qed.

Lemma descends_trans (st1 st2 st3 : ScalableCommServer) :
  descends st1 st2 → descends st2 st3 → descends st1 st3.
Proof.
  intros (Hu & Hr & Hs & H12) (Hu' & Hr' & Hs' & H23).
  split_and!; try congruence.
  apply Forall_forall. intros kv3 Hin3.
  eapply Forall_forall in H23 as (c2 & Hin2 & Hid & Hname); [|exact Hin3].
  eapply Forall_forall in H12 as (c1 & Hin1 & Hid' & Hname'); [|exact Hin2].
  exists c1. simpl in *. split_and!; [done|congruence..].
Qed.

Lemma descends_update (st : ScalableCommServer) (k : string) (c c' : Client) :
  dict_get k (clients st) = Some c →
  client_id c' = client_id c → username c' = username c →
  descends st (with_clients (dict_set k c' (clients st)) st).
Proof.
  intros Hget Hid Hname. split_and!; try done.
  apply dict_set_Forall.
  - apply Forall_forall. intros [k0 c0] Hin. by exists c0.
  - exists c. split; [by apply dict_get_elem|done].
Qed.

Lemma descends_filter (st : ScalableCommServer) (P : string * Client → Prop)
    `{!∀ kv, Decision (P kv)} :
  descends st (with_clients (filter P (clients st)) st).
Proof.
  split_and!; try done.
  apply Forall_forall. intros [k c] [_ Hin]%list_elem_of_filter. by exists c.
Qed.

Lemma descends_counters (st st' : ScalableCommServer) (m b : Z) :
  descends st st' → descends st (with_total_bytes b (with_total_messages m st')).
Proof. by intros (? & ? & ? & ?). Qed.

Lemma with_counters_id (st : ScalableCommServer) :
  with_total_messages (total_messages st) st = st ∧
  with_total_bytes (total_bytes st) st = st ∧
  with_clients (clients st) st = st.
Proof. by destruct st. Qed.

Section Descent.

Variable bo : byteorder.
Variable env : Env.

Lemma process_tcp_message_descends st cid data :
  descends st (process_tcp_message bo env st cid data).1.
Proof.
  unfold process_tcp_message.
  destruct (decode data) as [message|]; [|apply descends_refl].
  repeat case_match; try apply descends_refl.
  - apply (descends_counters st st (total_messages st + 1) (total_bytes st)
             (descends_refl st)).
  - unfold handle_control.
    destruct (dict_get cid (clients st)) as [c|] eqn:Hget; [|apply descends_refl].
    destruct (apply_control_fields (str_drop 8 message) c) as (Hid & Hname & _).
    by apply (descends_update st cid c).
Qed.

Lemma handle_tcp_client_iteration_descends st cid writer stream now rest :
  (handle_tcp_client_iteration bo env st cid writer stream now).2 = Some rest →
  descends st (handle_tcp_client_iteration bo env st cid writer stream now).1.1.
Proof.
  unfold handle_tcp_client_iteration.
  destruct (read_frame bo stream) as [[data rest']|]; [|done].
  destruct (dict_get cid (clients st)) as [c|] eqn:Hget; [|done].
  match goal with |- context [process_tcp_message bo env ?s _ _] =>
    pose proof (process_tcp_message_descends s cid data) as Hp;
    destruct (process_tcp_message bo env s cid data) as [st2 effects]
  end.
  intros _. simpl in *. eapply descends_trans; [|exact Hp].
  by apply (descends_update st cid c).
Qed.

Lemma handle_tcp_client_iteration_left st cid writer stream now :
  (handle_tcp_client_iteration bo env st cid writer stream now).2 = None →
  (handle_tcp_client_iteration bo env st cid writer stream now).1
  = handle_tcp_client_finally bo env st (Some cid) writer.
Proof.
  unfold handle_tcp_client_iteration.
  destruct (read_frame bo stream) as [[data rest']|]; [|done].
  destruct (dict_get cid (clients st)) as [c|] eqn:Hget; [|done].
  by destruct (process_tcp_message _ _ _ _ _).
Qed.

Lemma handle_udp_streams_iteration_descends st data addr :
  descends st (handle_udp_streams_iteration bo env st data addr).1.
Proof.
  unfold handle_udp_streams_iteration.
  case_decide; [apply descends_refl|].
  destruct data as [|packet_type tl]; [apply descends_refl|].
  destruct (unpack_H bo _) as [len|]; [|apply descends_refl].
  case_decide; [apply descends_refl|].
  destruct (decode _) as [tag|]; [|apply descends_refl].
  assert (descends st (match dict_get tag (clients st) with
                       | Some client =>
                         with_clients (dict_set tag (set_udp_addr addr client)
                                                (clients st)) st
                       | None => st
                       end)) as Hst1.
  { destruct (dict_get tag (clients st)) as [c|] eqn:Hget; [|apply descends_refl].
    by apply (descends_update st tag c). }
  destruct (broadcast_udp _ _ _ _ _ _); [|done].
  cbn [fst]. destruct Hst1 as (? & ? & ? & ?). by split_and!.
Qed.

Lemma cleanup_inactive_clients_descends st now :
  descends st (cleanup_inactive_clients bo env st now).1.
Proof.
  unfold cleanup_inactive_clients.
  set (inactive := (filter _ (clients st)).*1).
  rewrite sweep_deletions. destruct inactive; apply descends_filter.
Qed.

End Descent.

Lemma directory_ok_descends (st st' : ScalableCommServer) :
  descends st st' → directory_ok st → directory_ok st'.
Proof.
  intros (Hu & Hr & _ & Hcs) [Hrec Hidx]. split.
  - apply Forall_forall. intros [k c'] Hin.
    eapply Forall_forall in Hcs as (c & Hin0 & Hid & Hname); [|exact Hin].
    eapply Forall_forall in Hrec as [(Hk & Ht & Hne & Hv & Hs) Hroom];
      [|exact Hin0].
    simpl in *. rewrite Hr. split; [|done].
    unfold session_ok. rewrite Hid, Hname. done.
  - intros n id. rewrite Hu, Hr. apply Hidx.
Qed.

Lemma directory_ok_register (st : ScalableCommServer) (text : string)
    (writer reader : handle) (peer : address) (t_id t_seen : Q) :
  strip text ≠ "" →
  directory_ok st →
  directory_ok (register st (make_client_id (strip text) t_id) (strip text)
                         writer reader peer t_seen).
Proof.
  intros Hname [Hrec Hidx]. unfold register. split; cbn.
  - apply dict_set_Forall.
    + eapply Forall_impl; [exact Hrec|]. intros [k c] [Hok Hroom]. simpl in *.
      split; [done|]. by apply elem_of_union_r.
    + simpl. split; [|apply elem_of_union_l; by apply elem_of_singleton].
      split_and!; [done|by exists t_id|done|apply valid_text_strip|apply strip_idemp].
  - intros n id Hlook. destruct (decide (strip text = n)) as [<-|Hne].
    + rewrite lookup_insert_eq in Hlook. injection Hlook as <-.
      split; [by exists t_id|]. apply elem_of_union_l. by apply elem_of_singleton.
    + rewrite lookup_insert_ne in Hlook by done.
      destruct (Hidx n id Hlook) as [Ht Hroom]. split; [done|].
      by apply elem_of_union_r.
Qed.

Lemma directory_ok_finally (bo : byteorder) (env : Env) (st : ScalableCommServer)
    (client_id : option string) (writer : handle) :
  directory_ok st →
  directory_ok (handle_tcp_client_finally bo env st client_id writer).1.
Proof.
  intros Hok. destruct client_id as [cid|]; [|done].
  destruct (decide (cid = "")) as [Hempty|Hne].
  { by rewrite handle_tcp_client_finally_absent by by left. }
  destruct (dict_get cid (clients st)) as [c|] eqn:Hget.
  2: { by rewrite handle_tcp_client_finally_absent by by right. }
  destruct (session_end_registered bo env st cid c writer Hne Hget)
    as (Hcs & Hidx' & Hroom').
  destruct Hok as [Hrec Hidx].
  assert (session_ok cid c) as (_ & [tc Htc] & _).
  { apply dict_get_elem in Hget.
    by eapply Forall_forall in Hrec as [Hc _]; [|exact Hget]. }
  split.
  - rewrite Hcs, Hroom'. apply Forall_forall. intros [k c'] Hin.
    apply dict_del_elem in Hin as [Hk Hin]. simpl in Hk.
    eapply Forall_forall in Hrec as [Hc' Hr]; [|exact Hin]. simpl in *.
    split; [done|]. apply elem_of_difference. split; [done|].
    by intros ->%elem_of_singleton.
  - intros n id. rewrite Hidx', Hroom'. intros Hlook.
    apply lookup_delete_Some in Hlook as [Hn Hlook].
    destruct (Hidx n id Hlook) as [[t Ht] Hr]. split; [by exists t|].
    apply elem_of_difference. split; [done|].
    intros ->%elem_of_singleton. rewrite Htc in Ht.
    apply make_client_id_inj in Ht as [Heq _]. done.
Qed.

Lemma directory_ok_step (bo : byteorder) (w : World) (ev : Env * event) :
  directory_ok (server w) → directory_ok (server (step bo w ev).1).
Proof.
  intros Hok. destruct ev as [env ev]. rewrite step_server.
  destruct ev as [peer incoming t_id t_seen| |cid writer stream now|data addr|now].
  - unfold handle_tcp_client_handshake.
    destruct (decode (take 1024 incoming)) as [text|]; [|done].
    case_decide; [done|]. cbn [fst]. by apply directory_ok_register.
  - done.
  - destruct (handle_tcp_client_iteration bo env (server w) cid writer stream now).2
      as [rest|] eqn:Hloop.
    + eapply directory_ok_descends; [|exact Hok].
      by eapply handle_tcp_client_iteration_descends.
    + rewrite handle_tcp_client_iteration_left by done.
      by apply directory_ok_finally.
  - eapply directory_ok_descends; [|exact Hok].
    apply handle_udp_streams_iteration_descends.
  - eapply directory_ok_descends; [|exact Hok].
    apply cleanup_inactive_clients_descends.
Qed.

Lemma reachable_directory_ok (bo : byteorder) (st : ScalableCommServer) :
  reachable bo st → directory_ok st.
Proof.
  intros (host & tcp_port & udp_port & evs & <-).
  assert (directory_ok (server (start host tcp_port udp_port))) as H0.
  { split; [apply Forall_nil_2|]. intros n id Hlook. simpl in Hlook.
    by rewrite lookup_empty in Hlook. }
  revert H0. generalize (start host tcp_port udp_port).
  induction evs as [|ev evs IH]; intros w Hw; [done|].
  simpl. apply IH. by apply directory_ok_step.
Qed.

(** X12. In every state the server can reach, each record of the table is
    stored under its own id; the id is its display name followed by [_]
    and the milliseconds of some clock reading; the display name is
    non-empty text that [strip] leaves unchanged; the id is a member of
    the room; and no two records share an id or a stream. *)
Theorem reachable_sessions_well_formed (bo : byteorder) (st : ScalableCommServer)
    (k : string) (c : Client) :
  reachable bo st →
  dict_get k (clients st) = Some c →
  client_id c = k ∧
  (∃ t, k = username c +:+ "_" +:+ str_of_int (int_of_float (t * 1000))) ∧
  username c ≠ "" ∧
  valid_text (username c) ∧
  strip (username c) = username c ∧
  k ∈ rooms_main st ∧
  (∀ k' c', dict_get k' (clients st) = Some c' → k' ≠ k →
            tcp_writer c' ≠ tcp_writer c).
Proof.
  intros Hreach Hget.
  destruct (reachable_directory_ok bo st Hreach) as [Hrec _].
  destruct (reachable_registry_ok bo st Hreach) as (Hnd & Hw & _).
  apply dict_get_elem in Hget.
  eapply Forall_forall in Hrec as [(Hk & Ht & Hne & Hv & Hs) Hroom]; [|exact Hget].
  simpl in *. split_and!; try done.
  intros k' c' Hget' Hk' Heq. apply Hk'.
  apply dict_get_elem in Hget'. rewrite <-list_fmap_compose in Hw.
  assert ((k', c') = (k, c)) as [= ? ?]; [|done].
  by apply (NoDup_fmap_inj_on (tcp_writer ∘ snd) (clients st)).
Qed.

Lemma reachable_sessions_well_formed_witness :
  reachable LittleEndian (server two_sessions) ∧
  ∃ c,
    dict_get alice_id (clients (server two_sessions)) = Some c ∧
    client_id c = alice_id ∧
    (∃ t, alice_id = username c +:+ "_" +:+ str_of_int (int_of_float (t * 1000))) ∧
    username c ≠ "" ∧
    valid_text (username c) ∧
    strip (username c) = username c ∧
    alice_id ∈ rooms_main (server two_sessions) ∧
    (∀ k' c', dict_get k' (clients (server two_sessions)) = Some c' →
              k' ≠ alice_id → tcp_writer c' ≠ tcp_writer c).
Proof.
  split; [exact two_sessions_reachable|].
  eexists. split; [vm_compute; reflexivity|].
  apply (reachable_sessions_well_formed LittleEndian (server two_sessions) alice_id _
           two_sessions_reachable).
  vm_compute; reflexivity.
Defined.

(** X13. In every state the server can reach, the name index maps a display
    name only to an id that was built from that very name, and every id it
    holds is a member of the room. *)
Theorem reachable_name_index_sound (bo : byteorder) (st : ScalableCommServer)
    (name id : string) :
  reachable bo st →
  username_to_id st !! name = Some id →
  (∃ t, id = name +:+ "_" +:+ str_of_int (int_of_float (t * 1000))) ∧
  id ∈ rooms_main st.
Proof.
  intros Hreach Hlook.
  destruct (reachable_directory_ok bo st Hreach) as [_ Hidx].
  exact (Hidx name id Hlook).
Qed.

Lemma reachable_name_index_sound_witness :
  reachable LittleEndian (server two_sessions) ∧
  username_to_id (server two_sessions) !! "bob"%string = Some bob_id ∧
  (∃ t, bob_id = "bob" +:+ "_" +:+ str_of_int (int_of_float (t * 1000))) ∧
  bob_id ∈ rooms_main (server two_sessions).
Proof.
  assert (username_to_id (server two_sessions) !! "bob"%string = Some bob_id) as Hlook
    by (vm_compute; reflexivity).
  split; [exact two_sessions_reachable|]. split; [exact Hlook|].
  exact (reachable_name_index_sound LittleEndian (server two_sessions) "bob" bob_id
           two_sessions_reachable Hlook).
Defined.

(** ** Frames in sequence *)

(** X14. Messages framed one after the other on a stream are read back by
    the message loop one per turn, in order and unchanged, and the loop
    leaves exactly what follows the last frame. *)
Theorem frames_read_back_in_order (bo : byteorder) (payloads : list (list byte))
    (rest : list byte) :
  Forall (λ payload, N.of_nat (length payload) < 2 ^ 32) payloads →
  ∃ data, frames bo payloads = Some data ∧
          read_frames bo (length payloads) (data ++ rest) = Some (payloads, rest).
Proof.
  intros Hsizes. unfold frames.
  induction Hsizes as [|payload payloads Hsize Hsizes (data & Hdata & IH)].
  - by exists [].
  - destruct (frame_Some bo payload Hsize) as (prefix & _ & Hf).
    apply fmap_Some in Hdata as (framed & Hframed & ->).
    exists ((prefix ++ payload) ++ mjoin framed). split.
    + cbn. rewrite Hf. cbn. rewrite Hframed. done.
    + cbn [length read_frames]. rewrite <-(assoc_L (++)).
      rewrite (read_frame_frame bo payload (prefix ++ payload) _ Hf).
      cbn. rewrite IH. done.
Qed.

Lemma frames_read_back_in_order_witness :
  Forall (λ payload, N.of_nat (length payload) < 2 ^ 32)
         [encode "PING"; []; encode "CHAT:hi"] ∧
  ∃ data, frames LittleEndian [encode "PING"; []; encode "CHAT:hi"] = Some data ∧
          read_frames LittleEndian (length [encode "PING"; []; encode "CHAT:hi"])
                      (data ++ [x07])
          = Some ([encode "PING"; []; encode "CHAT:hi"], [x07]).
Proof.
  assert (Forall (λ payload, N.of_nat (length payload) < 2 ^ 32)
                 [encode "PING"; []; encode "CHAT:hi"]) as Hsizes.
  { repeat constructor. }
  split; [exact Hsizes|].
  exact (frames_read_back_in_order LittleEndian [encode "PING"; []; encode "CHAT:hi"]
           [x07] Hsizes).
Defined.

(** ** The statistics *)

Ltac grows_weaken H :=
  destruct H as (? & ? & ?); unfold grows; cbn [fst]; split; [done|lia].

Ltac grows_done := unfold grows in *; cbn in *; split; [tauto|lia].

Section Statistics.

Variable bo : byteorder.
Variable env : Env.

Lemma process_tcp_message_grows st cid data :
  grows 1%Z 0%Z st (process_tcp_message bo env st cid data).1.
Proof.
  unfold process_tcp_message.
  destruct (decode data) as [message|]; [|grows_done].
  repeat case_match; try (grows_done).
  unfold handle_control.
  destruct (dict_get cid (clients st)) as [c|]; grows_done.
Qed.

Lemma handle_tcp_client_finally_grows st client_id writer :
  grows 0%Z 0%Z st (handle_tcp_client_finally bo env st client_id writer).1.
Proof.
  unfold handle_tcp_client_finally.
  destruct client_id as [cid|]; [|grows_done].
  case_decide; [|grows_done].
  destruct (dict_get cid (clients st)) as [c|]; [|grows_done].
  cbn [fst]. case_decide; grows_done.
Qed.

Lemma handle_tcp_client_iteration_grows st cid writer stream now :
  grows 1%Z 0%Z st (handle_tcp_client_iteration bo env st cid writer stream now).1.1.
Proof.
  pose proof (handle_tcp_client_finally_grows st (Some cid) writer) as Hfin.
  unfold handle_tcp_client_iteration.
  destruct (read_frame bo stream) as [[data rest']|]; [|grows_weaken Hfin].
  destruct (dict_get cid (clients st)) as [c|] eqn:Hget; [|grows_weaken Hfin].
  match goal with |- context [process_tcp_message bo env ?s _ _] =>
    pose proof (process_tcp_message_grows s cid data) as Hp;
    destruct (process_tcp_message bo env s cid data) as [st2 effects]
  end.
  grows_done.
Qed.

Lemma handle_udp_streams_iteration_grows st data addr :
  grows 0%Z (Z.of_nat (length data)) st (handle_udp_streams_iteration bo env st data addr).1.
Proof.
  unfold handle_udp_streams_iteration.
  case_decide; [grows_done|].
  destruct data as [|packet_type tl]; [grows_done|].
  destruct (unpack_H bo _) as [len|]; [|grows_done].
  case_decide; [grows_done|].
  destruct (decode _) as [tag|]; [|grows_done].
  destruct (dict_get tag (clients st)) as [c|];
    destruct (broadcast_udp _ _ _ _ _ _); grows_done.
Qed.

Lemma cleanup_inactive_clients_grows st now :
  grows 0%Z 0%Z st (cleanup_inactive_clients bo env st now).1.
Proof.
  unfold cleanup_inactive_clients.
  set (inactive := (filter _ (clients st)).*1).
  rewrite sweep_deletions. destruct inactive; grows_done.
Qed.

Lemma handle_tcp_client_handshake_grows st writer peer incoming t_id t_seen :
  grows 0%Z 0%Z st
        (handle_tcp_client_handshake bo env st writer peer incoming t_id t_seen).1.1.
Proof.
  unfold handle_tcp_client_handshake.
  destruct (decode (take 1024 incoming)) as [text|]; [|grows_done].
  case_decide; grows_done.
Qed.

End Statistics.

Lemma step_statistics (bo : byteorder) (w : World) (ev : Env * event) :
  let st := server w in
  let st' := server (step bo w ev).1 in
  settings st' = settings st ∧
  (total_messages st ≤ total_messages st' ≤ total_messages st + frame_read ev)%Z ∧
  (total_bytes st ≤ total_bytes st' ≤ total_bytes st + datagram_length ev)%Z.
Proof.
  destruct ev as [env ev]. cbv zeta. rewrite step_server.
  unfold frame_read, datagram_length.
  destruct ev as [peer incoming t_id t_seen| |cid writer stream now|data addr|now];
    cbn [snd].
  - pose proof (handle_tcp_client_handshake_grows bo env (server w) (accepted w)
                  peer incoming t_id t_seen). grows_done.
  - split; [done|lia].
  - pose proof (handle_tcp_client_iteration_grows bo env (server w) cid writer
                  stream now). grows_done.
  - pose proof (handle_udp_streams_iteration_grows bo env (server w) data addr).
    grows_done.
  - pose proof (cleanup_inactive_clients_grows bo env (server w) now). grows_done.
Qed.

Lemma run_statistics (bo : byteorder) (w : World) (evs : list (Env * event)) :
  let st := server w in
  let st' := server (run bo w evs) in
  settings st' = settings st ∧
  (total_messages st ≤ total_messages st'
   ≤ total_messages st + frames_received evs)%Z ∧
  (total_bytes st ≤ total_bytes st'
   ≤ total_bytes st + datagram_bytes_received evs)%Z.
Proof.
  revert w. induction evs as [|ev evs IH]; intros w.
  - cbn. split; [done|lia].
  - destruct (step_statistics bo w ev) as (Hs & Hm & Hb).
    destruct (IH (step bo w ev).1) as (Hs' & Hm' & Hb').
    cbv zeta. change (run bo w (ev :: evs)) with (run bo (step bo w ev).1 evs).
    change (frames_received (ev :: evs))
      with (frame_read ev + frames_received evs)%Z.
    change (datagram_bytes_received (ev :: evs))
      with (datagram_length ev + datagram_bytes_received evs)%Z.
    split; [congruence|]. lia.
Qed.

(** X15. Whatever the server has gone through since it was started, its
    host and ports are those it was started with, its message counter
    lies between 0 and the number of reads of the message loops, and its
    byte counter lies between 0 and the total length of the datagrams it
    received: the counters never decrease and never count traffic that
    did not arrive. *)
Theorem statistics_bounded_by_traffic (bo : byteorder) (host : string)
    (tcp_port udp_port : Z) (evs : list (Env * event)) :
  let st := server (run bo (start host tcp_port udp_port) evs) in
  settings st = (host, tcp_port, udp_port) ∧
  (0 ≤ total_messages st ≤ frames_received evs)%Z ∧
  (0 ≤ total_bytes st ≤ datagram_bytes_received evs)%Z.
Proof.
  destruct (run_statistics bo (start host tcp_port udp_port) evs) as (Hs & Hm & Hb).
  cbn in *. split; [done|]. lia.
Qed.

(** ** The client's receiving loop *)

(** X16. The receiving thread of the client delivers nothing.  When
    [connect] returns [True] it has marked the client as connected and
    started the thread on [receive_tcp_loop], so the loop is entered.  The
    first statement of the loop sets a time-out of one second on the
    socket of the asyncio transport, which accepts the time-out zero
    only; the exception ends the loop.  So whatever is on the stream and
    whatever the calls of [recv] would meet, the first turn leaves the
    loop: nothing is read, no callback is called, and the client is still
    marked as connected. *)
Theorem receive_tcp_loop_reads_nothing (J : Type) (json_loads : string → option J)
    (bo : byteorder) (cl : ClientCore.ScalableCommClient) (name : string)
    (net : ClientCore.connection) (cbs : ClientControl.Callbacks)
    (stream : list byte) (schedule : list ClientControl.recv_outcome) :
  let r := ClientCore.connect bo cl name net in
  r.2 = true →
  ClientCore.connected r.1.1 = true ∧
  ClientCore.tcp_thread r.1.1 = true ∧
  ClientControl.settimeout 1.0 = None ∧
  ClientControl.receive_tcp_loop_iteration J json_loads bo cbs stream schedule
  = ClientControl.Stop true.
Proof.
  cbv zeta. intros Hr.
  assert (ClientCore.connected (ClientCore.connect bo cl name net).1.1 = true ∧
          ClientCore.tcp_thread (ClientCore.connect bo cl name net).1.1 = true)
    as [Hconn Hthread].
  { revert Hr. unfold ClientCore.connect.
    destruct net as [|h drain_fails reply]; [done|].
    destruct drain_fails; [done|].
    destruct (read_frame bo reply) as [[data rest]|]; [|done].
    destruct (decode data) as [response|]; [|done].
    destruct (startswith "CONNECTED:" response); [|done].
    by destruct (ClientCore.split_colon response !! 1%nat). }
  by split_and!.
Qed.

Lemma receive_tcp_loop_reads_nothing_witness :
  let r := ClientCore.connect LittleEndian fresh_client "alice"
             (ClientCore.Established 7 false alice_welcome) in
  r.2 = true ∧
  ClientCore.client_id r.1.1 = Some alice_id ∧
  ClientCore.connected r.1.1 = true ∧
  ClientCore.tcp_thread r.1.1 = true ∧
  ClientControl.settimeout 1.0 = None ∧
  ClientControl.receive_tcp_loop_iteration unit (λ _, None) LittleEndian
    (ClientControl.mkCallbacks true true true true)
    ([x0d; x00; x00; x00] ++ encode "CHAT:bob:hello")
    (replicate 20 (ClientControl.Ready 4096))
  = ClientControl.Stop true.
Proof.
  cbv zeta. split; [vm_compute; reflexivity|]. split; [vm_compute; reflexivity|].
  apply (receive_tcp_loop_reads_nothing unit (λ _, None) LittleEndian fresh_client
           "alice" (ClientCore.Established 7 false alice_welcome)).
  vm_compute. reflexivity.
Defined.

(** ** What the client shows of a chat message *)

Lemma split_colon_1_app (name text : string) :
  colon_free name →
  ClientControl.split_colon_1 (name +:+ ":" +:+ text) = [name; text].
Proof.
  unfold colon_free. induction name as [|c name IH]; intros Hfree.
  - done.
  - change (String c name +:+ ":" +:+ text) with (String c (name +:+ ":" +:+ text)).
    simpl in Hfree. apply not_elem_of_cons in Hfree as [Hc Hfree].
    cbn [ClientControl.split_colon_1].
    rewrite decide_False by done. by rewrite IH.
Qed.

Lemma split_colon_1_app_inv (name text : string) :
  ClientControl.split_colon_1 (name +:+ ":" +:+ text) = [name; text] →
  colon_free name.
Proof.
  unfold colon_free. induction name as [|c name IH]; intros Hsplit.
  - apply not_elem_of_nil.
  - change (String c name +:+ ":" +:+ text) with (String c (name +:+ ":" +:+ text))
      in Hsplit.
    cbn [ClientControl.split_colon_1] in Hsplit.
    destruct (decide (c = ":"%char)) as [->|Hc]; [done|].
    simpl. apply not_elem_of_cons. split; [done|]. apply IH.
    destruct (ClientControl.split_colon_1 (name +:+ ":" +:+ text)) as [|h t];
      [done|].
    by injection Hsplit as -> ->.
Qed.

Lemma process_chat (J : Type) (json_loads : string → option J)
    (cbs : ClientControl.Callbacks) (name text : string) :
  ClientControl.on_chat_message cbs = true →
  colon_free name →
  ClientControl._process_tcp_message_sync J json_loads cbs
    ("CHAT:" +:+ name +:+ ":" +:+ text)
  = [ClientControl.ChatMessage name text].
Proof.
  intros Hcb Hfree. unfold ClientControl._process_tcp_message_sync.
  rewrite startswith_app.
  change (str_drop 5) with (str_drop (String.length "CHAT:")).
  rewrite str_drop_app, split_colon_1_app by done. by rewrite Hcb.
Qed.

(** X18. A chat or file message relayed by the server, [CHAT:<name>:<text>]
    or [FILE_META:<name>:<meta>], reaches the callback of the client with
    exactly the sender's display name and exactly the text, colons in the
    text included, if and only if the display name contains no colon; the
    client cuts the message at its first colon. *)
Theorem relayed_message_shown_as_sent (J : Type) (json_loads : string → option J)
    (cbs : ClientControl.Callbacks) (name text : string) :
  ClientControl.on_chat_message cbs = true →
  ClientControl.on_file_meta cbs = true →
  (ClientControl._process_tcp_message_sync J json_loads cbs
     ("CHAT:" +:+ name +:+ ":" +:+ text)
   = [ClientControl.ChatMessage name text] ↔ colon_free name) ∧
  (ClientControl._process_tcp_message_sync J json_loads cbs
     ("FILE_META:" +:+ name +:+ ":" +:+ text)
   = [ClientControl.FileMeta name text] ↔ colon_free name).
Proof.
  intros Hchat Hfile. split; (split; [|intros Hfree]).
  - unfold ClientControl._process_tcp_message_sync.
    rewrite startswith_app.
    change (str_drop 5) with (str_drop (String.length "CHAT:")).
    rewrite str_drop_app, Hchat. intros Hcalls.
    apply (split_colon_1_app_inv name text).
    destruct (ClientControl.split_colon_1 (name +:+ ":" +:+ text))
      as [|a [|b [|c l]]]; try done.
    by injection Hcalls as -> ->.
  - by apply process_chat.
  - unfold ClientControl._process_tcp_message_sync.
    assert (startswith "CHAT:" ("FILE_META:" +:+ name +:+ ":" +:+ text) = false)
      as -> by done.
    assert (startswith "USERS:" ("FILE_META:" +:+ name +:+ ":" +:+ text) = false)
      as -> by done.
    assert (startswith "STATUS:" ("FILE_META:" +:+ name +:+ ":" +:+ text) = false)
      as -> by done.
    rewrite startswith_app.
    change (str_drop 10) with (str_drop (String.length "FILE_META:")).
    rewrite str_drop_app, Hfile. intros Hcalls.
    apply (split_colon_1_app_inv name text).
    destruct (ClientControl.split_colon_1 (name +:+ ":" +:+ text))
      as [|a [|b [|c l]]]; try done.
    by injection Hcalls as -> ->.
  - unfold ClientControl._process_tcp_message_sync.
    assert (startswith "CHAT:" ("FILE_META:" +:+ name +:+ ":" +:+ text) = false)
      as -> by done.
    assert (startswith "USERS:" ("FILE_META:" +:+ name +:+ ":" +:+ text) = false)
      as -> by done.
    assert (startswith "STATUS:" ("FILE_META:" +:+ name +:+ ":" +:+ text) = false)
      as -> by done.
    rewrite startswith_app.
    change (str_drop 10) with (str_drop (String.length "FILE_META:")).
    rewrite str_drop_app, split_colon_1_app by done. by rewrite Hfile.
Qed.

Lemma relayed_message_shown_as_sent_witness :
  ClientControl.on_chat_message (ClientControl.mkCallbacks true true true true) = true ∧
  ClientControl.on_file_meta (ClientControl.mkCallbacks true true true true) = true ∧
  (ClientControl._process_tcp_message_sync unit (λ _, None)
     (ClientControl.mkCallbacks true true true true)
     ("CHAT:" +:+ "alice" +:+ ":" +:+ "see you at 10:30")
   = [ClientControl.ChatMessage "alice" "see you at 10:30"] ↔ colon_free "alice") ∧
  (ClientControl._process_tcp_message_sync unit (λ _, None)
     (ClientControl.mkCallbacks true true true true)
     ("FILE_META:" +:+ "alice" +:+ ":" +:+ "see you at 10:30")
   = [ClientControl.FileMeta "alice" "see you at 10:30"] ↔ colon_free "alice").
Proof.
  split; [reflexivity|]. split; [reflexivity|].
  exact (relayed_message_shown_as_sent unit (λ _, None)
           (ClientControl.mkCallbacks true true true true) "alice" "see you at 10:30"
           eq_refl eq_refl).
Defined.

(** ** From one client to another through the server *)

Lemma valid_text_ascii_prefix (p s : string) :
  Forall (λ b, Byte.to_N b < 128) (encode p) → valid_text s →
  decode (encode (p +:+ s)) = Some (p +:+ s).
Proof. intros Hp Hs. apply valid_text_app; [by apply ascii_valid_text|done]. Qed.

Ltac ascii_prefix :=
  repeat (apply Forall_cons; split; [by vm_compute|]); apply Forall_nil_2.

(** What [send_chat_message] and [send_control] put on the stream of a
    connected client. *)
Lemma run_send_tcp_data_Written (bo : byteorder) (env : Env)
    (cl : ClientCore.ScalableCommClient) (h : handle) (data framed : list byte) :
  ClientCore.tcp_writer cl = Some h → write_fails env h = false →
  frame bo data = Some framed →
  ClientControl.run_send_tcp_data bo env cl data = [Written h framed].
Proof.
  intros Hw Hf Hframe. unfold ClientControl.run_send_tcp_data, ClientCore._send_tcp_data.
  by rewrite Hw, Hframe, Hf.
Qed.

(** X19. A chat message travels from one client to the stream of every
    other, and no further.  The frame that [send_chat_message] writes is
    the packed length followed by [CHAT:<text>]; when the message loop of
    the sender's session reads it, the server writes to each other
    session the packed length followed by
    [CHAT:<sender's name>:<text>]; and the receiving loop of the client
    at that end, with these very bytes on its stream, is left at its
    first turn without reading them and without calling any callback. *)
Theorem chat_reaches_the_other_streams (J : Type) (json_loads : string → option J)
    (bo : byteorder) (env : Env) (st : ScalableCommServer)
    (cl : ClientCore.ScalableCommClient) (h : handle)
    (sender_id : string) (sender : Client) (r : string) (c : Client)
    (text : string) (now : Q) (more rest : list byte)
    (cbs : ClientControl.Callbacks) (schedule : list ClientControl.recv_outcome) :
  reachable bo st →
  dict_get sender_id (clients st) = Some sender →
  (r, c) ∈ clients st → r ≠ sender_id →
  ClientCore.connected cl = true → ClientCore.tcp_writer cl = Some h →
  write_fails env h = false → write_fails env (tcp_writer c) = false →
  valid_text text →
  N.of_nat (String.length ("CHAT:" +:+ username sender +:+ ":" +:+ text)) < 2 ^ 32 →
  ∃ p1 p2,
    pack_I bo (N.of_nat (length (encode ("CHAT:" +:+ text)))) = Some p1 ∧
    pack_I bo (N.of_nat (length (encode ("CHAT:" +:+ username sender +:+ ":" +:+ text))))
    = Some p2 ∧
    ClientControl.send_chat_message bo env cl text
    = ([Written h (p1 ++ encode ("CHAT:" +:+ text))], true) ∧
    addressed_to (tcp_writer c)
      (handle_tcp_client_iteration bo env st sender_id (tcp_writer sender)
         ((p1 ++ encode ("CHAT:" +:+ text)) ++ more) now).1.2
    = [Written (tcp_writer c)
         (p2 ++ encode ("CHAT:" +:+ username sender +:+ ":" +:+ text))] ∧
    ClientControl.receive_tcp_loop_iteration J json_loads bo cbs
      ((p2 ++ encode ("CHAT:" +:+ username sender +:+ ":" +:+ text)) ++ rest) schedule
    = ClientControl.Stop true.
Proof.
  intros Hreach Hget Hin Hne Hconn Hw Hfh Hfc Htext Hsize.
  pose proof (reachable_registry_ok bo st Hreach) as Hok.
  remember ("CHAT:" +:+ username sender +:+ ":" +:+ text) as formatted eqn:Hfmt.
  assert (String.length formatted
          = (5 + String.length (username sender) + 1 + String.length text)%nat)
    as Hlen by (subst formatted; rewrite !str_length_app; simpl; lia).
  destruct (frame_Some bo (encode ("CHAT:" +:+ text))) as (p1 & Hp1 & Hsent).
  { rewrite length_encode, str_length_app. simpl. lia. }
  assert (decode (encode ("CHAT:" +:+ text)) = Some ("CHAT:" +:+ text)) as Hdec
    by (apply valid_text_ascii_prefix; [ascii_prefix|done]).
  set (st1 := with_clients (dict_set sender_id (set_last_seen now sender)
                                     (clients st)) st).
  assert (registry_ok st1) as Hok1.
  { subst st1. unfold registry_ok. cbn. by eapply clients_ok_update. }
  assert (dict_get sender_id (clients st1) = Some (set_last_seen now sender))
    as Hget1 by apply dict_get_set_eq.
  assert ((r, c) ∈ clients st1) as Hin1 by by apply dict_set_elem_ne.
  destruct (send_to_others_frame bo env st1 sender_id formatted _ Hok1 Hget1 Hsize)
    as (p2 & Hp2 & _ & _ & _ & Hothers & _).
  exists p1, p2. split; [exact Hp1|]. split; [exact Hp2|]. split; [|split; [|done]].
  - unfold ClientControl.send_chat_message. rewrite Hconn. cbn [negb].
    by erewrite run_send_tcp_data_Written.
  - rewrite (handle_tcp_client_iteration_read bo env st sender_id sender _
               (encode ("CHAT:" +:+ text)) _ more now Hget Hsent).
    cbv zeta. cbn [fst snd]. fold st1.
    assert ((process_tcp_message bo env st1 sender_id (encode ("CHAT:" +:+ text))).2
            = send_to_others bo env st1 sender_id formatted) as ->.
    { unfold process_tcp_message. rewrite Hdec. cbv beta iota.
      rewrite startswith_app.
      change (str_drop 5) with (str_drop (String.length "CHAT:")).
      rewrite str_drop_app. cbn [snd]. unfold broadcast_chat.
      by rewrite Hget1, Hfmt. }
    by rewrite (Hothers r c Hin1 Hne), Hfc.
Qed.

Lemma chat_reaches_the_other_streams_witness :
  reachable LittleEndian (server two_sessions) ∧
  alice_id ≠ bob_id ∧
  valid_text "hi" ∧
  ∃ sender c,
    dict_get alice_id (clients (server two_sessions)) = Some sender ∧
    (bob_id, c) ∈ clients (server two_sessions) ∧
    ∃ p1 p2,
      pack_I LittleEndian (N.of_nat (length (encode ("CHAT:" +:+ "hi")))) = Some p1 ∧
      pack_I LittleEndian
        (N.of_nat (length (encode ("CHAT:" +:+ username sender +:+ ":" +:+ "hi"))))
      = Some p2 ∧
      ClientControl.send_chat_message LittleEndian quiet alice_client "hi"
      = ([Written 7 (p1 ++ encode ("CHAT:" +:+ "hi"))], true) ∧
      addressed_to (tcp_writer c)
        (handle_tcp_client_iteration LittleEndian quiet (server two_sessions)
           alice_id (tcp_writer sender)
           ((p1 ++ encode ("CHAT:" +:+ "hi")) ++ []) 1001).1.2
      = [Written (tcp_writer c)
           (p2 ++ encode ("CHAT:" +:+ username sender +:+ ":" +:+ "hi"))] ∧
      ClientControl.receive_tcp_loop_iteration unit (λ _, None) LittleEndian
        (ClientControl.mkCallbacks true true false false)
        ((p2 ++ encode ("CHAT:" +:+ username sender +:+ ":" +:+ "hi")) ++ [])
        (replicate 20 (ClientControl.Ready 4096))
      = ClientControl.Stop true.
Proof.
  assert ((bob_id, mkClient bob_id "bob" 1 1 ("10.0.0.2", 9001%Z) false false false
                     1000.75)
          ∈ clients (server two_sessions)) as Hin.
  { apply elem_of_cons. right. apply elem_of_cons. by left. }
  split; [exact two_sessions_reachable|]. split; [discriminate|].
  split; [vm_compute; reflexivity|].
  eexists _, _. split; [vm_compute; reflexivity|]. split; [exact Hin|].
  apply (chat_reaches_the_other_streams unit (λ _, None) LittleEndian quiet
           (server two_sessions) alice_client 7 alice_id _ bob_id _ "hi" 1001 [] []
           (ClientControl.mkCallbacks true true false false)
           (replicate 20 (ClientControl.Ready 4096))
           two_sessions_reachable eq_refl Hin);
    [discriminate | reflexivity | reflexivity | reflexivity | reflexivity
     | vm_compute; reflexivity | vm_compute; reflexivity].
Defined.

(** ** The handshake seen from both ends *)

Lemma str_of_int_colon_free (n : Z) : colon_free (str_of_int n).
Proof.
  unfold colon_free.
  assert (∀ d, ":"%char ∉ list_ascii_of_string (NilEmpty.string_of_uint d)) as H.
  { induction d; simpl; [apply not_elem_of_nil|..];
      (apply not_elem_of_cons; split; [done|done]). }
  assert (∀ d, ":"%char ∉ list_ascii_of_string (NilZero.string_of_uint d)) as H'.
  { intros d. destruct d; try apply H.
    simpl. apply not_elem_of_cons. split; [done|apply not_elem_of_nil]. }
  unfold str_of_int, NilZero.string_of_int.
  destruct (Z.to_int n); [apply H'|].
  simpl. apply not_elem_of_cons. split; [done|apply H'].
Qed.

Lemma make_client_id_colon_free (name : string) (now : Q) :
  colon_free name → colon_free (make_client_id name now).
Proof.
  unfold colon_free, make_client_id. intros Hname.
  rewrite !list_ascii_of_string_app. rewrite !not_elem_of_app.
  split; [done|]. split; [|apply str_of_int_colon_free].
  simpl. apply not_elem_of_cons. split; [done|apply not_elem_of_nil].
Qed.

(** [connect] on a stream that brings the welcome of the id [id]. *)
Lemma connect_on_welcome (bo : byteorder) (cl : ClientCore.ScalableCommClient)
    (name id : string) (h : handle) (data rest : list byte) :
  frame bo (encode ("CONNECTED:" +:+ id +:+ ":" +:+ name)) = Some data →
  valid_text (id +:+ ":" +:+ name) →
  colon_free id →
  let r := ClientCore.connect bo cl name (ClientCore.Established h false (data ++ rest)) in
  r.2 = true ∧ r.1.2 = [Written h (encode name)] ∧
  ClientCore.connected r.1.1 = true ∧
  ClientCore.client_id r.1.1 = Some id ∧
  ClientCore.username r.1.1 = Some name ∧
  ClientCore.tcp_writer r.1.1 = Some h.
Proof.
  intros Hf Hvalid Hid. unfold ClientCore.connect.
  rewrite (read_frame_frame _ _ _ _ Hf).
  assert (decode (encode ("CONNECTED:" +:+ id +:+ ":" +:+ name))
          = Some ("CONNECTED:" +:+ id +:+ ":" +:+ name)) as ->.
  { apply (valid_text_app "CONNECTED:"); [|done].
    apply ascii_valid_text. repeat (apply Forall_cons; split; [by vm_compute|]).
    apply Forall_nil_2. }
  rewrite startswith_app.
  assert (ClientCore.split_colon ("CONNECTED:" +:+ id +:+ ":" +:+ name) !! 1%nat
          = Some id) as ->; [|done].
  change ("CONNECTED:" +:+ id +:+ ":" +:+ name)
    with (String "C" (String "O" (String "N" (String "N" (String "E" (String "C"
           (String "T" (String "E" (String "D" (String ":"
           (id +:+ ":" +:+ name))))))))))).
  assert (∃ t, ClientCore.split_colon (id +:+ ":" +:+ name) = id :: t) as [t Ht].
  { clear -Hid. unfold colon_free in Hid. induction id as [|c id IH].
    - simpl. by eexists.
    - change (String c id +:+ ":" +:+ name) with (String c (id +:+ ":" +:+ name)).
      simpl in Hid. apply not_elem_of_cons in Hid as [Hc Hid].
      cbn [ClientCore.split_colon].
      rewrite decide_False by done.
      destruct (IH Hid) as [t ->]. by eexists. }
  cbn [ClientCore.split_colon]. rewrite Ht.
  repeat (rewrite decide_False by done; cbn [lookup list_lookup]).
  rewrite decide_True by done. done.
Qed.

(** X20. The two ends of the handshake agree.  When a client connects under
    a name that is non-empty text of at most 1024 bytes, without white
    space at its ends and without a colon, the server registers the
    session under the id [<name>_<milliseconds>] and its first write on
    the connection is the welcome; [connect], reading that welcome,
    returns [True] and stores exactly the id under which the server
    registered the session. *)
Theorem handshake_agreement (bo : byteorder) (env : Env) (st : ScalableCommServer)
    (writer : handle) (peer : address) (name : string) (t_id t_seen : Q)
    (cl : ClientCore.ScalableCommClient) (h : handle) (rest : list byte) :
  valid_text name → name ≠ "" → strip name = name → colon_free name →
  (String.length name ≤ 1024)%nat →
  N.of_nat (String.length ("CONNECTED:" +:+ make_client_id name t_id +:+ ":" +:+ name))
  < 2 ^ 32 →
  write_fails env writer = false →
  let id := make_client_id name t_id in
  let r := handle_tcp_client_handshake bo env st writer peer (encode name) t_id t_seen in
  ∃ welcome,
    r.1.2 = Written writer welcome :: broadcast_user_list bo env r.1.1 ∧
    r.2 = Some id ∧
    (∃ c, dict_get id (clients r.1.1) = Some c ∧
          username c = name ∧ tcp_writer c = writer) ∧
    let k := ClientCore.connect bo cl name
               (ClientCore.Established h false (welcome ++ rest)) in
    k.1.2 = [Written h (encode name)] ∧
    k.2 = true ∧
    ClientCore.connected k.1.1 = true ∧
    ClientCore.client_id k.1.1 = Some id ∧
    ClientCore.username k.1.1 = Some name.
Proof.
  intros Hvalid Hne Hstrip Hfree Hlen Hsize Hw id r.
  destruct (frame_Some bo (encode ("CONNECTED:" +:+ id +:+ ":" +:+ name)))
    as (prefix & _ & Hf).
  { by rewrite length_encode. }
  exists (prefix ++ encode ("CONNECTED:" +:+ id +:+ ":" +:+ name)).
  assert (r = (register st id name writer writer peer t_seen,
               send_tcp_message bo env writer ("CONNECTED:" +:+ id +:+ ":" +:+ name)
               ++ broadcast_user_list bo env
                    (register st id name writer writer peer t_seen),
               Some id)) as ->.
  { subst r. unfold handle_tcp_client_handshake.
    rewrite take_ge by (rewrite length_encode; lia).
    rewrite Hvalid. rewrite Hstrip. by rewrite decide_False. }
  cbn [fst snd].
  rewrite (send_tcp_message_Written _ _ _ _ _ Hf Hw).
  split; [done|]. split; [done|]. split.
  { eexists. unfold register. cbn. by rewrite dict_get_set_eq. }
  destruct (connect_on_welcome bo cl name id h _ rest Hf)
    as (Hret & Heff & Hconn & Hid & Hname & _).
  - apply valid_text_app; [by apply valid_text_make_client_id|].
    apply valid_text_app; [|done]. apply ascii_valid_text. ascii_prefix.
  - by apply make_client_id_colon_free.
  - done.
Qed.

Lemma handshake_agreement_witness :
  valid_text "carol" ∧ "carol"%string ≠ ""%string ∧ strip "carol" = "carol"%string ∧
  colon_free "carol" ∧
  (String.length "carol" ≤ 1024)%nat ∧
  N.of_nat (String.length ("CONNECTED:" +:+ make_client_id "carol" 1001
                           +:+ ":" +:+ "carol")) < 2 ^ 32 ∧
  let id := make_client_id "carol" 1001 in
  let r := handle_tcp_client_handshake LittleEndian quiet (server two_sessions) 2
             ("10.0.0.3", 50003%Z) (encode "carol") 1001 1001 in
  ∃ welcome,
    r.1.2 = Written 2 welcome :: broadcast_user_list LittleEndian quiet r.1.1 ∧
    r.2 = Some id ∧
    (∃ c, dict_get id (clients r.1.1) = Some c ∧
          username c = "carol"%string ∧ tcp_writer c = 2) ∧
    let k := ClientCore.connect LittleEndian fresh_client "carol"
               (ClientCore.Established 9 false (welcome ++ [])) in
    k.1.2 = [Written 9 (encode "carol")] ∧
    k.2 = true ∧
    ClientCore.connected k.1.1 = true ∧
    ClientCore.client_id k.1.1 = Some id ∧
    ClientCore.username k.1.1 = Some "carol"%string.
Proof.
  assert (colon_free "carol") as Hfree.
  { unfold colon_free. simpl.
    repeat (apply not_elem_of_cons; split; [discriminate|]). apply not_elem_of_nil. }
  split; [vm_compute; reflexivity|]. split; [discriminate|].
  split; [vm_compute; reflexivity|]. split; [exact Hfree|].
  split; [vm_compute; lia|]. split; [vm_compute; reflexivity|].
  apply (handshake_agreement LittleEndian quiet (server two_sessions) 2
           ("10.0.0.3", 50003%Z) "carol" 1001 1001 fresh_client 9 []);
    [vm_compute; reflexivity | discriminate | vm_compute; reflexivity | exact Hfree
     | vm_compute; lia | vm_compute; reflexivity | reflexivity].
Defined.

(** ** The switches of the client *)

(** A control word sent by a registered session. *)
Lemma control_frame_processed (bo : byteorder) (env : Env) (st : ScalableCommServer)
    (cid : string) (c : Client) (writer : handle) (word : string)
    (sent rest : list byte) (now : Q) :
  dict_get cid (clients st) = Some c →
  word ∈ control_words →
  frame bo (encode ("CONTROL:" +:+ word)) = Some sent →
  let r := handle_tcp_client_iteration bo env st cid writer (sent ++ rest) now in
  r.2 = Some rest ∧
  ∃ c', dict_get cid (clients r.1.1) = Some c' ∧
        flags c' = flags_after word (flags c) ∧
        username c' = username c ∧ last_seen c' = now.
Proof.
  intros Hget Hword Hf r. subst r.
  rewrite (handle_tcp_client_iteration_read bo env st cid c writer
             (encode ("CONTROL:" +:+ word)) sent rest now Hget Hf).
  cbv zeta. cbn [fst snd]. split; [done|].
  set (st1 := with_clients (dict_set cid (set_last_seen now c) (clients st)) st).
  assert (decode (encode ("CONTROL:" +:+ word)) = Some ("CONTROL:" +:+ word)) as Hdec.
  { unfold control_words in Hword.
    repeat (apply elem_of_cons in Hword as [->|Hword]; [by vm_compute|]).
    by apply elem_of_nil in Hword. }
  assert (dict_get cid (clients st1) = Some (set_last_seen now c)) as Hget1
    by apply dict_get_set_eq.
  exists (apply_control word (set_last_seen now c)).
  assert ((process_tcp_message bo env st1 cid (encode ("CONTROL:" +:+ word))).1
          = with_clients (dict_set cid (apply_control word (set_last_seen now c))
                                   (clients st1)) st1) as ->.
  { unfold process_tcp_message. rewrite Hdec. cbv beta iota.
    assert (startswith "CHAT:" ("CONTROL:" +:+ word) = false) as -> by done.
    assert (startswith "FILE_META:" ("CONTROL:" +:+ word) = false) as -> by done.
    rewrite startswith_app.
    change (str_drop 8) with (str_drop (String.length "CONTROL:")).
    rewrite str_drop_app. unfold handle_control. by rewrite Hget1. }
  cbn [clients with_clients]. rewrite dict_get_set_eq. split; [done|].
  destruct (apply_control_fields word (set_last_seen now c))
    as (_ & Hu & _ & _ & _ & Hl & Hfl).
  by rewrite Hu, Hl, Hfl.
Qed.

(** X21. Each of the six switches of a connected client that is not
    streaming writes one frame, and when the message loop of its session
    reads that frame the capability flags of the session change exactly
    as the word of the switch says: [start_video] sets the video flag,
    [stop_video] clears it, and likewise for audio and screen; the other
    flags and the display name stay. *)
Theorem switches_reach_the_server (bo : byteorder) (env env' : Env)
    (st : ScalableCommServer) (cl : ClientCore.ScalableCommClient) (h : handle)
    (cid : string) (c : Client) (writer : handle) (rest : list byte) (now : Q)
    (word : string) (call : ClientCore.ScalableCommClient * list effect) :
  ClientCore.connected cl = true →
  ClientCore.tcp_writer cl = Some h →
  streaming cl = (false, false, false) →
  write_fails env h = false →
  dict_get cid (clients st) = Some c →
  (word, call) ∈ switches bo env cl →
  ∃ sent,
    call.2 = [Written h sent] ∧
    let r := handle_tcp_client_iteration bo env' st cid writer (sent ++ rest) now in
    r.2 = Some rest ∧
    ∃ c', dict_get cid (clients r.1.1) = Some c' ∧
          flags c' = flags_after word (flags c) ∧
          username c' = username c.
Proof.
  intros Hconn Hw Hoff Hfh Hget Hin.
  unfold streaming in Hoff. injection Hoff as Hv Ha Hs.
  assert (word ∈ control_words ∧
          call.2 = ClientControl.run_send_tcp_data bo env cl
                     (encode ("CONTROL:" +:+ word))) as [Hword Hcall].
  { unfold switches in Hin.
    repeat (apply elem_of_cons in Hin as [[= -> ->]|Hin];
            [split;
             [unfold control_words;
              repeat (apply elem_of_cons; first [by left | right])
             |unfold ClientControl.start_video, ClientControl.stop_video,
                ClientControl.start_audio, ClientControl.stop_audio,
                ClientControl.start_screen_share, ClientControl.stop_screen_share,
                ClientControl.send_control;
              rewrite ?Hconn, ?Hv, ?Ha, ?Hs; cbn; rewrite ?Hconn; reflexivity]|]).
    by apply elem_of_nil in Hin. }
  destruct (frame_Some bo (encode ("CONTROL:" +:+ word))) as (prefix & _ & Hf).
  { unfold control_words in Hword.
    repeat (apply elem_of_cons in Hword as [->|Hword]; [by vm_compute|]).
    by apply elem_of_nil in Hword. }
  exists (prefix ++ encode ("CONTROL:" +:+ word)). split.
  - rewrite Hcall. by apply run_send_tcp_data_Written.
  - destruct (control_frame_processed bo env' st cid c writer word _ rest now
                Hget Hword Hf) as (Hloop & c' & Hc' & Hfl & Hu & _).
    split; [done|]. by exists c'.
Qed.

Lemma switches_reach_the_server_witness :
  ClientCore.connected alice_client = true ∧
  ClientCore.tcp_writer alice_client = Some 7 ∧
  streaming alice_client = (false, false, false) ∧
  ∃ c,
    dict_get alice_id (clients (server two_sessions)) = Some c ∧
    ("AUDIO_ON"%string, (ClientControl.start_audio LittleEndian quiet alice_client).1.1)
    ∈ switches LittleEndian quiet alice_client ∧
    ∃ sent,
      (ClientControl.start_audio LittleEndian quiet alice_client).1.1.2
      = [Written 7 sent] ∧
      let r := handle_tcp_client_iteration LittleEndian quiet (server two_sessions)
                 alice_id 0 (sent ++ []) 1001 in
      r.2 = Some [] ∧
      ∃ c', dict_get alice_id (clients r.1.1) = Some c' ∧
            flags c' = flags_after "AUDIO_ON" (flags c) ∧
            username c' = username c.
Proof.
  assert (("AUDIO_ON"%string,
           (ClientControl.start_audio LittleEndian quiet alice_client).1.1)
          ∈ switches LittleEndian quiet alice_client) as Hin.
  { unfold switches. repeat (apply elem_of_cons; first [by left | right]). }
  split; [reflexivity|]. split; [reflexivity|]. split; [reflexivity|].
  eexists. split; [vm_compute; reflexivity|]. split; [exact Hin|].
  apply (switches_reach_the_server LittleEndian quiet quiet (server two_sessions)
           alice_client 7 alice_id _ 0 [] 1001 "AUDIO_ON" _
           eq_refl eq_refl eq_refl eq_refl);
    [vm_compute; reflexivity | exact Hin].
Defined.

(** X22. A switch is refused while its flag is set.  On a connected
    client that is not streaming, [start_video] returns [True], sets the
    streaming flag and starts the capture thread; as long as the flag is
    set, a further [start_video] is refused: it returns [False], sends
    nothing, starts no thread and leaves the client as it is.  The flag
    is cleared by [stop_video], and also by the capture thread itself
    when it ends; either way the client is as before the first start, and
    the next [start_video] goes through again like the first one.  The
    same holds for audio and for screen sharing, except that their
    threads clear the flag only when they end on an exception and leave
    it set otherwise. *)
Theorem switch_refused_while_flag_set (bo : byteorder) (env : Env)
    (cl : ClientCore.ScalableCommClient) :
  ClientCore.connected cl = true →
  streaming cl = (false, false, false) →
  (let a := ClientControl.start_video bo env cl in
   a.2 = true ∧ a.1.2 = [ClientControl.VideoStreamLoop] ∧
   ClientCore.video_streaming a.1.1.1 = true ∧
   ClientControl.start_video bo env a.1.1.1 = (a.1.1.1, [], [], false) ∧
   (ClientControl.stop_video bo env a.1.1.1).1 = cl ∧
   ClientControl._video_stream_loop_end a.1.1.1 = cl ∧
   ClientControl.start_video bo env (ClientControl._video_stream_loop_end a.1.1.1) = a) ∧
  (let a := ClientControl.start_audio bo env cl in
   a.2 = true ∧ a.1.2 = [ClientControl.AudioStreamLoop] ∧
   ClientCore.audio_streaming a.1.1.1 = true ∧
   ClientControl.start_audio bo env a.1.1.1 = (a.1.1.1, [], [], false) ∧
   (ClientControl.stop_audio bo env a.1.1.1).1 = cl ∧
   ClientControl._audio_stream_loop_end true a.1.1.1 = cl ∧
   ClientControl._audio_stream_loop_end false a.1.1.1 = a.1.1.1 ∧
   ClientControl.start_audio bo env (ClientControl._audio_stream_loop_end true a.1.1.1)
   = a) ∧
  (let a := ClientControl.start_screen_share bo env cl in
   a.2 = true ∧ a.1.2 = [ClientControl.ScreenShareLoop] ∧
   ClientCore.screen_streaming a.1.1.1 = true ∧
   ClientControl.start_screen_share bo env a.1.1.1 = (a.1.1.1, [], [], false) ∧
   (ClientControl.stop_screen_share bo env a.1.1.1).1 = cl ∧
   ClientControl._screen_share_loop_end true a.1.1.1 = cl ∧
   ClientControl._screen_share_loop_end false a.1.1.1 = a.1.1.1 ∧
   ClientControl.start_screen_share bo env
     (ClientControl._screen_share_loop_end true a.1.1.1)
   = a).
Proof.
  intros Hconn Hoff. unfold streaming in Hoff. injection Hoff as Hv Ha Hs.
  destruct cl. cbn in *. subst.
  unfold ClientControl.start_video, ClientControl.start_audio,
    ClientControl.start_screen_share, ClientControl.stop_video,
    ClientControl.stop_audio, ClientControl.stop_screen_share,
    ClientControl._video_stream_loop_end, ClientControl._audio_stream_loop_end,
    ClientControl._screen_share_loop_end.
  cbn. done.
Qed.

Lemma switch_refused_while_flag_set_witness :
  ClientCore.connected alice_client = true ∧
  streaming alice_client = (false, false, false) ∧
  (let a := ClientControl.start_video LittleEndian quiet alice_client in
   a.2 = true ∧ a.1.2 = [ClientControl.VideoStreamLoop] ∧
   ClientCore.video_streaming a.1.1.1 = true ∧
   ClientControl.start_video LittleEndian quiet a.1.1.1 = (a.1.1.1, [], [], false) ∧
   (ClientControl.stop_video LittleEndian quiet a.1.1.1).1 = alice_client ∧
   ClientControl._video_stream_loop_end a.1.1.1 = alice_client ∧
   ClientControl.start_video LittleEndian quiet
     (ClientControl._video_stream_loop_end a.1.1.1) = a) ∧
  (let a := ClientControl.start_audio LittleEndian quiet alice_client in
   a.2 = true ∧ a.1.2 = [ClientControl.AudioStreamLoop] ∧
   ClientCore.audio_streaming a.1.1.1 = true ∧
   ClientControl.start_audio LittleEndian quiet a.1.1.1 = (a.1.1.1, [], [], false) ∧
   (ClientControl.stop_audio LittleEndian quiet a.1.1.1).1 = alice_client ∧
   ClientControl._audio_stream_loop_end true a.1.1.1 = alice_client ∧
   ClientControl._audio_stream_loop_end false a.1.1.1 = a.1.1.1 ∧
   ClientControl.start_audio LittleEndian quiet
     (ClientControl._audio_stream_loop_end true a.1.1.1)
   = a) ∧
  (let a := ClientControl.start_screen_share LittleEndian quiet alice_client in
   a.2 = true ∧ a.1.2 = [ClientControl.ScreenShareLoop] ∧
   ClientCore.screen_streaming a.1.1.1 = true ∧
   ClientControl.start_screen_share LittleEndian quiet a.1.1.1
   = (a.1.1.1, [], [], false) ∧
   (ClientControl.stop_screen_share LittleEndian quiet a.1.1.1).1 = alice_client ∧
   ClientControl._screen_share_loop_end true a.1.1.1 = alice_client ∧
   ClientControl._screen_share_loop_end false a.1.1.1 = a.1.1.1 ∧
   ClientControl.start_screen_share LittleEndian quiet
     (ClientControl._screen_share_loop_end true a.1.1.1)
   = a).
Proof.
  split; [reflexivity|]. split; [reflexivity|].
  exact (switch_refused_while_flag_set LittleEndian quiet alice_client
           eq_refl eq_refl).
Defined.

(** X23. After [disconnect] the client is silent: it is marked as not
    connected and not streaming, and from then on [send_chat_message]
    returns [False], the three starts return [False] and start no thread,
    and neither they nor [send_control] nor the three stops write anything
    or change the client; the session id it was given stays.  [disconnect] itself
    closes the writer if there is one, each time it is called. *)
Theorem silent_after_disconnect (bo : byteorder) (env : Env)
    (cl : ClientCore.ScalableCommClient) (text : string) :
  let cl' := (ClientControl.disconnect cl).1 in
  ClientCore.connected cl' = false ∧
  streaming cl' = (false, false, false) ∧
  ClientCore.client_id cl' = ClientCore.client_id cl ∧
  (ClientControl.disconnect cl).2
  = match ClientCore.tcp_writer cl with Some h => [Closed h] | None => [] end ∧
  ClientControl.send_chat_message bo env cl' text = ([], false) ∧
  ClientControl.send_control bo env cl' text = [] ∧
  ClientControl.start_video bo env cl' = (cl', [], [], false) ∧
  ClientControl.start_audio bo env cl' = (cl', [], [], false) ∧
  ClientControl.start_screen_share bo env cl' = (cl', [], [], false) ∧
  ClientControl.stop_video bo env cl' = (cl', []) ∧
  ClientControl.stop_audio bo env cl' = (cl', []) ∧
  ClientControl.stop_screen_share bo env cl' = (cl', []) ∧
  ClientControl.disconnect cl' = ClientControl.disconnect cl.
Proof. destruct cl. cbv zeta. split_and!; reflexivity. Qed.

(** ** Media from one client to another through the router *)

(** The receiving loop of the client on a well-formed datagram whose tag
    is text. *)
Lemma receive_udp_loop_iteration_parse (frame : Type)
    (imdecode : list byte → option frame) (bo : byteorder)
    (cl : ClientCore.ScalableCommClient) (packet_type : byte)
    (sender : string) (payload data : list byte) :
  datagram_of bo packet_type (encode sender) payload data →
  valid_text sender →
  ClientCore.receive_udp_loop_iteration frame imdecode bo cl data
  = if (Byte.to_N packet_type =? 1) && ClientCore.on_video_frame cl then
      match imdecode payload with
      | Some image => [ClientCore.VideoFrame sender image]
      | None => []
      end
    else if (Byte.to_N packet_type =? 2) && ClientCore.on_audio_chunk cl then
      [ClientCore.AudioChunk sender payload]
    else if (Byte.to_N packet_type =? 3) && ClientCore.on_screen_frame cl then
      match imdecode payload with
      | Some image => [ClientCore.ScreenFrame sender image]
      | None => []
      end
    else [].
Proof.
  intros Hdg Hvalid.
  destruct (datagram_of_parse bo packet_type (encode sender) payload data Hdg)
    as (Hlen & Hun & Hlen' & Htag & Hpay).
  destruct Hdg as (tag_len & Hpack & Hdata).
  unfold ClientCore.receive_udp_loop_iteration.
  rewrite decide_False by lia.
  destruct data as [|b tl]; [simpl in Hlen; lia|].
  assert (b = packet_type) as -> by (by injection Hdata).
  rewrite Hun. cbv zeta. rewrite Nat2N.id.
  rewrite decide_False by lia. rewrite Htag, Hpay. by rewrite Hvalid.
Qed.

(** X24. Media travels from one client to the callback of another with
    the sender's display name and the payload unchanged.  The datagram
    that [create_udp_packet] builds for a registered session is accepted
    by the router, which sends to the media address of every other
    session the datagram in which the session id is replaced by the
    sender's display name; the receiving loop of a client that gets this
    datagram calls the callback of the datagram's type with that name
    and with the very payload the sender packed (decoded as an image for
    video and screen frames). *)
Theorem media_end_to_end (frame : Type) (imdecode : list byte → option frame)
    (bo : byteorder) (env : Env) (st : ScalableCommServer)
    (cl rcv : ClientCore.ScalableCommClient) (id : string) (sender : Client)
    (r : string) (c : Client) (packet_type : byte) (payload : list byte)
    (addr : address) :
  reachable bo st →
  ClientCore.client_id cl = Some id →
  dict_get id (clients st) = Some sender →
  (r, c) ∈ clients st → r ≠ id →
  sendto_fails env (udp_addr c) = false →
  N.of_nat (String.length id) < 65536 →
  ∃ packet relayed,
    ClientCore.create_udp_packet bo cl packet_type payload = Some (Some packet) ∧
    SentTo relayed (udp_addr c)
    ∈ (handle_udp_streams_iteration bo env st packet addr).2 ∧
    ClientCore.receive_udp_loop_iteration frame imdecode bo rcv relayed
    = if (Byte.to_N packet_type =? 1) && ClientCore.on_video_frame rcv then
        match imdecode payload with
        | Some image => [ClientCore.VideoFrame (username sender) image]
        | None => []
        end
      else if (Byte.to_N packet_type =? 2) && ClientCore.on_audio_chunk rcv then
        [ClientCore.AudioChunk (username sender) payload]
      else if (Byte.to_N packet_type =? 3) && ClientCore.on_screen_frame rcv then
        match imdecode payload with
        | Some image => [ClientCore.ScreenFrame (username sender) image]
        | None => []
        end
      else [].
Proof.
  intros Hreach Hid Hget Hin Hne Hsend Hsize.
  pose proof (reachable_registry_ok bo st Hreach) as Hok.
  destruct (reachable_directory_ok bo st Hreach) as [Hrec _].
  pose proof (reachable_ids_are_text bo st Hreach) as Hids.
  pose proof (dict_get_elem _ _ _ Hget) as Hmem.
  assert (valid_text id) as Hvid.
  { by eapply Forall_forall in Hids; [|exact Hmem]. }
  assert (id ≠ "" ∧ valid_text (username sender)) as [Hnonempty Hvname].
  { eapply Forall_forall in Hrec as [(_ & [t Ht] & _ & Hv & _) _]; [|exact Hmem].
    simpl in *. split; [|done]. rewrite Ht. apply make_client_id_nonempty. }
  assert (pack_H bo (N.of_nat (length (encode id)))
          = Some (native bo (N_to_le 2 (N.of_nat (length (encode id)))))) as Hpack.
  { apply (pack_Some bo 2). rewrite length_encode. exact Hsize. }
  set (id_len := native bo (N_to_le 2 (N.of_nat (length (encode id))))) in *.
  set (packet := [packet_type] ++ id_len ++ encode id ++ payload).
  assert (datagram_of bo packet_type (encode id) payload packet) as Hdg
    by by exists id_len.
  destruct (handle_udp_packet_forward bo env st packet_type (encode id) payload
              packet id addr Hok Hdg Hvid) as (name_len & Hname_len & Hstep).
  cbv zeta in Hstep.
  assert (stamped_name st id = username sender) as Hstamp
    by (unfold stamped_name; by rewrite Hget).
  rewrite Hstamp in Hname_len, Hstep.
  set (relayed := [packet_type] ++ name_len ++ encode (username sender) ++ payload)
    in *.
  exists packet, relayed. split_and!.
  - unfold ClientCore.create_udp_packet. rewrite Hid.
    rewrite decide_False by done. cbv zeta. by rewrite Hpack.
  - rewrite Hstep. cbn [snd]. apply list_elem_of_fmap. exists c. split.
    + unfold forward_to. by rewrite Hsend.
    + apply list_elem_of_fmap. exists (r, c). split; [done|].
      by apply dict_del_elem.
  - apply receive_udp_loop_iteration_parse; [|done].
    exists name_len. split; [|done]. by rewrite length_encode.
Qed.

Lemma media_end_to_end_witness :
  reachable LittleEndian (server two_sessions) ∧
  ClientCore.client_id alice_client = Some alice_id ∧
  alice_id ≠ bob_id ∧
  N.of_nat (String.length alice_id) < 65536 ∧
  ∃ sender c,
    dict_get alice_id (clients (server two_sessions)) = Some sender ∧
    (bob_id, c) ∈ clients (server two_sessions) ∧
    sendto_fails quiet (udp_addr c) = false ∧
    ∃ packet relayed,
      ClientCore.create_udp_packet LittleEndian alice_client x02 [x07; x08]
      = Some (Some packet) ∧
      SentTo relayed (udp_addr c)
      ∈ (handle_udp_streams_iteration LittleEndian quiet (server two_sessions)
           packet ("10.0.0.1", 40000%Z)).2 ∧
      ClientCore.receive_udp_loop_iteration unit (λ _, Some ()) LittleEndian
        bob_client relayed
      = if (Byte.to_N x02 =? 1) && ClientCore.on_video_frame bob_client then
          match Some () with
          | Some image => [ClientCore.VideoFrame (username sender) image]
          | None => []
          end
        else if (Byte.to_N x02 =? 2) && ClientCore.on_audio_chunk bob_client then
          [ClientCore.AudioChunk (username sender) [x07; x08]]
        else if (Byte.to_N x02 =? 3) && ClientCore.on_screen_frame bob_client then
          match Some () with
          | Some image => [ClientCore.ScreenFrame (username sender) image]
          | None => []
          end
        else [].
Proof.
  assert ((bob_id, mkClient bob_id "bob" 1 1 ("10.0.0.2", 9001%Z) false false false
                     1000.75)
          ∈ clients (server two_sessions)) as Hin.
  { apply elem_of_cons. right. apply elem_of_cons. by left. }
  split; [exact two_sessions_reachable|]. split; [reflexivity|].
  split; [discriminate|]. split; [vm_compute; reflexivity|].
  eexists _, _. split; [vm_compute; reflexivity|]. split; [exact Hin|].
  split; [reflexivity|].
  apply (media_end_to_end unit (λ _, Some ()) LittleEndian quiet
           (server two_sessions) alice_client bob_client alice_id _ bob_id _
           x02 [x07; x08] ("10.0.0.1", 40000%Z) two_sessions_reachable
           eq_refl eq_refl Hin);
    [discriminate | reflexivity | vm_compute; reflexivity].
Defined.

(** ** A session that comes and goes *)

(** X25. Registering a session and then ending its connection brings the
    three indexes back to where they were, provided the id, the display
    name and the room entry are new when the session registers: the table,
    the name index and the room after the [finally] block are those before
    the handshake. *)
Theorem connect_then_close_restores_registry (bo : byteorder) (env env' : Env)
    (st : ScalableCommServer) (writer : handle) (peer : address)
    (incoming : list byte) (t_id t_seen : Q) (text : string) :
  decode (take 1024 incoming) = Some text →
  strip text ≠ "" →
  let name := strip text in
  let id := make_client_id name t_id in
  dict_get id (clients st) = None →
  username_to_id st !! name = None →
  id ∉ rooms_main st →
  let st1 := (handle_tcp_client_handshake bo env st writer peer incoming
                                          t_id t_seen).1.1 in
  let st2 := (handle_tcp_client_finally bo env' st1 (Some id) writer).1 in
  dict_get id (clients st1) ≠ None ∧
  clients st2 = clients st ∧
  username_to_id st2 = username_to_id st ∧
  rooms_main st2 = rooms_main st.
Proof.
  intros Hdec Hname name id Hfresh Hnew Hroom st1 st2.
  assert (st1 = register st id name writer writer peer t_seen) as Hst1.
  { subst st1. unfold handle_tcp_client_handshake.
    rewrite Hdec. by rewrite decide_False. }
  assert (dict_get id (clients st1)
          = Some (new_session st id name writer peer t_seen)) as Hget.
  { rewrite Hst1. unfold register. cbn. apply dict_get_set_eq. }
  destruct (session_end_registered bo env' st1 id _ writer
              (make_client_id_nonempty name t_id) Hget) as (Hcs & Hidx & Hrm).
  fold st2 in Hcs, Hidx, Hrm.
  split; [by rewrite Hget|].
  rewrite Hcs, Hidx, Hrm, Hst1. unfold register, new_session.
  cbn [clients username_to_id rooms_main username with_clients
       with_username_to_id with_rooms_main].
  split_and!.
  - rewrite dict_del_set. apply dict_del_absent. by apply dict_get_None.
  - rewrite delete_insert_eq. by apply delete_id.
  - apply set_eq. intros k.
    rewrite elem_of_difference, elem_of_union, !elem_of_singleton.
    split; [by intros [[->|?] ?]|].
    intros Hk. split; [by right|]. by intros ->.
Qed.

Lemma connect_then_close_restores_registry_witness :
  decode (take 1024 (encode " carol ")) = Some " carol "%string ∧
  strip " carol " ≠ "" ∧
  let st := server two_sessions in
  let name := strip " carol " in
  let id := make_client_id name 1001 in
  dict_get id (clients st) = None ∧
  username_to_id st !! name = None ∧
  (id ∉ rooms_main st) ∧
  let st1 := (handle_tcp_client_handshake LittleEndian quiet st 2
                ("10.0.0.3", 50003%Z) (encode " carol ") 1001 1001).1.1 in
  let st2 := (handle_tcp_client_finally LittleEndian quiet st1 (Some id) 2).1 in
  dict_get id (clients st1) ≠ None ∧
  clients st2 = clients st ∧
  username_to_id st2 = username_to_id st ∧
  rooms_main st2 = rooms_main st.
Proof.
  assert (strip " carol " ≠ "") as Hname by (vm_compute; discriminate).
  assert (make_client_id (strip " carol ") 1001 ∉ rooms_main (server two_sessions))
    as Hroom.
  { apply (bool_decide_unpack _). vm_compute. exact I. }
  split; [vm_compute; reflexivity|]. split; [exact Hname|].
  split; [vm_compute; reflexivity|]. split; [vm_compute; reflexivity|].
  split; [exact Hroom|].
  exact (connect_then_close_restores_registry LittleEndian quiet quiet
           (server two_sessions) 2 ("10.0.0.3", 50003%Z) (encode " carol ")
           1001 1001 " carol " ltac:(vm_compute; reflexivity) Hname
           ltac:(vm_compute; reflexivity) ltac:(vm_compute; reflexivity) Hroom).
Defined.

(** ** The video grid of the window *)

Section Grid.

Variable frame : Type.
Variable displays : frame → bool.

Lemma find_widget_Some (sender : string) (widgets : list (GuiMain.VideoWidget frame))
    (j : nat) :
  GuiMain.find_widget frame sender widgets = Some j →
  ∃ w, widgets !! j = Some w ∧
       (GuiMain.username frame w = "" ∨ GuiMain.username frame w = sender).
Proof.
  revert j. induction widgets as [|w r IH]; intros j; [done|].
  cbn [GuiMain.find_widget]. case_decide as Hw.
  - intros [= <-]. by exists w.
  - intros Hfind. apply fmap_Some in Hfind as (j' & Hj' & ->).
    destruct (IH j' Hj') as (w' & Hlook & Hname). by exists w'.
Qed.

Lemma find_widget_None (sender : string) (widgets : list (GuiMain.VideoWidget frame)) :
  Forall (λ w, GuiMain.username frame w ≠ "" ∧ GuiMain.username frame w ≠ sender)
         widgets →
  GuiMain.find_widget frame sender widgets = None.
Proof.
  induction 1 as [|w r [Hw1 Hw2] Hr IH]; [done|].
  cbn [GuiMain.find_widget]. rewrite decide_False by tauto. by rewrite IH.
Qed.

Lemma update_frame_username (f : frame) (w : GuiMain.VideoWidget frame) :
  GuiMain.username frame (GuiMain.update_frame frame displays f w)
  = GuiMain.username frame w.
Proof. unfold GuiMain.update_frame. by destruct (displays f). Qed.

(** Showing a frame on the widget [i] keeps the grid consistent. *)
Lemma grid_ok_update (me : string) (win win' : GuiMain.MainWindow frame) (f : frame)
    (i : nat) :
  grid_ok me win →
  GuiMain.video_widgets frame win'
  = alter (GuiMain.update_frame frame displays f) i (GuiMain.video_widgets frame win) →
  GuiMain.video_widgets_map frame win' = GuiMain.video_widgets_map frame win →
  GuiMain.my_video_widget frame win' = GuiMain.my_video_widget frame win →
  GuiMain.my_username frame win' = GuiMain.my_username frame win →
  grid_ok me win'.
Proof.
  intros (Hlen & Hme & Hmine & (w0 & Hw0 & Hn0) & Hmap) Hws Hm Hv Hu.
  assert (∀ k w, GuiMain.video_widgets frame win !! k = Some w →
                 ∃ w', GuiMain.video_widgets frame win' !! k = Some w' ∧
                       GuiMain.username frame w' = GuiMain.username frame w) as Hkeep.
  { intros k w Hk. rewrite Hws, list_lookup_alter. case_decide as Hik.
    - subst k. rewrite Hk. eexists. split; [done|]. apply update_frame_username.
    - by exists w. }
  unfold grid_ok. rewrite Hm, Hv, Hu. split_and!; try done.
  - by rewrite Hws, length_alter.
  - destruct (Hkeep _ _ Hw0) as (w' & Hw' & Hn'). exists w'. split; [done|congruence].
  - intros s k Hs. destruct (Hmap s k Hs) as (Hk & Hs1 & Hs2 & w & Hw & Hn).
    split_and!; try done.
    destruct (Hkeep _ _ Hw) as (w' & Hw' & Hn'). exists w'. split; [done|congruence].
Qed.

Lemma grid_ok_handle (me sender : string) (f : frame) (win : GuiMain.MainWindow frame) :
  sender ≠ "" → grid_ok me win →
  grid_ok me (GuiMain.handle_video_frame_gui frame displays sender f win).
Proof.
  intros Hsender Hok. unfold GuiMain.handle_video_frame_gui.
  pose proof Hok as (Hlen & Hme & Hmine & (w0 & Hw0 & Hn0) & Hmap).
  case_decide as Hown.
  - destruct (GuiMain.my_video_widget frame win) as [i|] eqn:Hi; [|done].
    eapply (grid_ok_update me win _ f i); [done|done|done|cbn; congruence|done].
  - assert (sender ≠ me) as Hne by (intros ->; by apply Hown).
    destruct (GuiMain.video_widgets_map frame win !! sender) as [i|] eqn:Hin.
    + cbv zeta. rewrite Hin. by eapply (grid_ok_update me win _ f i).
    + destruct (GuiMain.find_widget frame sender
                  (drop 1 (GuiMain.video_widgets frame win))) as [j|] eqn:Hfind.
      2: { cbv zeta. by rewrite Hin. }
      cbv zeta. cbn [GuiMain.video_widgets_map GuiMain.video_widgets
                     GuiMain.client GuiMain.my_video_widget GuiMain.my_username].
      rewrite lookup_insert_eq.
      eapply (grid_ok_update me
               (GuiMain.mkMainWindow frame (GuiMain.client frame win)
                  (alter (λ _, GuiMain.mkVideoWidget frame sender (GuiMain.Text frame sender))
                         (S j) (GuiMain.video_widgets frame win))
                  (<[sender := S j]> (GuiMain.video_widgets_map frame win))
                  (GuiMain.my_video_widget frame win) (GuiMain.my_username frame win))
               _ f (S j)); [|done..].
      destruct (find_widget_Some _ _ _ Hfind) as (w & Hw & Hfree).
      rewrite lookup_drop in Hw. change (1 + j)%nat with (S j) in Hw.
      unfold grid_ok. cbn. split_and!; try done.
      * by rewrite length_alter.
      * exists w0. by rewrite list_lookup_alter_ne.
      * intros s k Hs. destruct (decide (s = sender)) as [->|Hs'].
        -- rewrite lookup_insert_eq in Hs. injection Hs as <-.
           split_and!; [lia|done|done|].
           eexists. rewrite list_lookup_alter_eq, Hw. done.
        -- rewrite lookup_insert_ne in Hs by done.
           destruct (Hmap s k Hs) as (Hk & Hs1 & Hs2 & w' & Hw' & Hn').
           split_and!; try done. exists w'. split; [|done].
           rewrite list_lookup_alter_ne; [done|].
           intros <-. rewrite Hw in Hw'. injection Hw' as <-.
           destruct Hfree; congruence.
Qed.

Lemma grid_ok_connect (me : string) (win : GuiMain.MainWindow frame) :
  length (GuiMain.video_widgets frame win) = 9%nat →
  GuiMain.video_widgets_map frame win = ∅ →
  grid_ok me (GuiMain.connect_to_server frame me win).
Proof.
  intros Hlen Hmap. unfold grid_ok. cbn. split_and!; try done.
  - by rewrite length_alter.
  - destruct (GuiMain.video_widgets frame win) as [|w0 ws]; [done|]. by eexists.
  - intros s i Hs. by rewrite Hmap, lookup_empty in Hs.
Qed.

(** [disconnect] leaves a blank grid of the same size. *)
Lemma disconnect_blank (win : GuiMain.MainWindow frame) :
  GuiMain.client frame win = true →
  length (GuiMain.video_widgets frame (GuiMain.disconnect frame win))
  = length (GuiMain.video_widgets frame win) ∧
  GuiMain.video_widgets_map frame (GuiMain.disconnect frame win) = ∅ ∧
  Forall (λ w, GuiMain.username frame w = "")
         (GuiMain.video_widgets frame (GuiMain.disconnect frame win)).
Proof.
  intros Hclient. unfold GuiMain.disconnect. rewrite Hclient. cbn.
  split_and!; [by rewrite length_fmap|done|].
  apply Forall_fmap, Forall_true. done.
Qed.

Lemma grid_ok_show_frames (me : string) (calls : list (string * frame))
    (win : GuiMain.MainWindow frame) :
  Forall (λ call, call.1 ≠ "") calls → grid_ok me win →
  grid_ok me (GuiMain.show_frames frame displays calls win).
Proof.
  intros Hcalls. revert win.
  induction Hcalls as [|call calls Hcall Hcalls IH]; intros win Hok; [done|].
  cbn. apply IH. by apply grid_ok_handle.
Qed.

Lemma handle_video_frame_gui_map (sender s : string) (f : frame) (i : nat)
    (win : GuiMain.MainWindow frame) :
  GuiMain.video_widgets_map frame win !! s = Some i →
  GuiMain.video_widgets_map frame
    (GuiMain.handle_video_frame_gui frame displays sender f win) !! s = Some i.
Proof.
  intros Hs. unfold GuiMain.handle_video_frame_gui.
  case_decide as Hown.
  - by destruct (GuiMain.my_video_widget frame win).
  - destruct (GuiMain.video_widgets_map frame win !! sender) as [k|] eqn:Hin.
    + cbv zeta. by rewrite Hin.
    + assert (s ≠ sender) as Hne by congruence.
      destruct (GuiMain.find_widget frame sender
                  (drop 1 (GuiMain.video_widgets frame win))) as [j|].
      * cbv zeta. cbn. rewrite lookup_insert_eq. cbn.
        by rewrite lookup_insert_ne.
      * cbv zeta. by rewrite Hin.
Qed.

End Grid.

(** X26. In a window with its nine widgets and an empty map, as it is
    when created and after every [disconnect], once the user connects as
    [me], whatever video frames arrive from senders with a non-empty name:
    the grid keeps its nine widgets, the first widget stays reserved for
    [me], every sender in the map has a widget of its own among the other
    eight, which carries its name, and no two senders share a widget. *)
Theorem senders_never_share_a_widget (frame : Type) (displays : frame → bool)
    (me : string) (win0 : GuiMain.MainWindow frame) (calls : list (string * frame)) :
  length (GuiMain.video_widgets frame win0) = 9%nat →
  GuiMain.video_widgets_map frame win0 = ∅ →
  Forall (λ call, call.1 ≠ "") calls →
  let win := GuiMain.show_frames frame displays calls
               (GuiMain.connect_to_server frame me win0) in
  length (GuiMain.video_widgets frame win) = 9%nat ∧
  (∃ w0, GuiMain.video_widgets frame win !! 0%nat = Some w0 ∧
         GuiMain.username frame w0 = me) ∧
  (∀ s i, GuiMain.video_widgets_map frame win !! s = Some i →
          (1 ≤ i < 9)%nat ∧ s ≠ me ∧
          ∃ w, GuiMain.video_widgets frame win !! i = Some w ∧
               GuiMain.username frame w = s) ∧
  (∀ s s' i, GuiMain.video_widgets_map frame win !! s = Some i →
             GuiMain.video_widgets_map frame win !! s' = Some i → s = s').
Proof.
  intros Hnine Hblank Hcalls win.
  destruct (grid_ok_show_frames frame displays me calls _ Hcalls
              (grid_ok_connect frame me win0 Hnine Hblank))
    as (Hlen & Hme & Hmine & Hw0 & Hmap).
  fold win in Hlen, Hme, Hmine, Hw0, Hmap.
  split_and!; [done|done| |].
  - intros s i Hs. destruct (Hmap s i Hs) as (Hi & _ & Hne & w & Hw & Hn).
    split_and!; [done| |done|by exists w].
    apply lookup_lt_Some in Hw. lia.
  - intros s s' i Hs Hs'.
    destruct (Hmap s i Hs) as (_ & _ & _ & w & Hw & Hn).
    destruct (Hmap s' i Hs') as (_ & _ & _ & w' & Hw' & Hn').
    congruence.
Qed.

Lemma senders_never_share_a_widget_witness :
  length (GuiMain.video_widgets unit (GuiMain.disconnect unit carol_window)) = 9%nat ∧
  GuiMain.video_widgets_map unit (GuiMain.disconnect unit carol_window) = ∅ ∧
  Forall (λ call : string * unit, call.1 ≠ "")
         [("alice"%string, ()); ("bob"%string, ()); ("alice"%string, ())] ∧
  let win := GuiMain.show_frames unit (λ _, true)
               [("alice"%string, ()); ("bob"%string, ()); ("alice"%string, ())]
               (GuiMain.connect_to_server unit "dave"
                  (GuiMain.disconnect unit carol_window)) in
  length (GuiMain.video_widgets unit win) = 9%nat ∧
  (∃ w0, GuiMain.video_widgets unit win !! 0%nat = Some w0 ∧
         GuiMain.username unit w0 = "dave"%string) ∧
  (∀ s i, GuiMain.video_widgets_map unit win !! s = Some i →
          (1 ≤ i < 9)%nat ∧ s ≠ "dave"%string ∧
          ∃ w, GuiMain.video_widgets unit win !! i = Some w ∧
               GuiMain.username unit w = s) ∧
  (∀ s s' i, GuiMain.video_widgets_map unit win !! s = Some i →
             GuiMain.video_widgets_map unit win !! s' = Some i → s = s').
Proof.
  assert (Forall (λ call : string * unit, call.1 ≠ "")
                 [("alice"%string, ()); ("bob"%string, ()); ("alice"%string, ())])
    as Hcalls by (repeat constructor; discriminate).
  destruct (disconnect_blank unit carol_window eq_refl) as (Hlen & Hmap & _).
  split; [vm_compute; reflexivity|]. split; [exact Hmap|]. split; [exact Hcalls|].
  exact (senders_never_share_a_widget unit (λ _, true) "dave"
           (GuiMain.disconnect unit carol_window) _
           ltac:(vm_compute; reflexivity) Hmap Hcalls).
Defined.

(** X27. A sender keeps the widget it was given: whatever frames arrive
    afterwards, from this sender or from others, the map sends the sender
    to the same widget; and a frame of this sender that can be displayed
    is shown on that widget, under the same name, while every other
    widget stays as it is. *)
Theorem sender_keeps_its_widget (frame : Type) (displays : frame → bool)
    (win : GuiMain.MainWindow frame) (s : string) (i : nat)
    (w : GuiMain.VideoWidget frame) (f : frame) (calls : list (string * frame)) :
  GuiMain.video_widgets_map frame win !! s = Some i →
  GuiMain.my_username frame win ≠ Some s →
  GuiMain.video_widgets frame win !! i = Some w →
  displays f = true →
  GuiMain.video_widgets_map frame (GuiMain.show_frames frame displays calls win) !! s
  = Some i ∧
  let win' := GuiMain.handle_video_frame_gui frame displays s f win in
  GuiMain.video_widgets frame win' !! i
  = Some (GuiMain.mkVideoWidget frame (GuiMain.username frame w)
                                (GuiMain.Pixmap frame f)) ∧
  (∀ j, j ≠ i → GuiMain.video_widgets frame win' !! j
                = GuiMain.video_widgets frame win !! j).
Proof.
  intros Hs Hown Hw Hf. split.
  - clear Hown Hw. revert win Hs.
    induction calls as [|call calls IH]; intros win Hs; [done|].
    cbn. apply IH. by apply handle_video_frame_gui_map.
  - cbv zeta. unfold GuiMain.handle_video_frame_gui.
    rewrite decide_False by done. rewrite Hs. cbv zeta. rewrite Hs. cbn.
    split.
    + rewrite list_lookup_alter_eq, Hw. cbn. unfold GuiMain.update_frame.
      by rewrite Hf.
    + intros j Hj. by rewrite list_lookup_alter_ne.
Qed.

Lemma sender_keeps_its_widget_witness :
  GuiMain.video_widgets_map unit carol_window !! "alice"%string = Some 1%nat ∧
  GuiMain.my_username unit carol_window ≠ Some "alice"%string ∧
  GuiMain.video_widgets unit carol_window !! 1%nat
  = Some (GuiMain.mkVideoWidget unit "alice" (GuiMain.Pixmap unit ())) ∧
  GuiMain.video_widgets_map unit
    (GuiMain.show_frames unit (λ _, true) [("bob"%string, ()); ("alice"%string, ())]
                         carol_window) !! "alice"%string
  = Some 1%nat ∧
  let win' := GuiMain.handle_video_frame_gui unit (λ _, true) "alice" () carol_window in
  GuiMain.video_widgets unit win' !! 1%nat
  = Some (GuiMain.mkVideoWidget unit
            (GuiMain.username unit
               (GuiMain.mkVideoWidget unit "alice" (GuiMain.Pixmap unit ())))
            (GuiMain.Pixmap unit ())) ∧
  (∀ j, j ≠ 1%nat → GuiMain.video_widgets unit win' !! j
                    = GuiMain.video_widgets unit carol_window !! j).
Proof.
  assert (GuiMain.my_username unit carol_window ≠ Some "alice"%string) as Hown
    by (vm_compute; discriminate).
  split; [vm_compute; reflexivity|]. split; [exact Hown|].
  split; [vm_compute; reflexivity|].
  exact (sender_keeps_its_widget unit (λ _, true) carol_window "alice" 1 _ ()
           [("bob"%string, ()); ("alice"%string, ())]
           ltac:(vm_compute; reflexivity) Hown ltac:(vm_compute; reflexivity) eq_refl).
Defined.

(** X28. When none of the eight widgets after the first is free or carries
    the sender's name, a frame of a sender that has no widget yet is
    dropped: the window stays exactly as it is. *)
Theorem full_grid_drops_new_sender (frame : Type) (displays : frame → bool)
    (win : GuiMain.MainWindow frame) (s : string) (f : frame) :
  GuiMain.my_username frame win ≠ Some s →
  GuiMain.video_widgets_map frame win !! s = None →
  Forall (λ w, GuiMain.username frame w ≠ "" ∧ GuiMain.username frame w ≠ s)
         (drop 1 (GuiMain.video_widgets frame win)) →
  GuiMain.handle_video_frame_gui frame displays s f win = win.
Proof.
  intros Hown Hs Hfull. unfold GuiMain.handle_video_frame_gui.
  rewrite decide_False by done. rewrite Hs.
  rewrite (find_widget_None frame s _ Hfull). cbv zeta. by rewrite Hs.
Qed.

Lemma full_grid_drops_new_sender_witness :
  GuiMain.my_username unit full_window ≠ Some "u9"%string ∧
  GuiMain.video_widgets_map unit full_window !! "u9"%string = None ∧
  Forall (λ w, GuiMain.username unit w ≠ "" ∧ GuiMain.username unit w ≠ "u9"%string)
         (drop 1 (GuiMain.video_widgets unit full_window)) ∧
  GuiMain.handle_video_frame_gui unit (λ _, true) "u9" () full_window = full_window.
Proof.
  assert (GuiMain.my_username unit full_window ≠ Some "u9"%string) as Hown
    by (vm_compute; discriminate).
  assert (Forall (λ w, GuiMain.username unit w ≠ ""
                       ∧ GuiMain.username unit w ≠ "u9"%string)
                 (drop 1 (GuiMain.video_widgets unit full_window))) as Hfull.
  { vm_compute. repeat (constructor; [split; discriminate|]). constructor. }
  split; [exact Hown|]. split; [vm_compute; reflexivity|]. split; [exact Hfull|].
  exact (full_grid_drops_new_sender unit (λ _, true) full_window "u9" () Hown
           ltac:(vm_compute; reflexivity) Hfull).
Defined.

(** ** What the window's client listens to *)

(** X29. The window assigns callbacks for video, audio, chat and the user
    list only.  So, whatever happens during [connect], the client it
    creates calls nothing on a screen-share datagram (type 3), on a
    [STATUS:] message and on a [FILE_META:] message: screen frames, status
    changes and file announcements that the server relays are not shown. *)
Theorem window_shows_no_screen_share (frame : Type) (imdecode : list byte → option frame)
    (J : Type) (json_loads : string → option J) (bo : byteorder)
    (server_ip name : string) (net : ClientCore.connection)
    (rest : list byte) (text : string) :
  let cl := (ClientCore.connect bo (GuiMain.client_of_window server_ip) name net).1.1 in
  ClientCore.receive_udp_loop_iteration frame imdecode bo cl (x03 :: rest) = [] ∧
  ClientControl._process_tcp_message_sync J json_loads GuiMain.callbacks_of_window
    ("STATUS:" +:+ text) = [] ∧
  ClientControl._process_tcp_message_sync J json_loads GuiMain.callbacks_of_window
    ("FILE_META:" +:+ text) = [].
Proof.
  intros cl.
  assert (ClientCore.on_screen_frame cl = false) as Hscreen.
  { subst cl. unfold ClientCore.connect. by repeat case_match. }
  split_and!.
  - unfold ClientCore.receive_udp_loop_iteration.
    repeat case_match; try done; simpl in *; rewrite ?Hscreen in *; done.
  - unfold ClientControl._process_tcp_message_sync.
    assert (startswith "CHAT:" ("STATUS:" +:+ text) = false) as -> by done.
    assert (startswith "USERS:" ("STATUS:" +:+ text) = false) as -> by done.
    rewrite startswith_app. by destruct (json_loads _).
  - unfold ClientControl._process_tcp_message_sync.
    assert (startswith "CHAT:" ("FILE_META:" +:+ text) = false) as -> by done.
    assert (startswith "USERS:" ("FILE_META:" +:+ text) = false) as -> by done.
    assert (startswith "STATUS:" ("FILE_META:" +:+ text) = false) as -> by done.
    rewrite startswith_app. by repeat case_match.
Qed.

(** X30. The name that the connect dialog passes on is the text typed,
    stripped of white space, and it is not empty; when it fits the first
    read of the server (1024 bytes), the server registers the session
    under exactly this name, with the id [<name>_<milliseconds>]. *)
Theorem dialog_name_is_registered_as_typed (frame : Type) (bo : byteorder) (env : Env)
    (st : ScalableCommServer) (writer : handle) (peer : address) (t_id t_seen : Q)
    (accepted : bool) (server_input username_input : string)
    (win : GuiMain.MainWindow frame) (server_ip name : string) :
  (GuiMain.show_connect_dialog frame accepted server_input username_input win).2
  = Some (server_ip, name) →
  (String.length name ≤ 1024)%nat →
  name = strip username_input ∧ name ≠ "" ∧ server_ip ≠ "" ∧
  GuiMain.my_username frame
    (GuiMain.show_connect_dialog frame accepted server_input username_input win).1
  = Some name ∧
  let r := handle_tcp_client_handshake bo env st writer peer (encode name) t_id t_seen in
  r.2 = Some (make_client_id name t_id) ∧
  ∃ c, dict_get (make_client_id name t_id) (clients r.1.1) = Some c ∧
       username c = name.
Proof.
  unfold GuiMain.show_connect_dialog. intros Hdialog Hlen.
  destruct accepted; [|done]. cbv zeta in *.
  case_decide as Hinputs; [|done]. destruct Hinputs as [Hip Hname].
  injection Hdialog as <- <-.
  split; [done|]. split; [done|]. split; [done|]. split; [done|].
  cbv zeta. unfold handle_tcp_client_handshake.
  rewrite take_ge by (rewrite length_encode; lia).
  rewrite (valid_text_strip username_input), strip_idemp.
  rewrite decide_False by done. cbn [fst snd]. split; [done|].
  eexists. unfold register. cbn. by rewrite dict_get_set_eq.
Qed.

Lemma dialog_name_is_registered_as_typed_witness :
  (GuiMain.show_connect_dialog unit true " 10.0.0.5 " "  dave " (GuiMain.init unit)).2
  = Some ("10.0.0.5"%string, "dave"%string) ∧
  (String.length "dave" ≤ 1024)%nat ∧
  "dave"%string = strip "  dave " ∧ "dave"%string ≠ ""%string ∧
  "10.0.0.5"%string ≠ ""%string ∧
  GuiMain.my_username unit
    (GuiMain.show_connect_dialog unit true " 10.0.0.5 " "  dave " (GuiMain.init unit)).1
  = Some "dave"%string ∧
  let r := handle_tcp_client_handshake LittleEndian quiet (server two_sessions) 2
             ("10.0.0.4", 50004%Z) (encode "dave") 1001 1001 in
  r.2 = Some (make_client_id "dave" 1001) ∧
  ∃ c, dict_get (make_client_id "dave" 1001) (clients r.1.1) = Some c ∧
       username c = "dave"%string.
Proof.
  split; [vm_compute; reflexivity|]. split; [vm_compute; lia|].
  apply (dialog_name_is_registered_as_typed unit LittleEndian quiet
           (server two_sessions) 2 ("10.0.0.4", 50004%Z) 1001 1001
           true " 10.0.0.5 " "  dave " (GuiMain.init unit) "10.0.0.5" "dave");
    [vm_compute; reflexivity | vm_compute; lia].
Defined.
